(** * pop_db: the OCP6 database feeder

    A shallow embedding of [pop_db.py]: the fake-record constructors
    ([FakeAddress], [FakeMember], ...), the [RandomDataGenerator] iterators
    and the [DatabaseFeeder] stages, followed by the properties established
    about them.

    Conventions of the embedding.
    - Python exceptions are values of [Exn]; an effectful computation over a
      state [S] has type [Eff S A]: it returns either an exception or a
      result, together with the state reached (a raised exception does not
      undo the mutations that preceded it).
    - [random] and [Faker] draw from an oracle held in the [World]: the
      [n]-th draw reads [rand w n] (an arbitrary natural number, reduced
      modulo the range asked for) or [fake w n] (an arbitrary text).
      Quantifying over the world quantifies over every outcome of the
      random source.
    - A Python generator function is a [Gen S A]: the code that runs up to
      the first [yield] (returning the argument lists as that code left
      them, since [random.shuffle] and [+=] work in place on the caller's
      list), and one suspended computation per [yield].
    - Text is a [string]; character classes ([\d], white space, cased
      letters) are those of the ASCII range.  Floating point numbers and
      time stamps are opaque samples of the oracle. *)

From Stdlib Require Import List String Ascii ZArith Lia Bool Arith PeanoNat.
From Stdlib Require Import Permutation.
Import ListNotations.

Open Scope string_scope.
Open Scope nat_scope.
Open Scope list_scope.

(** ** Exceptions and the effect monad *)

Inductive Exn : Type :=
| ValueError (msg : string)
| AttributeError (msg : string)
| IndexError
| IntegrityError        (* sqlalchemy.exc.IntegrityError *)
| OperationalError.     (* any other failure of the gateway *)

Definition Eff (S A : Type) : Type := S -> (Exn + A) * S.

Definition ret {S A} (a : A) : Eff S A := fun s => (inr a, s).

Definition raise {S A} (e : Exn) : Eff S A := fun s => (inl e, s).

Definition bind {S A B} (m : Eff S A) (k : A -> Eff S B) : Eff S B :=
  fun s =>
    match m s with
    | (inr a, s') => k a s'
    | (inl e, s') => (inl e, s')
    end.

Declare Scope eff_scope.
Delimit Scope eff_scope with eff.
Notation "x <- m ;; k" := (bind m (fun x => k))
  (at level 61, m at next level, right associativity) : eff_scope.
Notation "m ;;; k" := (bind m (fun _ => k))
  (at level 61, right associativity) : eff_scope.
Open Scope eff_scope.

(** [for x in xs: body(x)] *)
Fixpoint for_each {S A} (xs : list A) (body : A -> Eff S unit) : Eff S unit :=
  match xs with
  | [] => ret tt
  | x :: rest => body x ;;; for_each rest body
  end.

(** [[f(x) for x in xs]] with an effectful [f] *)
Fixpoint map_m {S A B} (f : A -> Eff S B) (xs : list A) : Eff S (list B) :=
  match xs with
  | [] => ret []
  | x :: rest => y <- f x ;; ys <- map_m f rest ;; ret (y :: ys)
  end.

(** [try: m  except exc: pass] for the exceptions selected by [catches] *)
Definition try_pass {S} (catches : Exn -> bool) (m : Eff S unit) : Eff S unit :=
  fun s =>
    match m s with
    | (inl e, s') => if catches e then (inr tt, s') else (inl e, s')
    | r => r
    end.

(** [range(n)] for a Python integer [n] *)
Definition range (n : Z) : list nat := seq 0 (Z.to_nat n).

(** [len(l)] *)
Definition len {A} (l : list A) : Z := Z.of_nat (List.length l).

(** ** Text helpers (the [str] and [re] operations the script uses)

    The character classes are those of the ASCII range: [is_digit] is
    0-9 and the cased letters are A-Z and a-z.  Python classes more
    characters: [\d] also matches the other Unicode decimal digits (and
    [\D] keeps them), and [str.title] also cases accented letters.  On an
    ASCII text the two agree; what is stated below of the digits kept by
    [re.sub] is stated for ASCII texts, and nothing is stated of the
    letters [title] cases. *)

Definition is_digit (c : ascii) : bool :=
  let n := nat_of_ascii c in (48 <=? n) && (n <=? 57).

Definition is_space (c : ascii) : bool :=
  let n := nat_of_ascii c in
  ((9 <=? n) && (n <=? 13)) || ((28 <=? n) && (n <=? 32)).

Definition is_upper (c : ascii) : bool :=
  let n := nat_of_ascii c in (65 <=? n) && (n <=? 90).

Definition is_lower (c : ascii) : bool :=
  let n := nat_of_ascii c in (97 <=? n) && (n <=? 122).

Definition to_upper (c : ascii) : ascii :=
  if is_lower c then ascii_of_nat (nat_of_ascii c - 32) else c.

Definition to_lower (c : ascii) : ascii :=
  if is_upper c then ascii_of_nat (nat_of_ascii c + 32) else c.

Definition newline : ascii := ascii_of_nat 10.
Definition space : ascii := ascii_of_nat 32.
Definition comma : ascii := ascii_of_nat 44.
Definition plus_sign : ascii := ascii_of_nat 43.
Definition digit_three : ascii := ascii_of_nat 51.
Definition digit_zero : ascii := ascii_of_nat 48.

(** [s.split('\n')[0]] *)
Fixpoint first_line (s : string) : string :=
  match s with
  | EmptyString => EmptyString
  | String c rest =>
      if Ascii.eqb c newline then EmptyString else String c (first_line rest)
  end.

(** [s.lstrip()] *)
Fixpoint lstrip (s : string) : string :=
  match s with
  | EmptyString => EmptyString
  | String c rest => if is_space c then lstrip rest else s
  end.

(** [s.rstrip()] *)
Fixpoint rstrip (s : string) : string :=
  match s with
  | EmptyString => EmptyString
  | String c rest =>
      match rstrip rest with
      | EmptyString => if is_space c then EmptyString else String c EmptyString
      | kept => String c kept
      end
  end.

(** [s.title()]: a cased character is upper-cased when it follows an uncased
    one (or starts the text) and lower-cased otherwise. *)
Fixpoint title_from (previous_is_cased : bool) (s : string) : string :=
  match s with
  | EmptyString => EmptyString
  | String c rest =>
      if is_upper c || is_lower c
      then String (if previous_is_cased then to_lower c else to_upper c)
                  (title_from true rest)
      else String c (title_from false rest)
  end.

Definition title (s : string) : string := title_from false s.

(** [s.replace(' ', '')] *)
Fixpoint remove_spaces (s : string) : string :=
  match s with
  | EmptyString => EmptyString
  | String c rest =>
      if Ascii.eqb c space then remove_spaces rest
      else String c (remove_spaces rest)
  end.


Fixpoint has_newline (s : string) : bool :=
  match s with
  | EmptyString => false
  | String c rest => Ascii.eqb c newline || has_newline rest
  end.

(** The longest prefix of digits, and what follows it. *)
Fixpoint span_digits (s : string) : string * string :=
  match s with
  | EmptyString => (EmptyString, EmptyString)
  | String c rest =>
      if is_digit c
      then let (d, r) := span_digits rest in (String c d, r)
      else (EmptyString, s)
  end.

(** Drops one final newline ([$] also matches just before it). *)
Fixpoint chomp (s : string) : string :=
  match s with
  | EmptyString => EmptyString
  | String c EmptyString => if Ascii.eqb c newline then EmptyString else s
  | String c rest => String c (chomp rest)
  end.

(** The [re.match] of [FakeAddress]: its pattern is, anchored at both
    ends, one or more digits (group 1), an optional comma, then any run of
    characters other than a line break (group 2).  The result is the two
    groups, or [None] when the text does not match: the digits group takes
    every leading digit, and the second group matches what remains exactly
    when it holds no line break. *)
Definition match_number_street (s : string) : option (string * string) :=
  match span_digits s with
  | (EmptyString, _) => None
  | (number, rest) =>
      let rest :=
        match rest with
        | String c r => if Ascii.eqb c comma then r else rest
        | EmptyString => rest
        end in
      let body := chomp rest in
      if has_newline body then None else Some (number, body)
  end.

Fixpoint keep_digits (s : string) : string :=
  match s with
  | EmptyString => EmptyString
  | String c rest =>
      if is_digit c then String c (keep_digits rest) else keep_digits rest
  end.

(** [re.sub(r'^\+33|\D', '', s)] *)
Definition strip_leading_prefix_and_non_digits (s : string) : string :=
  match s with
  | String a (String b (String c rest)) =>
      if Ascii.eqb a plus_sign && Ascii.eqb b digit_three
         && Ascii.eqb c digit_three
      then keep_digits rest
      else keep_digits s
  | _ => keep_digits s
  end.

(** [re.sub(r'\+33|\D', '', s)]: the prefix is dropped wherever it occurs. *)
Fixpoint strip_prefix_and_non_digits (s : string) : string :=
  match s with
  | EmptyString => EmptyString
  | String a rest =>
      if is_digit a then String a (strip_prefix_and_non_digits rest)
      else
        match rest with
        | String b (String c rest') =>
            if Ascii.eqb a plus_sign && Ascii.eqb b digit_three
               && Ascii.eqb c digit_three
            then strip_prefix_and_non_digits rest'
            else strip_prefix_and_non_digits rest
        | _ => strip_prefix_and_non_digits rest
        end
  end.

(** [if len(phone) < 10: phone = '0' + phone] *)
Definition pad_phone (phone : string) : string :=
  if String.length phone <? 10 then String digit_zero phone else phone.

(** ** Values, the world, [random] and [Faker] *)

(** What a column, a statement parameter or a record attribute can hold. *)
Inductive Value : Type :=
| VNone
| VInt (n : Z)
| VStr (s : string)
| VBool (b : bool)
| VFloat (sample : nat)
| VDate (sample : nat)
| VTexts (l : list string).

Definition opt_int (o : option Z) : Value :=
  match o with Some n => VInt n | None => VNone end.

Fixpoint texts_eqb (a b : list string) : bool :=
  match a, b with
  | [], [] => true
  | x :: a', y :: b' => String.eqb x y && texts_eqb a' b'
  | _, _ => false
  end.

Definition value_eqb (a b : Value) : bool :=
  match a, b with
  | VNone, VNone => true
  | VInt x, VInt y => Z.eqb x y
  | VStr x, VStr y => String.eqb x y
  | VBool x, VBool y => Bool.eqb x y
  | VFloat x, VFloat y => Nat.eqb x y
  | VDate x, VDate y => Nat.eqb x y
  | VTexts x, VTexts y => texts_eqb x y
  | _, _ => false
  end.

(** A line written by [print]. *)
Inductive Printed : Type :=
| Line (s : string)
| Ids (l : list Z).

Record World : Type := mkWorld {
  rand : nat -> nat;        (* the outcomes of the random source *)
  fake : nat -> string;     (* the texts of the fake-value provider *)
  cursor : nat;             (* how many draws were made *)
  out : list Printed        (* standard output *)
}.

Definition G (A : Type) : Type := Eff World A.

Definition advance (w : World) : World :=
  mkWorld (rand w) (fake w) (S (cursor w)) (out w).

Definition draw : G nat := fun w => (inr (rand w (cursor w)), advance w).

Definition text : G string := fun w => (inr (fake w (cursor w)), advance w).

Definition print (p : Printed) : G unit :=
  fun w => (inr tt, mkWorld (rand w) (fake w) (cursor w) (out w ++ [p])).

(** [random._randbelow(n)] *)
Definition randbelow (n : nat) : G nat := r <- draw ;; ret (r mod n).

(** [random.choice(seq)] *)
Definition choice {A} (l : list A) : G A :=
  match l with
  | [] => raise IndexError
  | a :: _ => i <- randbelow (List.length l) ;; ret (nth i l a)
  end.

(** [random.randint(a, b)] *)
Definition randint (a b : Z) : G Z :=
  r <- randbelow (Z.to_nat (b - a + 1)) ;; ret (a + Z.of_nat r)%Z.

(** [random.uniform(a, b)]: an opaque sample *)
Definition uniform : G nat := draw.

Fixpoint set_nth {A} (i : nat) (a : A) (l : list A) : list A :=
  match l, i with
  | [], _ => []
  | _ :: rest, 0 => a :: rest
  | x :: rest, S i' => x :: set_nth i' a rest
  end.

(** [x[i], x[j] = x[j], x[i]] *)
Definition swap {A} (i j : nat) (l : list A) : list A :=
  match nth_error l i, nth_error l j with
  | Some a, Some b => set_nth j a (set_nth i b l)
  | _, _ => l
  end.

(** [random.shuffle(x)]:
    [for i in reversed(range(1, len(x))): j = randbelow(i + 1); swap] *)
Fixpoint shuffle_from {A} (i : nat) (x : list A) : G (list A) :=
  match i with
  | 0 => ret x
  | S i' => j <- randbelow (S i) ;; shuffle_from i' (swap i j x)
  end.

Definition shuffle {A} (x : list A) : G (list A) :=
  shuffle_from (List.length x - 1) x.

(** [l[i]] *)
Definition index {S A} (l : list A) (i : nat) : Eff S A :=
  match nth_error l i with
  | Some a => ret a
  | None => raise IndexError
  end.

(** The provider's calls.  [pyfloat] and [date_time_this_decade] return
    opaque samples; [paragraphs] and [sentences] return three texts. *)
Definition last_name : G string := text.
Definition first_name : G string := text.
Definition address : G string := text.
Definition building_number : G string := text.
Definition postcode : G string := text.
Definition email : G string := text.
Definition phone_number : G string := text.
Definition ean13 : G string := text.
Definition file_name : G string := text.
Definition pyfloat : G nat := draw.
Definition date_time_this_decade : G nat := draw.
Definition paragraphs : G (list string) :=
  a <- text ;; b <- text ;; c <- text ;; ret [a; b; c].
Definition sentences : G (list string) := paragraphs.

(** [pbkdf2_sha256.hash(''.join(random.sample(string.printable, 15)))]:
    the hash of a random password, an opaque text. *)
Definition hashed_random_password : G string := text.

(** ** The records and their fake constructors *)

Definition Dict : Type := list (string * Value).

Module Member.
Record t : Type := mk {
  name : string;
  firstname : string;
  works_at_pizzeria_id : option Z;
  user_account_id : option Z;
  address_id : option Z
}.
Definition dict (m : t) : Dict :=
  [("name", VStr (name m)); ("firstname", VStr (firstname m));
   ("works_at_pizzeria_id", opt_int (works_at_pizzeria_id m));
   ("address_id", opt_int (address_id m));
   ("user_account_id", opt_int (user_account_id m))].
End Member.

Definition FakeMember (pizzeria_id address_id : option Z) : G Member.t :=
  name <- last_name ;;
  firstname <- first_name ;;
  ret (Member.mk name firstname pizzeria_id None address_id).

Module Address.
Record t : Type := mk {
  street_name : string;
  home_number : string;
  zip_code : string;
  country : string
}.
Definition dict (a : t) : Dict :=
  [("street_name", VStr (street_name a));
   ("home_number", VStr (home_number a));
   ("zip_code", VStr (zip_code a)); ("country", VStr (country a))].
End Address.

Definition FakeAddress : G Address.t :=
  full <- address ;;
  let street := first_line full in
  number_street <-
    match match_number_street street with
    | Some (number, rest) => ret (number, title (lstrip rest))
    | None => number <- building_number ;; ret (number, rstrip street)
    end ;;
  code <- postcode ;;
  ret (Address.mk (snd number_street) (fst number_street)
                  (remove_spaces code) "France").

Module UserAccount.
Record t : Type := mk {
  email : string;
  phone_nb : string;
  member_id : Z;
  hashed_pwd : string
}.
Definition dict (u : t) : Dict :=
  [("email", VStr (email u)); ("phone_nb", VStr (phone_nb u));
   ("member_id", VInt (member_id u)); ("hashed_pwd", VStr (hashed_pwd u))].
End UserAccount.

Definition FakeUserAccount (member_id : Z) : G UserAccount.t :=
  mail <- email ;;
  phone <- phone_number ;;
  let phone_nb := pad_phone (strip_leading_prefix_and_non_digits phone) in
  hashed_pwd <- hashed_random_password ;;
  ret (UserAccount.mk mail phone_nb member_id hashed_pwd).

Module TakenOrder.
Record t : Type := mk {
  member_id : Z;
  address_id : option Z;
  status_id : Z;
  pizzeria_id : Z;
  is_paid : bool;
  bill_id : option Z
}.
Definition dict (o : t) : Dict :=
  [("member_id", VInt (member_id o)); ("address_id", opt_int (address_id o));
   ("pizzeria_id", VInt (pizzeria_id o)); ("status_id", VInt (status_id o));
   ("is_paid", VBool (is_paid o)); ("bill_id", opt_int (bill_id o))].
End TakenOrder.

Definition FakeTakenOrder (member_id : Z) (address_id : option Z)
    (pizzeria_id : Z) (order_status_ids : list Z) : G TakenOrder.t :=
  status_id <- choice order_status_ids ;;
  is_paid <- choice [true; false] ;;
  ret (TakenOrder.mk member_id address_id status_id pizzeria_id is_paid None).

Module Bill.
Record t : Type := mk {
  emission_date : nat;
  total_amout_ati : nat;
  order_id : Z
}.
Definition dict (b : t) : Dict :=
  [("emission_date", VDate (emission_date b));
   ("total_amout_ati", VFloat (total_amout_ati b));
   ("order_id", VInt (order_id b))].
End Bill.

Definition FakeBill (order_id : Z) : G Bill.t :=
  emission_date <- date_time_this_decade ;;
  total <- pyfloat ;;
  ret (Bill.mk emission_date total order_id).

Module Product.
Record t : Type := mk {
  name : string;
  barcode : string;
  gram_weight : Z;
  unit_price_ati : nat
}.
Definition dict (p : t) : Dict :=
  [("name", VStr (name p)); ("barcode", VStr (barcode p));
   ("gram_weight", VInt (gram_weight p));
   ("unit_price_ati", VFloat (unit_price_ati p))].
End Product.

Definition FakeProduct (name : string) : G Product.t :=
  barcode <- ean13 ;;
  n <- randint 20 2000 ;;
  price <- pyfloat ;;
  ret (Product.mk name barcode (n * 5)%Z price).

Module Pizzeria.
Record t : Type := mk {
  name : string;
  phone_nb : string;
  address_id : option Z
}.
Definition dict (p : t) : Dict :=
  [("name", VStr (name p)); ("phone_nb", VStr (phone_nb p));
   ("address_id", opt_int (address_id p))].
End Pizzeria.

Definition FakePizzeria (name : string) (address_id : option Z)
    : G Pizzeria.t :=
  phone <- phone_number ;;
  let phone_nb := pad_phone (strip_prefix_and_non_digits phone) in
  ret (Pizzeria.mk name phone_nb address_id).

Module Recipe.
Record t : Type := mk {
  name : string;
  description : list string;
  is_public : bool
}.
Definition dict (r : t) : Dict :=
  [("name", VStr (name r)); ("description", VTexts (description r));
   ("is_public", VBool (is_public r))].
End Recipe.

Definition FakeRecipe (name : string) : G Recipe.t :=
  description <- paragraphs ;;
  is_public <- choice [true; false] ;;
  ret (Recipe.mk name description is_public).

Module CatalogItem.
Record t : Type := mk {
  name : Value;
  description : list string;
  picture_file : string;
  unit_price_ati : nat;
  is_available : bool;
  is_displayed : bool;
  recipe_id : option Z;
  product_id : option Z
}.
Definition dict (c : t) : Dict :=
  [("name", name c); ("description", VTexts (description c));
   ("picture_file", VStr (picture_file c));
   ("unit_price_ati", VFloat (unit_price_ati c));
   ("is_available", VBool (is_available c));
   ("is_displayed", VBool (is_displayed c));
   ("recipe_id", opt_int (recipe_id c));
   ("product_id", opt_int (product_id c))].
End CatalogItem.

Definition FakeCatalogItem (name : Value) (parent : string) (parent_id : Z)
    : G CatalogItem.t :=
  description <- sentences ;;
  picture_file <- file_name ;;
  price <- pyfloat ;;
  is_available <- choice [true; false] ;;
  is_displayed <- choice [true; false] ;;
  if String.eqb parent "recipe" then
    ret (CatalogItem.mk name description picture_file price
                        is_available is_displayed (Some parent_id) None)
  else if String.eqb parent "product" then
    ret (CatalogItem.mk name description picture_file price
                        is_available is_displayed None (Some parent_id))
  else
    raise (AttributeError "Unknown parent").
(* The message of the source also quotes the parent's name. *)

Module Role.
Record t : Type := mk { name : string }.
Definition dict (r : t) : Dict := [("name", VStr (name r))].
End Role.

Module Permission.
Record t : Type := mk { label : string }.
Definition dict (p : t) : Dict := [("label", VStr (label p))].
End Permission.

Module OrderStatus.
Record t : Type := mk { label : string }.
Definition dict (s : t) : Dict := [("label", VStr (label s))].
End OrderStatus.

Module Keyword.
Record t : Type := mk { name : string }.
Definition dict (k : t) : Dict := [("name", VStr (name k))].
End Keyword.

(** ** RandomDataGenerator *)

(** A generator function: the effect of its first [next()] up to the first
    [yield] -- which returns the state [S] its argument lists are left in --
    and the suspended computations that produce the yielded records. *)
Definition Gen (S A : Type) : Type := G (S * list (G A)).

Module RandomDataGenerator.

Definition product_names : list string :=
  ["farine de blé"; "tomate pelée"; "pulpe de tomate";
   "mozzarella"; "ananas"; "parmesan"; "viande hachée de boeuf";
   "saumon"; "fromage de chèvre"; "artichaut"; "poivron";
   "thon"; "oignon"; "ail"; "pâte"; "oeuf"; "mélange fruits de mer";
   "jambon"; "jambon sec"; "chorizo"; "truffe"; "petit pois";
   "viande de boeuf"; "moule"; "palourde"; "coque";
   "farine d'épeautre"; "langoustine"; "écrevisse"; "crevette rose";
   "crevette grise"; "olive"; "roquette"; "basilic"; "champignon"].

Definition pizzeria_names : list string :=
  ["OC Pizza #1"; "OC Pizza bis"; "The Best of OC Pizza";
   "OC Pizza Original"; "OC Pizza's"].

Definition recipe_names : list string :=
  ["Spaghetti bolognaise"; "Pizza regina"; "Pizza calzone";
   "Pizza quatre saisons"; "Pizza de la mer"; "Ravioles au crabe";
   "Tagliatelle au saumon"; "Pizza Margarita"; "Pizza hawaïenne";
   "Pâtes à la carbonara"; "Risotto à la truffe"; "Minestrone";
   "Linguine aux fruits de mer"; "Pâtes au pesto"; "Lasagne";
   "Lasagne végétarienne"; "Raviolis quatre fromages";
   "Escalope à la milanaise"; "Carpaccio de boeuf";
   "Scalopine"; "Pizza chèvre miel"; "Pizza végétarienne";
   "Pizza napolitaine"].

Definition order_status_labels : list string :=
  ["Panier"; "En cours"; "En attente"; "Terminée"].

Definition keyword_labels : list string :=
  ["pizza"; "pâtes"; "végétarien"; "poisson"; "viande";
   "champignon"; "spaghetti"; "macaroni"; "tagliatelle";
   "fromage"; "chèvre"; "artichaut"; "parmesan"; "gruyère";
   "tomate"; "poivron"; "thon"; "saumon"; "carbonara";
   "moule"; "palourde"; "crevette"; "langoustine"; "écrevisse";
   "porc"; "boeuf"; "poulet"; "volaille"; "oignon"; "ail";
   "napolitain"; "truffe"; "veau"; "pesto"; "riz"].

Definition permission_labels : list string :=
  ["Modifier compte"; "Créer compte"; "Créer commande";
   "Consulter commande tierse"; "Modifier compte tiers"].

Definition role_names : list string :=
  ["Client"; "Gestionnaire"; "Pizzaïolo"; "Livreur";
   "Opérateur de commande"].

(** [enumerate(l)] *)
Definition enumerate {A} (l : list A) : list (nat * A) :=
  combine (seq 0 (List.length l)) l.

Definition addresses (size : Z) : Gen unit Address.t :=
  ret (tt, map (fun _ => FakeAddress) (range size)).

Definition members (address_ids : list (option Z)) (pizzeria_ids : list Z)
    (size : Z) : Gen (list (option Z)) Member.t :=
  if (len address_ids <? size)%Z then
    raise (ValueError "Not enough address_ids")
  else
    pizzeria_ids' <- map_m (fun i => choice [None; Some i]) pizzeria_ids ;;
    address_ids' <- shuffle address_ids ;;
    ret (address_ids',
         map (fun i =>
                pizzeria_id <- choice pizzeria_ids' ;;
                address_id <- index address_ids' i ;;
                FakeMember pizzeria_id address_id)
             (range size)).

Definition user_accounts (member_ids : list Z) (size : Z)
    : Gen (list Z) UserAccount.t :=
  if (len member_ids <? size)%Z then
    raise (ValueError "Not enough member_ids")
  else
    member_ids' <- shuffle member_ids ;;
    ret (member_ids',
         map (fun i =>
                member_id <- index member_ids' i ;;
                FakeUserAccount member_id)
             (range size)).

Definition taken_orders (member_ids : list Z) (address_ids : list (option Z))
    (pizzeria_ids order_status_ids : list Z) (size : Z)
    : Gen (list Z * list (option Z)) TakenOrder.t :=
  if (len member_ids <? size)%Z then
    raise (ValueError "Not enough member_ids")
  else if (len address_ids <? size)%Z then
    raise (ValueError "Not enough address_ids")
  else
    member_ids' <- shuffle member_ids ;;
    address_ids' <- shuffle address_ids ;;
    ret ((member_ids', address_ids'),
         map (fun _ =>
                member_id <- choice member_ids' ;;
                address_id <- choice address_ids' ;;
                pizzeria_id <- choice pizzeria_ids ;;
                FakeTakenOrder member_id address_id pizzeria_id
                               order_status_ids)
             (range size)).

Definition bills (taken_order_ids : list Z) (size : Z) : Gen unit Bill.t :=
  if (len taken_order_ids <? size)%Z then
    print (Ids taken_order_ids) ;;;
    raise (ValueError "Not enough taken_order_ids")
  else
    ret (tt,
         map (fun i =>
                order_id <- index taken_order_ids i ;;
                FakeBill order_id)
             (range size)).

Definition products : Gen unit Product.t :=
  ret (tt, map FakeProduct product_names).

Definition pizzerias (address_ids : list (option Z))
    : Gen (list (option Z)) Pizzeria.t :=
  address_ids' <-
    (if (len address_ids <? 5)%Z
     then shuffle (address_ids ++ repeat None 5)
     else ret address_ids) ;;
  ret (address_ids',
       map (fun i_name =>
              address_id <- index address_ids' (fst i_name) ;;
              FakePizzeria (snd i_name) address_id)
           (enumerate pizzeria_names)).

Definition recipes : Gen unit Recipe.t :=
  ret (tt, map FakeRecipe recipe_names).

Definition catalog_items (recipes : list (Value * Z))
    : Gen unit CatalogItem.t :=
  ret (tt,
       map (fun item => FakeCatalogItem (fst item) "recipe" (snd item))
           recipes).

Definition order_status : Gen unit OrderStatus.t :=
  ret (tt, map (fun label => ret (OrderStatus.mk label)) order_status_labels).

Definition keywords : Gen unit Keyword.t :=
  ret (tt, map (fun label => ret (Keyword.mk label)) keyword_labels).

Definition permissions : Gen unit Permission.t :=
  ret (tt, map (fun label => ret (Permission.mk label)) permission_labels).

Definition roles : Gen unit Role.t :=
  ret (tt, map (fun name => ret (Role.mk name)) role_names).

Definition has_permission_to (role_ids permission_ids : list Z) : G Dict :=
  role_id <- choice role_ids ;;
  permission_id <- choice permission_ids ;;
  ret [("role_id", VInt role_id); ("permission_id", VInt permission_id)].

Definition contains_item (taken_order_ids catalog_item_ids : list Z)
    : G Dict :=
  order_id <- choice taken_order_ids ;;
  item_id <- choice catalog_item_ids ;;
  quantity <- randint 1 10 ;;
  price <- uniform ;;
  ret [("order_id", VInt order_id); ("item_id", VInt item_id);
       ("quantity", VInt quantity); ("unit_price_ati", VFloat price)].

Definition has_product_in_stock (pizzeria_ids product_ids : list Z)
    : G Dict :=
  pizzeria_id <- choice pizzeria_ids ;;
  product_id <- choice product_ids ;;
  quantity <- randint 1 100 ;;
  ret [("pizzeria_id", VInt pizzeria_id); ("product_id", VInt product_id);
       ("quantity", VInt quantity)].

Definition requires_product (recipe_ids product_ids : list Z) : G Dict :=
  recipe_id <- choice recipe_ids ;;
  product_id <- choice product_ids ;;
  gram_amount <- randint 1 1000 ;;
  ret [("recipe_id", VInt recipe_id); ("product_id", VInt product_id);
       ("gram_amount", VInt gram_amount)].

Definition has_keyword (catalog_item_ids keyword_ids : list Z) : G Dict :=
  item_id <- choice catalog_item_ids ;;
  keyword_id <- choice keyword_ids ;;
  ret [("item_id", VInt item_id); ("keyword_id", VInt keyword_id)].

End RandomDataGenerator.

(** ** The persistence gateway

    The schema is created outside the script.  A table that has an [id]
    primary key is a list of rows [(id, columns)]; an association table is a
    list of rows that is unique on its first two columns.  An insertion into
    a keyed table is given an identifier greater than every identifier of
    the table; a column the statement does not name is absent from the row
    and reads as [VNone] (NULL).  Rows are read back in the order of the
    list.

    The other constraints of the schema (foreign keys, NOT NULL, CHECK) are
    not in the script: which statements they reject is left to an oracle of
    the feeder's state, as are the failures of the connection.  A rejected
    statement raises the same [IntegrityError] as a duplicate key. *)

Inductive Entity : Type :=
| T_address | T_pizzeria | T_member | T_user_account | T_recipe | T_product
| T_catalog_item | T_order_status | T_taken_order | T_bill | T_keyword
| T_permission | T_role.

Inductive Relation : Type :=
| R_has_permission_to | R_contains_item | R_requires_product
| R_has_product_in_stock | R_has_keyword.

Definition Row : Type := (Z * Dict)%type.

Record Database : Type := mkDatabase {
  rows_of : Entity -> list Row;
  links_of : Relation -> list Dict
}.

Definition Entity_eqb (a b : Entity) : bool :=
  match a, b with
  | T_address, T_address | T_pizzeria, T_pizzeria | T_member, T_member
  | T_user_account, T_user_account | T_recipe, T_recipe
  | T_product, T_product | T_catalog_item, T_catalog_item
  | T_order_status, T_order_status | T_taken_order, T_taken_order
  | T_bill, T_bill | T_keyword, T_keyword | T_permission, T_permission
  | T_role, T_role => true
  | _, _ => false
  end.

Definition Relation_eqb (a b : Relation) : bool :=
  match a, b with
  | R_has_permission_to, R_has_permission_to
  | R_contains_item, R_contains_item
  | R_requires_product, R_requires_product
  | R_has_product_in_stock, R_has_product_in_stock
  | R_has_keyword, R_has_keyword => true
  | _, _ => false
  end.

Definition set_rows (t : Entity) (rows : list Row) (d : Database) : Database :=
  mkDatabase (fun t' => if Entity_eqb t t' then rows else rows_of d t')
             (links_of d).

Definition set_links (r : Relation) (links : list Dict) (d : Database)
    : Database :=
  mkDatabase (rows_of d)
             (fun r' => if Relation_eqb r r' then links else links_of d r').

(** The statements the script sends, with their named placeholders. *)
Inductive Statement : Type :=
| InsertInto (t : Entity) (columns : list string)
    (* INSERT INTO t (c1, ...) VALUES (:c1, ...) *)
| InsertValues (r : Relation) (parameters : list string)
    (* INSERT INTO r VALUES (:p1, ...) *)
| SelectFrom (columns : list string) (t : Entity)
    (* SELECT c1, ... FROM t *)
| SelectWhereNotNull (columns : list string) (t : Entity) (c : string)
    (* SELECT c1, ... FROM t WHERE c IS NOT NULL *)
| UpdateSet (t : Entity) (column parameter id_parameter : string).
    (* UPDATE t SET column = :parameter WHERE id = :id_parameter *)

(** The statements that write: only they can break a constraint. *)
Definition writes (s : Statement) : bool :=
  match s with
  | SelectFrom _ _ | SelectWhereNotNull _ _ _ => false
  | _ => true
  end.

Fixpoint lookup (d : Dict) (k : string) : option Value :=
  match d with
  | [] => None
  | (k', v) :: rest => if String.eqb k k' then Some v else lookup rest k
  end.

(** The value of a column, NULL when the row does not hold it. *)
Definition cell (d : Dict) (k : string) : Value :=
  match lookup d k with Some v => v | None => VNone end.

Fixpoint set_cell (d : Dict) (k : string) (v : Value) : Dict :=
  match d with
  | [] => [(k, v)]
  | (k', v') :: rest =>
      if String.eqb k k' then (k', v) :: rest
      else (k', v') :: set_cell rest k v
  end.

(** Binds the placeholders; [None] when a parameter is missing. *)
Fixpoint bind_parameters (names : list string) (parameters : Dict)
    : option Dict :=
  match names with
  | [] => Some []
  | n :: rest =>
      match lookup parameters n, bind_parameters rest parameters with
      | Some v, Some d => Some ((n, v) :: d)
      | _, _ => None
      end
  end.

Definition next_id (rows : list Row) : Z :=
  Z.succ (fold_right Z.max 0%Z (map fst rows)).

(** The composite key of an association row: its first two columns. *)
Definition link_key (d : Dict) : list Value := map snd (firstn 2 d).

Fixpoint key_eqb (a b : list Value) : bool :=
  match a, b with
  | [], [] => true
  | x :: a', y :: b' => value_eqb x y && key_eqb a' b'
  | _, _ => false
  end.

Definition is_null (v : Value) : bool :=
  match v with VNone => true | _ => false end.

Definition update_row (column : string) (v id : Value) (r : Row) : Row :=
  if value_eqb (VInt (fst r)) id then (fst r, set_cell (snd r) column v)
  else r.

(** What a statement returns and how it changes the tables. *)
Definition execute (s : Statement) (parameters : Dict) (d : Database)
    : Exn + (list Row * Database) :=
  match s with
  | InsertInto t columns =>
      match bind_parameters columns parameters with
      | Some cells =>
          inr ([], set_rows t (rows_of d t ++ [(next_id (rows_of d t), cells)])
                            d)
      | None => inl OperationalError
      end
  | InsertValues r names =>
      match bind_parameters names parameters with
      | Some cells =>
          if existsb (fun l => key_eqb (link_key l) (link_key cells))
                     (links_of d r)
          then inl IntegrityError
          else inr ([], set_links r (links_of d r ++ [cells]) d)
      | None => inl OperationalError
      end
  | SelectFrom _ t => inr (rows_of d t, d)
  | SelectWhereNotNull _ t c =>
      inr (filter (fun r => negb (is_null (cell (snd r) c))) (rows_of d t), d)
  | UpdateSet t column parameter id_parameter =>
      match lookup parameters parameter, lookup parameters id_parameter with
      | Some v, Some id =>
          inr ([], set_rows t (map (update_row column v id) (rows_of d t)) d)
      | _, _ => inl OperationalError
      end
  end.

(** ** DatabaseFeeder *)

Module DatabaseFeeder.

(** The attributes that hold identifiers; [None] until first assigned. *)
Record Pools : Type := mkPools {
  address_ids : option (list (option Z));
  member_ids : option (list Z);
  pizzeria_ids : option (list Z);
  user_accounts : option (list (Value * Z));
  recipes : option (list (Value * Z));
  product_ids : option (list Z);
  catalog_item_ids : option (list Z);
  order_status_ids : option (list Z);
  taken_order_ids : option (list Z);
  keyword_ids : option (list Z);
  permission_ids : option (list Z);
  role_ids : option (list Z)
}.

Definition no_pools : Pools :=
  mkPools None None None None None None None None None None None None.

Record Feeder : Type := mkFeeder {
  db : Database;
  size : Z;
  world : World;
  fault : nat -> bool;        (* the statements on which the gateway fails *)
  violation : nat -> bool;    (* the writes that break another constraint
                                 than the uniqueness of a key *)
  journal : list Statement;   (* the statements sent so far *)
  pools : Pools
}.

Definition M (A : Type) : Type := Eff Feeder A.

Definition with_db (d : Database) (f : Feeder) : Feeder :=
  mkFeeder d (size f) (world f) (fault f) (violation f) (journal f) (pools f).

Definition with_world (w : World) (f : Feeder) : Feeder :=
  mkFeeder (db f) (size f) w (fault f) (violation f) (journal f) (pools f).

Definition with_journal (j : list Statement) (f : Feeder) : Feeder :=
  mkFeeder (db f) (size f) (world f) (fault f) (violation f) j (pools f).

Definition with_pools (p : Pools) (f : Feeder) : Feeder :=
  mkFeeder (db f) (size f) (world f) (fault f) (violation f) (journal f) p.

(** Runs a computation of the generators on the feeder's world. *)
Definition liftW {A} (g : G A) : M A :=
  fun f => let (r, w) := g (world f) in (r, with_world w f).

(** [self.name], an AttributeError while the attribute is unset. *)
Definition attr {A} (get : Pools -> option A) (name : string) : M A :=
  fun f =>
    match get (pools f) with
    | Some a => (inr a, f)
    | None => (inl (AttributeError name), f)
    end.

(** [self.name = value] *)
Definition assign (set : Pools -> Pools) : M unit :=
  fun f => (inr tt, with_pools (set (pools f)) f).

(** [self.db.query(statement, **parameters)] *)
Definition query (s : Statement) (parameters : Dict) : M (list Row) :=
  fun f =>
    let f1 := with_journal (journal f ++ [s]) f in
    if fault f (List.length (journal f)) then (inl OperationalError, f1)
    else if writes s && violation f (List.length (journal f))
    then (inl IntegrityError, f1)
    else
      match execute s parameters (db f) with
      | inl e => (inl e, f1)
      | inr (rows, d) => (inr rows, with_db d f1)
      end.

(** [for x in generator: body(x)]: the generator's lists are the feeder's
    own, so [write_back] stores them as the generator left them. *)
Definition for_gen {S A} (g : Gen S A) (write_back : S -> M unit)
    (body : A -> M unit) : M unit :=
  started <- liftW g ;;
  write_back (fst started) ;;;
  for_each (snd started) (fun next => x <- liftW next ;; body x).

(** [{key(r): r.id for r in rows}] *)
Fixpoint dict_set (k : Value) (v : Z) (d : list (Value * Z))
    : list (Value * Z) :=
  match d with
  | [] => [(k, v)]
  | (k', v') :: rest =>
      if value_eqb k k' then (k', v) :: rest
      else (k', v') :: dict_set k v rest
  end.

Definition dict_by (column : string) (rows : list Row) : list (Value * Z) :=
  fold_left (fun d r => dict_set (cell (snd r) column) (fst r) d) rows [].

Definition set_address_ids (v : list (option Z)) (p : Pools) : Pools :=
  mkPools (Some v) (member_ids p) (pizzeria_ids p) (user_accounts p)
          (recipes p) (product_ids p) (catalog_item_ids p)
          (order_status_ids p) (taken_order_ids p) (keyword_ids p)
          (permission_ids p) (role_ids p).

Definition set_member_ids (v : list Z) (p : Pools) : Pools :=
  mkPools (address_ids p) (Some v) (pizzeria_ids p) (user_accounts p)
          (recipes p) (product_ids p) (catalog_item_ids p)
          (order_status_ids p) (taken_order_ids p) (keyword_ids p)
          (permission_ids p) (role_ids p).

Definition set_pizzeria_ids (v : list Z) (p : Pools) : Pools :=
  mkPools (address_ids p) (member_ids p) (Some v) (user_accounts p)
          (recipes p) (product_ids p) (catalog_item_ids p)
          (order_status_ids p) (taken_order_ids p) (keyword_ids p)
          (permission_ids p) (role_ids p).

Definition set_user_accounts (v : list (Value * Z)) (p : Pools) : Pools :=
  mkPools (address_ids p) (member_ids p) (pizzeria_ids p) (Some v)
          (recipes p) (product_ids p) (catalog_item_ids p)
          (order_status_ids p) (taken_order_ids p) (keyword_ids p)
          (permission_ids p) (role_ids p).

Definition set_recipes (v : list (Value * Z)) (p : Pools) : Pools :=
  mkPools (address_ids p) (member_ids p) (pizzeria_ids p) (user_accounts p)
          (Some v) (product_ids p) (catalog_item_ids p)
          (order_status_ids p) (taken_order_ids p) (keyword_ids p)
          (permission_ids p) (role_ids p).

Definition set_product_ids (v : list Z) (p : Pools) : Pools :=
  mkPools (address_ids p) (member_ids p) (pizzeria_ids p) (user_accounts p)
          (recipes p) (Some v) (catalog_item_ids p)
          (order_status_ids p) (taken_order_ids p) (keyword_ids p)
          (permission_ids p) (role_ids p).

Definition set_catalog_item_ids (v : list Z) (p : Pools) : Pools :=
  mkPools (address_ids p) (member_ids p) (pizzeria_ids p) (user_accounts p)
          (recipes p) (product_ids p) (Some v)
          (order_status_ids p) (taken_order_ids p) (keyword_ids p)
          (permission_ids p) (role_ids p).

Definition set_order_status_ids (v : list Z) (p : Pools) : Pools :=
  mkPools (address_ids p) (member_ids p) (pizzeria_ids p) (user_accounts p)
          (recipes p) (product_ids p) (catalog_item_ids p)
          (Some v) (taken_order_ids p) (keyword_ids p)
          (permission_ids p) (role_ids p).

Definition set_taken_order_ids (v : list Z) (p : Pools) : Pools :=
  mkPools (address_ids p) (member_ids p) (pizzeria_ids p) (user_accounts p)
          (recipes p) (product_ids p) (catalog_item_ids p)
          (order_status_ids p) (Some v) (keyword_ids p)
          (permission_ids p) (role_ids p).

Definition set_keyword_ids (v : list Z) (p : Pools) : Pools :=
  mkPools (address_ids p) (member_ids p) (pizzeria_ids p) (user_accounts p)
          (recipes p) (product_ids p) (catalog_item_ids p)
          (order_status_ids p) (taken_order_ids p) (Some v)
          (permission_ids p) (role_ids p).

Definition set_permission_ids (v : list Z) (p : Pools) : Pools :=
  mkPools (address_ids p) (member_ids p) (pizzeria_ids p) (user_accounts p)
          (recipes p) (product_ids p) (catalog_item_ids p)
          (order_status_ids p) (taken_order_ids p) (keyword_ids p)
          (Some v) (role_ids p).

Definition set_role_ids (v : list Z) (p : Pools) : Pools :=
  mkPools (address_ids p) (member_ids p) (pizzeria_ids p) (user_accounts p)
          (recipes p) (product_ids p) (catalog_item_ids p)
          (order_status_ids p) (taken_order_ids p) (keyword_ids p)
          (permission_ids p) (Some v).

Definition self_size : M Z := fun f => (inr (size f), f).

Definition ids (rows : list Row) : list Z := map fst rows.

Definition insert (s : Statement) (parameters : Dict) : M unit :=
  query s parameters ;;; ret tt.

Definition _insert_addresses : M (list (option Z)) :=
  size <- self_size ;;
  for_gen (RandomDataGenerator.addresses size) (fun _ => ret tt)
    (fun address =>
       insert (InsertInto T_address
                 ["street_name"; "home_number"; "zip_code"; "country"])
              (Address.dict address)) ;;;
  rows <- query (SelectFrom ["id"] T_address) [] ;;
  assign (set_address_ids (map Some (ids rows))) ;;;
  attr address_ids "address_ids".

Definition _insert_pizzerias : M (list Z) :=
  address_ids <- attr address_ids "address_ids" ;;
  for_gen (RandomDataGenerator.pizzerias address_ids)
    (fun address_ids' => assign (set_address_ids address_ids'))
    (fun pizzeria =>
       insert (InsertInto T_pizzeria ["name"; "phone_nb"; "address_id"])
              (Pizzeria.dict pizzeria)) ;;;
  rows <- query (SelectFrom ["id"] T_pizzeria) [] ;;
  assign (set_pizzeria_ids (ids rows)) ;;;
  attr pizzeria_ids "pizzeria_ids".

Definition _insert_members : M (list Z) :=
  address_ids <- attr address_ids "address_ids" ;;
  pizzeria_ids <- attr pizzeria_ids "pizzeria_ids" ;;
  size <- self_size ;;
  for_gen (RandomDataGenerator.members address_ids pizzeria_ids size)
    (fun address_ids' => assign (set_address_ids address_ids'))
    (fun member =>
       insert (InsertInto T_member
                 ["name"; "firstname"; "works_at_pizzeria_id";
                  "user_account_id"; "address_id"])
              (Member.dict member)) ;;;
  rows <- query (SelectFrom ["id"] T_member) [] ;;
  assign (set_member_ids (ids rows)) ;;;
  attr member_ids "member_ids".

Definition _insert_user_accounts : M (list (Value * Z)) :=
  member_ids <- attr member_ids "member_ids" ;;
  size <- self_size ;;
  for_gen (RandomDataGenerator.user_accounts member_ids size)
    (fun member_ids' => assign (set_member_ids member_ids'))
    (fun user_account =>
       insert (InsertInto T_user_account
                 ["member_id"; "email"; "phone_nb"; "hashed_pwd"])
              (UserAccount.dict user_account)) ;;;
  rows <- query (SelectFrom ["id"; "member_id"] T_user_account) [] ;;
  assign (set_user_accounts (dict_by "member_id" rows)) ;;;
  attr user_accounts "user_accounts".

Definition _insert_taken_orders : M (list Z) :=
  member_ids <- attr member_ids "member_ids" ;;
  address_ids <- attr address_ids "address_ids" ;;
  pizzeria_ids <- attr pizzeria_ids "pizzeria_ids" ;;
  order_status_ids <- attr order_status_ids "order_status_ids" ;;
  size <- self_size ;;
  for_gen (RandomDataGenerator.taken_orders member_ids address_ids
             pizzeria_ids order_status_ids size)
    (fun lists =>
       assign (set_member_ids (fst lists)) ;;;
       assign (set_address_ids (snd lists)))
    (fun taken_order =>
       insert (InsertInto T_taken_order
                 ["member_id"; "address_id"; "pizzeria_id"; "status_id";
                  "is_paid"; "bill_id"])
              (TakenOrder.dict taken_order)) ;;;
  rows <- query (SelectFrom ["id"] T_taken_order) [] ;;
  assign (set_taken_order_ids (ids rows)) ;;;
  attr taken_order_ids "taken_order_ids".

Definition _insert_bills : M unit :=
  taken_order_ids <- attr taken_order_ids "taken_order_ids" ;;
  size <- self_size ;;
  for_gen (RandomDataGenerator.bills taken_order_ids size) (fun _ => ret tt)
    (fun bill =>
       insert (InsertInto T_bill
                 ["emission_date"; "total_amout_ati"; "order_id"])
              (Bill.dict bill)).

Definition _insert_recipes : M (list (Value * Z)) :=
  for_gen RandomDataGenerator.recipes (fun _ => ret tt)
    (fun recipe =>
       insert (InsertInto T_recipe ["name"; "description"; "is_public"])
              (Recipe.dict recipe)) ;;;
  rows <- query (SelectFrom ["name"; "id"] T_recipe) [] ;;
  assign (set_recipes (dict_by "name" rows)) ;;;
  attr recipes "recipes".

(** Here the identifiers are read back inside the loop, after each
    insertion. *)
Definition _insert_products : M (list Z) :=
  for_gen RandomDataGenerator.products (fun _ => ret tt)
    (fun product =>
       insert (InsertInto T_product
                 ["name"; "barcode"; "gram_weight"; "unit_price_ati"])
              (Product.dict product) ;;;
       rows <- query (SelectFrom ["id"] T_product) [] ;;
       assign (set_product_ids (ids rows))) ;;;
  attr product_ids "product_ids".

Definition _insert_catalog_items : M (list Z) :=
  recipes <- attr recipes "recipes" ;;
  for_gen (RandomDataGenerator.catalog_items recipes) (fun _ => ret tt)
    (fun item =>
       insert (InsertInto T_catalog_item
                 ["name"; "description"; "picture_file"; "unit_price_ati";
                  "is_available"; "is_displayed"; "recipe_id"; "product_id"])
              (CatalogItem.dict item)) ;;;
  rows <- query (SelectFrom ["id"] T_catalog_item) [] ;;
  assign (set_catalog_item_ids (ids rows)) ;;;
  attr catalog_item_ids "catalog_item_ids".

Definition _update_members_user_account : M unit :=
  user_accounts <- attr user_accounts "user_accounts" ;;
  for_each user_accounts
    (fun item =>
       insert (UpdateSet T_member "user_account_id" "ua_id" "member_id")
              [("member_id", fst item); ("ua_id", VInt (snd item))]).

Definition _update_members_role : M unit :=
  rows <- query (SelectWhereNotNull ["id"] T_member "works_at_pizzeria_id")
                [] ;;
  for_each rows
    (fun r =>
       role_ids <- attr role_ids "role_ids" ;;
       role_id <- liftW (choice role_ids) ;;
       insert (UpdateSet T_member "role_id" "role_id" "member_id")
              [("member_id", VInt (fst r)); ("role_id", VInt role_id)]).

Definition _insert_order_status : M (list Z) :=
  for_gen RandomDataGenerator.order_status (fun _ => ret tt)
    (fun status =>
       insert (InsertInto T_order_status ["label"])
              (OrderStatus.dict status)) ;;;
  rows <- query (SelectFrom ["id"] T_order_status) [] ;;
  assign (set_order_status_ids (ids rows)) ;;;
  attr order_status_ids "order_status_ids".

Definition _insert_keywords : M (list Z) :=
  for_gen RandomDataGenerator.keywords (fun _ => ret tt)
    (fun keyword =>
       insert (InsertInto T_keyword ["name"]) (Keyword.dict keyword)) ;;;
  rows <- query (SelectFrom ["id"] T_keyword) [] ;;
  assign (set_keyword_ids (ids rows)) ;;;
  attr keyword_ids "keyword_ids".

Definition _insert_permissions : M (list Z) :=
  for_gen RandomDataGenerator.permissions (fun _ => ret tt)
    (fun permission =>
       insert (InsertInto T_permission ["label"])
              (Permission.dict permission)) ;;;
  rows <- query (SelectFrom ["id"] T_permission) [] ;;
  assign (set_permission_ids (ids rows)) ;;;
  attr permission_ids "permission_ids".

Definition _insert_roles : M (list Z) :=
  for_gen RandomDataGenerator.roles (fun _ => ret tt)
    (fun role =>
       insert (InsertInto T_role ["name"]) (Role.dict role)) ;;;
  rows <- query (SelectFrom ["id"] T_role) [] ;;
  assign (set_role_ids (ids rows)) ;;;
  attr role_ids "role_ids".

Definition _insert_has_permission_to : M unit :=
  role_ids <- attr role_ids "role_ids" ;;
  permission_ids <- attr permission_ids "permission_ids" ;;
  parameters <-
    liftW (RandomDataGenerator.has_permission_to role_ids permission_ids) ;;
  insert (InsertValues R_has_permission_to ["role_id"; "permission_id"])
         parameters.

Definition _insert_contains_item : M unit :=
  taken_order_ids <- attr taken_order_ids "taken_order_ids" ;;
  catalog_item_ids <- attr catalog_item_ids "catalog_item_ids" ;;
  parameters <-
    liftW (RandomDataGenerator.contains_item taken_order_ids
             catalog_item_ids) ;;
  insert (InsertValues R_contains_item
            ["order_id"; "item_id"; "quantity"; "unit_price_ati"])
         parameters.

Definition _insert_has_product_in_stock : M unit :=
  pizzeria_ids <- attr pizzeria_ids "pizzeria_ids" ;;
  product_ids <- attr product_ids "product_ids" ;;
  parameters <-
    liftW (RandomDataGenerator.has_product_in_stock pizzeria_ids
             product_ids) ;;
  insert (InsertValues R_has_product_in_stock
            ["pizzeria_id"; "product_id"; "quantity"])
         parameters.

Definition _insert_requires_product : M unit :=
  recipes <- attr recipes "recipes" ;;
  product_ids <- attr product_ids "product_ids" ;;
  parameters <-
    liftW (RandomDataGenerator.requires_product (map snd recipes)
             product_ids) ;;
  insert (InsertValues R_requires_product
            ["recipe_id"; "product_id"; "gram_amount"])
         parameters.

Definition _insert_has_keyword : M unit :=
  catalog_item_ids <- attr catalog_item_ids "catalog_item_ids" ;;
  keyword_ids <- attr keyword_ids "keyword_ids" ;;
  parameters <-
    liftW (RandomDataGenerator.has_keyword catalog_item_ids keyword_ids) ;;
  insert (InsertValues R_has_keyword ["item_id"; "keyword_id"]) parameters.

Definition is_integrity_error (e : Exn) : bool :=
  match e with IntegrityError => true | _ => false end.

Definition callbacks : list (M unit) :=
  [_insert_has_permission_to; _insert_contains_item;
   _insert_requires_product; _insert_has_product_in_stock;
   _insert_has_keyword].

Definition _insert_relations_many_to_many : M unit :=
  for_each callbacks
    (fun callback =>
       size <- self_size ;;
       for_each (range size)
         (fun _ => try_pass is_integrity_error callback)).

Definition say (s : string) : M unit := liftW (print (Line s)).

(** The last line of the source also prints the elapsed time. *)
Definition populate : M unit :=
  say "START" ;;;
  say "INSERTING ADDRESS" ;;;
  _insert_addresses ;;;
  say "INSERTING PIZZERIAS" ;;;
  _insert_pizzerias ;;;
  say "INSERTING MEMBERS" ;;;
  _insert_members ;;;
  say "INSERTING USER ACCOUNTS" ;;;
  _insert_user_accounts ;;;
  say "UPDATING MEMBERS USER ACCOUNTS" ;;;
  _update_members_user_account ;;;
  say "INSERTING RECIPES" ;;;
  _insert_recipes ;;;
  say "INSERTING PRODUCTS" ;;;
  _insert_products ;;;
  say "INSERTING CATALOG ITEMS" ;;;
  _insert_catalog_items ;;;
  say "INSERTING ORDER STATUS" ;;;
  _insert_order_status ;;;
  say "INSERTING TAKEN ORDERS" ;;;
  _insert_taken_orders ;;;
  say "INSERTING BILLS" ;;;
  _insert_bills ;;;
  say "INSERTING KEYWORDS" ;;;
  _insert_keywords ;;;
  say "INSERTING PERMISSIONS" ;;;
  _insert_permissions ;;;
  say "INSERTING ROLES" ;;;
  _insert_roles ;;;
  say "UPDATING MEMBERS ROLES" ;;;
  _update_members_role ;;;
  say "POPULATING ASSOCIATIVE ENTITIES" ;;;
  _insert_relations_many_to_many ;;;
  say "END".

End DatabaseFeeder.

(** * Notions used in the statements *)

(** A relation between the state before and the state after that every
    run of a computation satisfies, whatever its outcome. *)
Definition preserves {S A} (R : S -> S -> Prop) (m : Eff S A) : Prop :=
  forall s r s', m s = (r, s') -> R s s'.

(** A frame is a relation between the feeder before and after that is a
    preorder, ignores the world and the identifier attributes, and holds
    across every statement of a given kind. *)
Class Frame (R : DatabaseFeeder.Feeder -> DatabaseFeeder.Feeder -> Prop)
    (allowed : Statement -> Prop) : Prop := {
  frame_refl : forall f, R f f;
  frame_trans : forall a b c, R a b -> R b c -> R a c;
  frame_world : forall f w, R f (DatabaseFeeder.with_world w f);
  frame_pools : forall f p, R f (DatabaseFeeder.with_pools p f);
  frame_query : forall s parameters,
      allowed s -> preserves R (DatabaseFeeder.query s parameters)
}.

(** Running a generator to its end, as [list(generator)] does: the lists as
    the generator left them and the records it yielded. *)
Definition exhaust {S A} (g : Gen S A) : G (S * list A) :=
  started <- g ;;
  yielded <- map_m (fun next => next) (snd started) ;;
  ret (fst started, yielded).

(** The argument lists once the generator has started. *)
Definition lists_after {S A} (g : Gen S A) (w : World) : option S :=
  match fst (g w) with
  | inr started => Some (fst started)
  | inl _ => None
  end.

Definition is_none {A} (o : option A) : bool :=
  match o with None => true | Some _ => false end.

(** A catalog item attached to an entry of the recipes mapping. *)
Definition linked_to (entry : Value * Z) (item : CatalogItem.t) : Prop :=
  CatalogItem.name item = fst entry /\
  CatalogItem.recipe_id item = Some (snd entry) /\
  CatalogItem.product_id item = None.

(** Statements that insert into or read back the keyed table [t]. *)
Definition fills (t : Entity) (s : Statement) : Prop :=
  match s with
  | InsertInto t' _ | SelectFrom _ t' => t' = t
  | _ => False
  end.

(** The update that attaches a user account to a member. *)
Definition links_account (s : Statement) : Prop :=
  s = UpdateSet T_member "user_account_id" "ua_id" "member_id".

(** The statements of the role assignment: the staff members are read,
    then each of them is updated. *)
Definition assigns_role (s : Statement) : Prop :=
  s = SelectWhereNotNull ["id"] T_member "works_at_pizzeria_id" \/
  s = UpdateSet T_member "role_id" "role_id" "member_id".

(** An insertion into an association table. *)
Definition associates (s : Statement) : Prop :=
  match s with InsertValues _ _ => True | _ => False end.

(** The stage refreshes the attribute [get] with what [read] extracts from
    the whole of table [t], a table that the stage has only extended. *)
Definition captures {A B} (stage : DatabaseFeeder.M A) (t : Entity)
    (get : DatabaseFeeder.Pools -> option B) (read : list Row -> B) : Prop :=
  forall f v f',
    stage f = (inr v, f') ->
    get (DatabaseFeeder.pools f')
    = Some (read (rows_of (DatabaseFeeder.db f') t)) /\
    exists inserted,
      rows_of (DatabaseFeeder.db f') t
      = rows_of (DatabaseFeeder.db f) t ++ inserted.

(** Every keyed table has been extended, none rewritten. *)
Definition grows (f f' : DatabaseFeeder.Feeder) : Prop :=
  forall t, exists inserted,
    rows_of (DatabaseFeeder.db f') t
    = rows_of (DatabaseFeeder.db f) t ++ inserted.

Definition not_an_update (s : Statement) : Prop :=
  match s with UpdateSet _ _ _ _ => False | _ => True end.

(** The statements sent between two states all satisfy [K]. *)
Definition sent_only (K : Statement -> Prop)
    (f f' : DatabaseFeeder.Feeder) : Prop :=
  exists sent,
    DatabaseFeeder.journal f' = DatabaseFeeder.journal f ++ sent /\
    Forall K sent.

(** A database without rows, a world, and a feeder as [__init__] builds
    it: no attribute assigned, nothing sent yet. *)
Definition empty_database : Database :=
  mkDatabase (fun _ => []) (fun _ => []).

Definition sample_world : World :=
  mkWorld (fun n => n) (fun _ => "12, rue de la Paix") 0 [].

Definition new_feeder (d : Database) (size : Z) : DatabaseFeeder.Feeder :=
  DatabaseFeeder.mkFeeder d size sample_world (fun _ => false)
    (fun _ => false) []
    DatabaseFeeder.no_pools.

(** A database left by an earlier run: one address, numbered 7. *)
Definition database_with_an_address : Database :=
  set_rows T_address
    [(7%Z, [("street_name", VStr "Rue Haute"); ("home_number", VStr "3");
            ("zip_code", VStr "75001"); ("country", VStr "France")])]
    empty_database.

(** A feeder that knows one member and is asked for two rows. *)
Definition starved_feeder : DatabaseFeeder.Feeder :=
  DatabaseFeeder.with_pools
    (DatabaseFeeder.set_member_ids [1%Z] DatabaseFeeder.no_pools)
    (new_feeder empty_database 2).

(** The records a generator yields when it is run to its end. *)
Definition yielded {S A} (g : Gen S A) (w : World) : option (list A) :=
  match fst (exhaust g w) with
  | inr result => Some (snd result)
  | inl _ => None
  end.

(** The entry a row contributes to a mapping keyed by [column]. *)
Definition entry_of (column : string) (r : Row) : Value * Z :=
  (cell (snd r) column, fst r).

(** A key that differs from each of the earlier ones. *)
Definition fresh_in (k : Value) (earlier : list Value) : bool :=
  forallb (fun k' => negb (value_eqb k k')) earlier.

Fixpoint distinct_after (earlier ks : list Value) : bool :=
  match ks with
  | [] => true
  | k :: rest => fresh_in k earlier && distinct_after (earlier ++ [k]) rest
  end.

(** A catalog_item row attached to an entry of the recipes mapping. *)
Definition joined (entry : Value * Z) (row : Row) : Prop :=
  cell (snd row) "name" = fst entry /\
  cell (snd row) "recipe_id" = VInt (snd entry) /\
  cell (snd row) "product_id" = VNone.

(** The insertion stages that precede the user account update, and those
    that follow it. *)
Definition early_insertion (s : Statement) : Prop :=
  fills T_address s \/ fills T_pizzeria s \/ fills T_member s \/
  fills T_user_account s.

Definition late_insertion (s : Statement) : Prop :=
  fills T_recipe s \/ fills T_product s \/ fills T_catalog_item s \/
  fills T_order_status s \/ fills T_taken_order s \/ fills T_bill s \/
  fills T_keyword s \/ fills T_permission s \/ fills T_role s.

(** What follows the last insertion stage: the role assignment and the
    association tables. *)
Definition closing (s : Statement) : Prop :=
  assigns_role s \/ associates s.

(** One relation after the other. *)
Definition then_rel (R1 R2 : DatabaseFeeder.Feeder ->
                             DatabaseFeeder.Feeder -> Prop)
    (f f' : DatabaseFeeder.Feeder) : Prop :=
  exists between, R1 f between /\ R2 between f'.

(** Late insertions, then closing statements, the latter only once the
    role identifiers have been read back. *)
Definition late_then_closing (f f' : DatabaseFeeder.Feeder) : Prop :=
  exists late final,
    DatabaseFeeder.journal f' = DatabaseFeeder.journal f ++ late ++ final /\
    Forall late_insertion late /\ Forall closing final /\
    (final <> [] -> In (SelectFrom ["id"] T_role) late).

(** The insertions into the association table [rel] among the statements
    [sent]: the attempts made on that relation. *)
Definition targets (rel : Relation) (s : Statement) : bool :=
  match s with
  | InsertValues r _ => Relation_eqb r rel
  | _ => false
  end.

Definition attempts (rel : Relation) (sent : list Statement) : nat :=
  List.length (filter (targets rel) sent).

(** An attribute that holds at least one identifier. *)
Definition filled {A} (o : option (list A)) : Prop :=
  match o with Some (_ :: _) => True | _ => False end.

(** The attributes the association populator draws from are all filled. *)
Definition ready (p : DatabaseFeeder.Pools) : Prop :=
  filled (DatabaseFeeder.role_ids p) /\
  filled (DatabaseFeeder.permission_ids p) /\
  filled (DatabaseFeeder.taken_order_ids p) /\
  filled (DatabaseFeeder.catalog_item_ids p) /\
  filled (DatabaseFeeder.recipes p) /\
  filled (DatabaseFeeder.product_ids p) /\
  filled (DatabaseFeeder.pizzeria_ids p) /\
  filled (DatabaseFeeder.keyword_ids p).

(** What a run of association attempts does: it sends [sent], never ends
    on an integrity error, adds to a table at most one row per attempt on
    it, ends on the gateway's error as soon as the gateway fails, and
    completes when the gateway does not fail and the attributes are
    filled. *)
Definition tried (f : DatabaseFeeder.Feeder) (r : Exn + unit)
    (f' : DatabaseFeeder.Feeder) (sent : list Statement) : Prop :=
  DatabaseFeeder.pools f' = DatabaseFeeder.pools f /\
  DatabaseFeeder.fault f' = DatabaseFeeder.fault f /\
  DatabaseFeeder.size f' = DatabaseFeeder.size f /\
  DatabaseFeeder.journal f' = DatabaseFeeder.journal f ++ sent /\
  Forall associates sent /\
  r <> inl IntegrityError /\
  (forall rel,
     List.length (links_of (DatabaseFeeder.db f') rel)
     <= List.length (links_of (DatabaseFeeder.db f) rel)
        + attempts rel sent) /\
  (forall i,
     i < List.length sent ->
     DatabaseFeeder.fault f (List.length (DatabaseFeeder.journal f) + i)
     = true ->
     r = inl OperationalError) /\
  (ready (DatabaseFeeder.pools f) ->
   (forall i,
      List.length (DatabaseFeeder.journal f) <= i ->
      DatabaseFeeder.fault f i = false) ->
   r = inr tt).

(** What a sequence of loops over the relations [rels] does when each loop
    makes [Z.to_nat size] attempts on its relation. *)
Definition tried_each (rels : list Relation) (f : DatabaseFeeder.Feeder)
    (r : Exn + unit) (f' : DatabaseFeeder.Feeder) : Prop :=
  exists sent,
    tried f r f' sent /\
    (forall rel,
       attempts rel sent
       <= if existsb (Relation_eqb rel) rels
          then Z.to_nat (DatabaseFeeder.size f) else 0) /\
    (r = inr tt ->
     forall rel,
       existsb (Relation_eqb rel) rels = true ->
       attempts rel sent = Z.to_nat (DatabaseFeeder.size f)).

(** The five relations, in the order of the callbacks. *)
Definition relations : list Relation :=
  [R_has_permission_to; R_contains_item; R_requires_product;
   R_has_product_in_stock; R_has_keyword].

(** What one attempt under [try] does, for the callback of a relation:
    it sends the relation's insertion once, unless an attribute or a draw
    failed before. *)
Definition attempt_on (rel : Relation) (names : list string)
    (callback : DatabaseFeeder.M unit) : Prop :=
  forall f r f',
    try_pass DatabaseFeeder.is_integrity_error callback f = (r, f') ->
    exists k,
      k <= 1 /\ (r = inr tt -> k = 1) /\
      tried f r f' (repeat (InsertValues rel names) k).

(** A world whose random source always draws 0: every sampled pair is the
    same, so every attempt after the first collides. *)
Definition constant_world : World :=
  mkWorld (fun _ => 0) (fun _ => "8, rue Basse") 0 [].

Definition colliding_feeder : DatabaseFeeder.Feeder :=
  DatabaseFeeder.mkFeeder empty_database 3 constant_world (fun _ => false)
    (fun _ => false) []
    DatabaseFeeder.no_pools.

(** A member row of a staff member: its pizzeria column is not NULL. *)
Definition staff (r : Row) : bool :=
  negb (is_null (cell (snd r) "works_at_pizzeria_id")).

Definition role_of (r : Row) : Value := cell (snd r) "role_id".




(** Two members, the first one on the staff of pizzeria 4, and the roles
    1 and 2. *)
Definition two_members : Database :=
  set_rows T_member
    [(1%Z, [("name", VStr "Petit"); ("works_at_pizzeria_id", VInt 4)]);
     (2%Z, [("name", VStr "Roux"); ("works_at_pizzeria_id", VNone)])]
    empty_database.

Definition feeder_with_roles : DatabaseFeeder.Feeder :=
  DatabaseFeeder.with_pools
    (DatabaseFeeder.set_role_ids [1%Z; 2%Z] DatabaseFeeder.no_pools)
    (new_feeder two_members 2).

(** Two member rows with the same identifier, staff affiliation and role. *)
Definition same_standing (before after : Row) : Prop :=
  fst after = fst before /\ staff after = staff before /\
  role_of after = role_of before.

(** Between two states the member table kept its primary key unique and
    kept the standing of its rows, up to rows created without a role. *)
Definition kept (f f' : DatabaseFeeder.Feeder) : Prop :=
  (NoDup (DatabaseFeeder.ids (rows_of (DatabaseFeeder.db f) T_member)) ->
   NoDup (DatabaseFeeder.ids (rows_of (DatabaseFeeder.db f') T_member))) /\
  exists created,
    Forall (fun r => role_of r = VNone) created /\
    Forall2 same_standing
            (rows_of (DatabaseFeeder.db f) T_member ++ created)
            (rows_of (DatabaseFeeder.db f') T_member).

(** The statements that neither give a role nor change an affiliation. *)
Definition keeps_standing (s : Statement) : Prop :=
  match s with
  | InsertInto T_member columns => ~ In "role_id" columns
  | UpdateSet T_member column _ _ =>
      column <> "role_id" /\ column <> "works_at_pizzeria_id"
  | _ => True
  end.

(** No keyed table has changed. *)
Definition same_rows (f f' : DatabaseFeeder.Feeder) : Prop :=
  forall t,
    rows_of (DatabaseFeeder.db f') t = rows_of (DatabaseFeeder.db f) t.

(** The end of [populate], from the roles stage on. *)
Definition closing_stages : DatabaseFeeder.M unit :=
  (DatabaseFeeder._insert_roles ;;;
   DatabaseFeeder.say "UPDATING MEMBERS ROLES" ;;;
   DatabaseFeeder._update_members_role ;;;
   DatabaseFeeder.say "POPULATING ASSOCIATIVE ENTITIES" ;;;
   DatabaseFeeder._insert_relations_many_to_many ;;;
   DatabaseFeeder.say "END")%eff.



(** The role table has not changed. *)
Definition same_roles (f f' : DatabaseFeeder.Feeder) : Prop :=
  rows_of (DatabaseFeeder.db f') T_role
  = rows_of (DatabaseFeeder.db f) T_role.

Definition spares_roles (s : Statement) : Prop :=
  match s with
  | InsertInto T_role _ | UpdateSet T_role _ _ _ => False
  | _ => True
  end.

(** A first phase of statements satisfying [K], then what [R2] allows, the
    latter sending something only once [mark] was sent in the first
    phase. *)
Definition after_mark (K : Statement -> Prop) (mark : Statement)
    (R2 : DatabaseFeeder.Feeder -> DatabaseFeeder.Feeder -> Prop)
    (f f' : DatabaseFeeder.Feeder) : Prop :=
  exists between sent,
    DatabaseFeeder.journal between = DatabaseFeeder.journal f ++ sent /\
    Forall K sent /\ R2 between f' /\
    (DatabaseFeeder.journal f' <> DatabaseFeeder.journal between ->
     In mark sent).

(** A text made of digits only. *)
Fixpoint digits_only (s : string) : bool :=
  match s with
  | EmptyString => true
  | String c rest => is_digit c && digits_only rest
  end.

(** What [pad_phone] leaves: digits, and a leading zero when there are
    fewer than ten of them. *)
Definition phone_shaped (phone : string) : Prop :=
  digits_only phone = true /\
  (String.length phone < 10 -> exists rest, phone = String digit_zero rest).

(** An integer parameter of a statement, within bounds. *)
Definition int_between (lo hi : Z) (v : Value) : Prop :=
  exists n, v = VInt n /\ (lo <= n <= hi)%Z.

(** An integer parameter of a statement, taken from a list. *)
Definition int_among (l : list Z) (v : Value) : Prop :=
  exists n, v = VInt n /\ In n l.

(** The outcome of a computation, whatever state it leaves. *)
Definition outcome {S A} (m : Eff S A) (s : S) : Exn + A := fst (m s).

(** The statements [populate] sends, of any stage. *)
Definition sent_by_populate (s : Statement) : Prop :=
  early_insertion s \/ links_account s \/ late_insertion s \/ closing s.

(** The statements that rewrite no row outside the member table. *)
Definition rewrites_members_only (s : Statement) : Prop :=
  match s with
  | UpdateSet t _ _ _ => t = T_member
  | _ => True
  end.

(** Nothing was lost between two databases: every keyed table kept its
    identifiers and got more at its end, every keyed table but [member]
    kept its rows as they were, and so did every association table. *)
Definition nothing_lost (d d' : Database) : Prop :=
  (forall t, exists inserted,
      DatabaseFeeder.ids (rows_of d' t)
      = DatabaseFeeder.ids (rows_of d t) ++ inserted) /\
  (forall t, t <> T_member ->
             exists inserted, rows_of d' t = rows_of d t ++ inserted) /\
  (forall r, exists inserted, links_of d' r = links_of d r ++ inserted).

Definition only_added (f f' : DatabaseFeeder.Feeder) : Prop :=
  nothing_lost (DatabaseFeeder.db f) (DatabaseFeeder.db f').

(** How the account update changes a member row, given the mapping it
    walks: only the account column changes, a member that is a key of the
    mapping gets an account stored under its key, the row of another member
    is left as it was. *)
Definition account_given (accounts : list (Value * Z)) (before after : Row)
    : Prop :=
  fst after = fst before /\
  (forall c, c <> "user_account_id" ->
             cell (snd after) c = cell (snd before) c) /\
  (In (VInt (fst before)) (map fst accounts) ->
   exists account,
     In (VInt (fst before), account) accounts /\
     cell (snd after) "user_account_id" = VInt account) /\
  (~ In (VInt (fst before)) (map fst accounts) -> after = before).

(** A gateway that fails on none of the statements still to come, and a
    database that rejects none of them. *)
Definition quiet (f : DatabaseFeeder.Feeder) : Prop :=
  (forall i,
      List.length (DatabaseFeeder.journal f) <= i ->
      DatabaseFeeder.fault f i = false) /\
  (forall i,
      List.length (DatabaseFeeder.journal f) <= i ->
      DatabaseFeeder.violation f i = false).

(** The two oracles of the gateway are the same. *)
Definition same_gateway (f f' : DatabaseFeeder.Feeder) : Prop :=
  DatabaseFeeder.fault f' = DatabaseFeeder.fault f /\
  DatabaseFeeder.violation f' = DatabaseFeeder.violation f.

(** The computation completes from [f], with a result and a state that
    satisfy [post]. *)
Definition runs {A} (m : DatabaseFeeder.M A) (f : DatabaseFeeder.Feeder)
    (post : A -> DatabaseFeeder.Feeder -> Prop) : Prop :=
  exists a f', m f = (inr a, f') /\ post a f'.

(** [n] rows for the table [t], none for the others. *)
Definition rows_for (t : Entity) (n : nat) (t' : Entity) : nat :=
  if Entity_eqb t t' then n else 0.

(** Between two states each keyed table has gained the number of rows
    [tally] gives it, after the rows it had: their identifiers are kept
    and, outside the member table, the rows themselves; statements were
    sent, and the batch size and the gateway are the same. *)
Definition grown (tally : Entity -> nat) (f f' : DatabaseFeeder.Feeder)
    : Prop :=
  (DatabaseFeeder.fault f' = DatabaseFeeder.fault f /\
   DatabaseFeeder.violation f' = DatabaseFeeder.violation f) /\
  DatabaseFeeder.size f' = DatabaseFeeder.size f /\
  (exists sent,
      DatabaseFeeder.journal f' = DatabaseFeeder.journal f ++ sent) /\
  forall t, exists inserted,
    List.length inserted = tally t /\
    DatabaseFeeder.ids (rows_of (DatabaseFeeder.db f') t)
    = DatabaseFeeder.ids (rows_of (DatabaseFeeder.db f) t)
      ++ DatabaseFeeder.ids inserted /\
    (t <> T_member ->
     rows_of (DatabaseFeeder.db f') t
     = rows_of (DatabaseFeeder.db f) t ++ inserted).

(** The rows a complete run adds to each table, for a batch of [n] and a
    recipes mapping of [items] entries. *)
Definition rows_added (n items : nat) (t : Entity) : nat :=
  match t with
  | T_address | T_member | T_user_account | T_taken_order | T_bill => n
  | T_pizzeria | T_permission | T_role => 5
  | T_recipe => 23
  | T_product | T_keyword => 35
  | T_catalog_item => items
  | T_order_status => 4
  end.

(** The stages of [populate] that follow the recipes. *)
Definition later_stages : DatabaseFeeder.M unit :=
  (DatabaseFeeder.say "INSERTING PRODUCTS" ;;;
   DatabaseFeeder._insert_products ;;;
   DatabaseFeeder.say "INSERTING CATALOG ITEMS" ;;;
   DatabaseFeeder._insert_catalog_items ;;;
   DatabaseFeeder.say "INSERTING ORDER STATUS" ;;;
   DatabaseFeeder._insert_order_status ;;;
   DatabaseFeeder.say "INSERTING TAKEN ORDERS" ;;;
   DatabaseFeeder._insert_taken_orders ;;;
   DatabaseFeeder.say "INSERTING BILLS" ;;;
   DatabaseFeeder._insert_bills ;;;
   DatabaseFeeder.say "INSERTING KEYWORDS" ;;;
   DatabaseFeeder._insert_keywords ;;;
   DatabaseFeeder.say "INSERTING PERMISSIONS" ;;;
   DatabaseFeeder._insert_permissions ;;;
   DatabaseFeeder.say "INSERTING ROLES" ;;;
   closing_stages)%eff.

(** The tables filled before [later_stages]. *)
Definition filled_early (t : Entity) : bool :=
  match t with
  | T_address | T_pizzeria | T_member | T_user_account | T_recipe => true
  | _ => false
  end.



(** The keyed table [t] has not changed. *)
Definition table_kept (t : Entity) (f f' : DatabaseFeeder.Feeder) : Prop :=
  rows_of (DatabaseFeeder.db f') t = rows_of (DatabaseFeeder.db f) t.

(** The statements that write nothing into the table [t]. *)
Definition spares (t : Entity) (s : Statement) : Prop :=
  match s with
  | InsertInto t' _ | UpdateSet t' _ _ _ => t' <> t
  | _ => True
  end.

(** A member row after the account stages: it is as before, or its account
    is a row of the account table that names this member. *)
Definition account_of_member (accounts : list Row) (before after : Row)
    : Prop :=
  fst after = fst before /\
  (forall c, c <> "user_account_id" ->
             cell (snd after) c = cell (snd before) c) /\
  (after = before \/
   exists account,
     In account accounts /\
     cell (snd account) "member_id" = VInt (fst before) /\
     cell (snd after) "user_account_id" = VInt (fst account)).

(** The account stages, as [populate] chains them. *)
Definition account_stages : DatabaseFeeder.M unit :=
  (DatabaseFeeder._insert_user_accounts ;;;
   DatabaseFeeder.say "UPDATING MEMBERS USER ACCOUNTS" ;;;
   DatabaseFeeder._update_members_user_account)%eff.

(** Between two worlds, and between two states of the feeder, nothing was
    printed. *)
Definition nothing_printed (w w' : World) : Prop := out w' = out w.

Definition hushed (f f' : DatabaseFeeder.Feeder) : Prop :=
  out (DatabaseFeeder.world f') = out (DatabaseFeeder.world f).

(** A generator that prints nothing when it starts, and whose yields
    print nothing. *)
Definition silent_gen {S A} (g : Gen S A) : Prop :=
  forall w s nexts w',
    g w = (inr (s, nexts), w') ->
    nothing_printed w w' /\ Forall (preserves nothing_printed) nexts.

(** A computation of the feeder that, when it completes, has printed the
    given lines and nothing else. *)
Definition prints {A} (lines : list Printed) (m : DatabaseFeeder.M A)
    : Prop :=
  forall f a f',
    m f = (inr a, f') ->
    out (DatabaseFeeder.world f') = out (DatabaseFeeder.world f) ++ lines.

(** The lines of [populate], in the order of the source; the last one
    stands for the line that also tells the elapsed time. *)
Definition progress_lines : list Printed :=
  map Line
    ["START"; "INSERTING ADDRESS"; "INSERTING PIZZERIAS";
     "INSERTING MEMBERS"; "INSERTING USER ACCOUNTS";
     "UPDATING MEMBERS USER ACCOUNTS"; "INSERTING RECIPES";
     "INSERTING PRODUCTS"; "INSERTING CATALOG ITEMS";
     "INSERTING ORDER STATUS"; "INSERTING TAKEN ORDERS"; "INSERTING BILLS";
     "INSERTING KEYWORDS"; "INSERTING PERMISSIONS"; "INSERTING ROLES";
     "UPDATING MEMBERS ROLES"; "POPULATING ASSOCIATIVE ENTITIES"; "END"].

(** The two statements the products stage sends for each product. *)
Definition product_statements : list Statement :=
  [InsertInto T_product
     ["name"; "barcode"; "gram_weight"; "unit_price_ati"];
   SelectFrom ["id"] T_product].

(** The stage refreshes the list [get] with one entry per row of the whole
    of table [t], a table that the stage has only extended: the entries of
    the rows that were there, then those of the rows inserted.  The list
    is that of the inserted rows alone exactly when the table was empty. *)
Definition captures_list {A B} (stage : DatabaseFeeder.M A) (t : Entity)
    (get : DatabaseFeeder.Pools -> option (list B)) (entry : Row -> B)
    : Prop :=
  forall f v f',
    stage f = (inr v, f') ->
    exists inserted,
      rows_of (DatabaseFeeder.db f') t
      = rows_of (DatabaseFeeder.db f) t ++ inserted /\
      get (DatabaseFeeder.pools f')
      = Some (map entry (rows_of (DatabaseFeeder.db f) t)
              ++ map entry inserted) /\
      (get (DatabaseFeeder.pools f') = Some (map entry inserted) <->
       rows_of (DatabaseFeeder.db f) t = []).

(** The stage refreshes the mapping [get] with the mapping keyed by
    [column] of the whole of table [t]: of the rows that were there, then
    of the rows inserted, a later row taking the place of an earlier one
    under the same key.  On a table that was empty it is the mapping of
    the inserted rows. *)
Definition captures_mapping {A} (stage : DatabaseFeeder.M A) (t : Entity)
    (get : DatabaseFeeder.Pools -> option (list (Value * Z)))
    (column : string) : Prop :=
  forall f v f',
    stage f = (inr v, f') ->
    exists inserted,
      rows_of (DatabaseFeeder.db f') t
      = rows_of (DatabaseFeeder.db f) t ++ inserted /\
      get (DatabaseFeeder.pools f')
      = Some (DatabaseFeeder.dict_by column
                (rows_of (DatabaseFeeder.db f) t ++ inserted)) /\
      (rows_of (DatabaseFeeder.db f) t = [] ->
       get (DatabaseFeeder.pools f')
       = Some (DatabaseFeeder.dict_by column inserted)).

(** A feeder that holds one identifier of each kind, on a database that
    rejects every write for a constraint other than the uniqueness of a
    key; its tables are empty, so that no key can be taken twice. *)
Definition rejecting_feeder : DatabaseFeeder.Feeder :=
  DatabaseFeeder.mkFeeder empty_database 2 sample_world
    (fun _ => false) (fun _ => true) []
    (DatabaseFeeder.mkPools None None (Some [1%Z]) None
       (Some [(VStr "Lasagne", 1%Z)]) (Some [1%Z]) (Some [1%Z]) None
       (Some [1%Z]) (Some [1%Z]) (Some [1%Z]) (Some [1%Z])).

(** A text of the ASCII range, the range in which the character classes
    of the embedding are those of the source. *)
Definition ascii_only (s : string) : bool :=
  forallb (fun c => Nat.ltb (nat_of_ascii c) 128) (list_ascii_of_string s).

(** * Properties *)

(** ** The effect monad *)

Lemma bind_ok {S A B} (m : Eff S A) (k : A -> Eff S B) s b s' :
  bind m k s = (inr b, s') ->
  exists a s1, m s = (inr a, s1) /\ k a s1 = (inr b, s').
Proof.
  unfold bind. destruct (m s) as [[e | a] s1]; intros H.
  - discriminate.
  - now exists a, s1.
Qed.

Lemma bind_run {S A B} (m : Eff S A) (k : A -> Eff S B) s r s' :
  bind m k s = (r, s') ->
  (exists e, m s = (inl e, s') /\ r = inl e) \/
  (exists a s1, m s = (inr a, s1) /\ k a s1 = (r, s')).
Proof.
  unfold bind. destruct (m s) as [[e | a] s1]; intros H.
  - left. exists e. now inversion H.
  - right. now exists a, s1.
Qed.

Lemma bind_step {S A B} (m : Eff S A) (k : A -> Eff S B) s a s1 :
  m s = (inr a, s1) -> bind m k s = k a s1.
Proof. unfold bind. now intros ->. Qed.

Lemma bind_fail {S A B} (m : Eff S A) (k : A -> Eff S B) s e s1 :
  m s = (inl e, s1) -> bind m k s = (inl e, s1).
Proof. unfold bind. now intros ->. Qed.

Section Preserves.
Context {S : Type} (R : S -> S -> Prop).
Hypothesis R_refl : forall s, R s s.
Hypothesis R_trans : forall a b c, R a b -> R b c -> R a c.

Lemma preserves_ret {A} (a : A) : preserves R (ret a).
Proof. intros s r s' H. inversion H. apply R_refl. Qed.

Lemma preserves_raise {A} e : preserves R (@raise S A e).
Proof. intros s r s' H. inversion H. apply R_refl. Qed.

Lemma preserves_bind {A B} (m : Eff S A) (k : A -> Eff S B) :
  preserves R m -> (forall a, preserves R (k a)) -> preserves R (bind m k).
Proof.
  intros Hm Hk s r s' H.
  destruct (bind_run _ _ _ _ _ H) as [(e & Hs & _) | (a & s1 & Hs & Hr)].
  - eapply Hm; eauto.
  - eapply R_trans; [eapply Hm | eapply Hk]; eauto.
Qed.

Lemma preserves_for_each {A} (xs : list A) (body : A -> Eff S unit) :
  (forall x, In x xs -> preserves R (body x)) ->
  preserves R (for_each xs body).
Proof.
  induction xs as [| x xs IH]; intros Hb; simpl.
  - apply preserves_ret.
  - apply preserves_bind.
    + apply Hb. now left.
    + intros _. apply IH. intros y Hy. apply Hb. now right.
Qed.

Lemma preserves_try_pass catches (m : Eff S unit) :
  preserves R m -> preserves R (try_pass catches m).
Proof.
  intros Hm s r s' H. unfold try_pass in H.
  destruct (m s) as [[e | []] s1] eqn:E.
  - destruct (catches e); inversion H; subst; eapply Hm; eauto.
  - inversion H; subst. eapply Hm; eauto.
Qed.
End Preserves.

(** ** Text *)


(** ** [random] *)

Lemma randbelow_run n w :
  randbelow n w = (inr (rand w (cursor w) mod n), advance w).
Proof. reflexivity. Qed.

Lemma choice_run {A} (a : A) (l : list A) w :
  choice (a :: l) w
  = (inr (nth (rand w (cursor w) mod S (List.length l)) (a :: l) a),
     advance w).
Proof. reflexivity. Qed.


Lemma choice_total {A} (a : A) (l : list A) w :
  exists x, choice (a :: l) w = (inr x, advance w) /\ In x (a :: l).
Proof.
  eexists. split; [apply choice_run |].
  apply nth_In. apply Nat.mod_upper_bound. discriminate.
Qed.

Lemma set_nth_length {A} i (a : A) l :
  List.length (set_nth i a l) = List.length l.
Proof.
  revert i. induction l as [| x l IH]; intros [| i]; simpl; auto.
Qed.

Lemma set_nth_perm {A} j (x b : A) l :
  nth_error l j = Some b ->
  Permutation (b :: set_nth j x l) (x :: l).
Proof.
  revert j. induction l as [| y l IH]; intros [| j] H; simpl in *;
    try discriminate.
  - inversion H; subst. apply perm_swap.
  - eapply perm_trans; [apply perm_swap |].
    eapply perm_trans; [apply perm_skip, IH, H |].
    apply perm_swap.
Qed.

Lemma set_nth_same {A} i (a : A) l :
  nth_error l i = Some a -> set_nth i a l = l.
Proof.
  revert i. induction l as [| x l IH]; intros [| i] H; simpl in *;
    try discriminate; auto.
  - now inversion H.
  - f_equal. auto.
Qed.

Lemma swap_perm {A} i j (l : list A) : Permutation (swap i j l) l.
Proof.
  unfold swap. revert i j.
  induction l as [| x l IH]; intros i j.
  - destruct i, j; simpl; auto.
  - destruct i as [| i], j as [| j]; simpl.
    + apply Permutation_refl.
    + destruct (nth_error l j) as [b |] eqn:E; [| apply Permutation_refl].
      now apply set_nth_perm.
    + destruct (nth_error l i) as [a |] eqn:E; [| apply Permutation_refl].
      now apply set_nth_perm.
    + specialize (IH i j).
      destruct (nth_error l i) as [a |]; [| apply Permutation_refl].
      destruct (nth_error l j) as [b |]; [| apply Permutation_refl].
      now apply perm_skip.
Qed.

Lemma shuffle_from_perm {A} i (x : list A) w :
  exists x' w', shuffle_from i x w = (inr x', w') /\ Permutation x x'
                /\ out w' = out w.
Proof.
  revert x w. induction i as [| i IH]; intros x w.
  - exists x, w. repeat split. apply Permutation_refl.
  - cbn [shuffle_from].
    rewrite (bind_step _ _ _ _ _ (randbelow_run _ w)).
    destruct (IH (swap (S i) (rand w (cursor w) mod S (S i)) x) (advance w))
      as (x' & w' & Hrun & Hperm & Hout).
    exists x', w'. repeat split; auto.
    eapply perm_trans; [apply Permutation_sym, swap_perm | exact Hperm].
Qed.

Lemma shuffle_perm {A} (x : list A) w :
  exists x' w', shuffle x w = (inr x', w') /\ Permutation x x'
                /\ out w' = out w.
Proof. apply shuffle_from_perm. Qed.

(** ** Generators run to their end *)

Lemma map_m_total {A B} (f : B -> G A) (P : B -> A -> Prop) xs :
  (forall b w, In b xs -> exists a w', f b w = (inr a, w') /\ P b a) ->
  forall w, exists l w',
    map_m (fun next => next) (map f xs) w = (inr l, w') /\ Forall2 P xs l.
Proof.
  induction xs as [| b xs IH]; intros Hf w; simpl.
  - exists [], w. split; [reflexivity | constructor].
  - destruct (Hf b w (or_introl eq_refl)) as (a & w1 & Ha & HP).
    destruct (IH (fun b w H => Hf b w (or_intror H)) w1)
      as (l & w2 & Hl & HF).
    exists (a :: l), w2. split; [| now constructor].
    rewrite (bind_step _ _ _ _ _ Ha), (bind_step _ _ _ _ _ Hl). reflexivity.
Qed.

Lemma exhaust_ready {S A B} (s : S) (f : B -> G A) (P : B -> A -> Prop)
    xs w :
  (forall b w, In b xs -> exists a w', f b w = (inr a, w') /\ P b a) ->
  exists l w',
    exhaust (ret (s, map f xs)) w = (inr (s, l), w') /\ Forall2 P xs l.
Proof.
  intros Hf. destruct (map_m_total f P xs Hf w) as (l & w' & Hl & HF).
  exists l, w'. split; auto.
  unfold exhaust. rewrite (bind_step _ _ _ (s, map f xs) w eq_refl).
  cbn [fst snd]. now rewrite (bind_step _ _ _ _ _ Hl).
Qed.


Lemma Forall2_map_eq {A B C} (g : A -> C) (h : B -> C) xs l :
  Forall2 (fun b a => g a = h b) xs l -> map g l = map h xs.
Proof. induction 1; simpl; congruence. Qed.


(** ** The fake constructors never fail, except [FakeCatalogItem] *)

Lemma FakeAddress_run w :
  let street := first_line (fake w (cursor w)) in
  FakeAddress w =
    match match_number_street street with
    | Some (number, rest) =>
        (inr (Address.mk (title (lstrip rest)) number
                (remove_spaces (fake w (S (cursor w)))) "France"),
         advance (advance w))
    | None =>
        (inr (Address.mk (rstrip street) (fake w (S (cursor w)))
                (remove_spaces (fake w (S (S (cursor w))))) "France"),
         advance (advance (advance w)))
    end.
Proof.
  unfold FakeAddress, address, building_number, postcode.
  cbv [bind text ret].
  destruct (match_number_street _) as [[number rest] |]; reflexivity.
Qed.

Lemma FakeRecipe_run name w :
  exists description is_public w',
    FakeRecipe name w = (inr (Recipe.mk name description is_public), w').
Proof.
  unfold FakeRecipe, paragraphs. cbv [bind text ret].
  rewrite choice_run. eauto.
Qed.

Lemma FakeProduct_run name w :
  exists barcode weight price w',
    FakeProduct name w = (inr (Product.mk name barcode weight price), w').
Proof.
  unfold FakeProduct, ean13, randint, pyfloat.
  cbv [bind text draw ret randbelow]. eauto.
Qed.

Lemma FakePizzeria_run name address_id w :
  exists phone_nb w',
    FakePizzeria name address_id w
    = (inr (Pizzeria.mk name phone_nb address_id), w').
Proof. unfold FakePizzeria, phone_number. cbv [bind text ret]. eauto. Qed.

Lemma FakeCatalogItem_run name parent parent_id w :
  exists description picture_file price is_available is_displayed w',
    FakeCatalogItem name parent parent_id w =
      ((if String.eqb parent "recipe" then
          inr (CatalogItem.mk name description picture_file price
                 is_available is_displayed (Some parent_id) None)
        else if String.eqb parent "product" then
          inr (CatalogItem.mk name description picture_file price
                 is_available is_displayed None (Some parent_id))
        else inl (AttributeError "Unknown parent")), w').
Proof.
  unfold FakeCatalogItem, sentences, paragraphs, file_name, pyfloat.
  do 6 eexists.
  cbv [bind text draw ret raise].
  rewrite !choice_run.
  destruct (String.eqb parent "recipe"); [reflexivity |].
  destruct (String.eqb parent "product"); reflexivity.
Qed.

(** C7: constructing a catalog item raises an error exactly when the parent
    kind is neither 'recipe' nor 'product', that error is the unknown-parent
    AttributeError, and a constructed item has exactly one of [recipe_id]
    and [product_id] set: the one named by the parent kind, holding the
    parent's identifier. *)
Theorem FakeCatalogItem_parent_kind name parent parent_id w :
  let r := fst (FakeCatalogItem name parent parent_id w) in
  ((exists e, r = inl e) <-> (parent <> "recipe" /\ parent <> "product")) /\
  (forall e, r = inl e -> e = AttributeError "Unknown parent") /\
  (forall item, r = inr item ->
     is_none (CatalogItem.recipe_id item)
     = negb (is_none (CatalogItem.product_id item)) /\
     (parent = "recipe" -> CatalogItem.recipe_id item = Some parent_id) /\
     (parent = "product" -> CatalogItem.product_id item = Some parent_id)).
Proof.
  destruct (FakeCatalogItem_run name parent parent_id w)
    as (d & p & pr & av & di & w' & ->).
  cbn [fst].
  destruct (String.eqb_spec parent "recipe") as [-> | Hr];
    [| destruct (String.eqb_spec parent "product") as [-> | Hp]].
  - split; [split | split].
    + intros [e He]. discriminate.
    + intros [H _]. now contradiction H.
    + intros e He. discriminate.
    + intros item [= <-]. cbn. repeat split; auto. discriminate.
  - split; [split | split].
    + intros [e He]. discriminate.
    + intros [_ H]. now contradiction H.
    + intros e He. discriminate.
    + intros item [= <-]. cbn. repeat split; auto. discriminate.
  - split; [split | split].
    + auto.
    + eauto.
    + intros e [= <-]. reflexivity.
    + discriminate.
Qed.


Lemma exhaust_bind_step {S A B} (m : G B) (k : B -> Gen S A) w x w1 :
  m w = (inr x, w1) -> exhaust (bind m k) w = exhaust (k x) w1.
Proof. intros H. unfold exhaust, bind. now rewrite H. Qed.

Lemma shuffle_inv {A} (x : list A) w r w' :
  shuffle x w = (r, w') ->
  exists x', r = inr x' /\ Permutation x x' /\ out w' = out w.
Proof.
  destruct (shuffle_perm x w) as (x' & w1 & -> & Hp & Ho).
  intros [= <- <-]. eauto.
Qed.

Lemma filter_length_perm {A} (f : A -> bool) l l' :
  Permutation l l' ->
  List.length (filter f l) = List.length (filter f l').
Proof.
  induction 1 as [| x l l' _ IH | x y l | l l' l'' _ IH1 _ IH2]; simpl.
  - reflexivity.
  - destruct (f x); simpl; congruence.
  - destruct (f x), (f y); reflexivity.
  - congruence.
Qed.

Lemma filter_length_split {A} (f : A -> bool) l :
  List.length (filter f l) + List.length (filter (fun x => negb (f x)) l)
  = List.length l.
Proof.
  induction l as [| x l IH]; simpl; auto.
  destruct (f x); simpl; lia.
Qed.

Lemma filter_length_firstn {A} (f : A -> bool) n l :
  List.length (filter f (firstn n l)) <= List.length (filter f l).
Proof.
  revert n. induction l as [| x l IH]; intros [| n]; simpl; try lia.
  specialize (IH n). destruct (f x); simpl; lia.
Qed.

Lemma In_firstn {A} (x : A) n l : In x (firstn n l) -> In x l.
Proof.
  revert n. induction l as [| y l IH]; intros [| n]; simpl; auto.
  - intros [].
  - intros [H | H]; eauto.
Qed.

Lemma filter_length_le {A} (f : A -> bool) l :
  List.length (filter f l) <= List.length l.
Proof. induction l as [| x l IH]; simpl; auto. destruct (f x); simpl; lia. Qed.

Lemma filter_repeat_none n :
  filter (fun x : option Z => negb (is_none x)) (repeat None n) = [].
Proof. induction n; simpl; auto. Qed.

(** The five stores, given a list that holds five entries or more. *)
Lemma pizzerias_yield ids w :
  5 <= List.length ids ->
  exists l w',
    exhaust (ret (ids,
                  map (fun i_name : nat * string =>
                         address_id <- index ids (fst i_name) ;;
                         FakePizzeria (snd i_name) address_id)
                      (RandomDataGenerator.enumerate RandomDataGenerator.pizzeria_names))) w
    = (inr (ids, l), w') /\
    map Pizzeria.name l = RandomDataGenerator.pizzeria_names /\
    map Pizzeria.address_id l = firstn 5 ids.
Proof.
  intros Hlen.
  destruct (exhaust_ready ids
              (fun i_name : nat * string =>
                 address_id <- index ids (fst i_name) ;;
                 FakePizzeria (snd i_name) address_id)
              (fun i_name p =>
                 Pizzeria.name p = snd i_name /\
                 nth_error ids (fst i_name) = Some (Pizzeria.address_id p))
              (RandomDataGenerator.enumerate RandomDataGenerator.pizzeria_names) w)
    as (l & w' & Hrun & HF).
  { intros [i name] w0 Hin. cbn [fst snd].
    assert (Hi : i < 5).
    { apply in_combine_l in Hin. apply in_seq in Hin. cbn in Hin. lia. }
    destruct (nth_error ids i) as [a |] eqn:E.
    - destruct (FakePizzeria_run name a w0) as (phone & w1 & Hp).
      exists (Pizzeria.mk name phone a), w1. split; [| split; auto].
      unfold index. rewrite E.
      now rewrite (bind_step _ _ _ a w0 eq_refl).
    - apply nth_error_None in E. lia. }
  exists l, w'. split; [exact Hrun |].
  cbn in HF.
  repeat match goal with
         | H : Forall2 _ (_ :: _) _ |- _ => inversion H; clear H; subst
         | H : Forall2 _ [] _ |- _ => inversion H; clear H; subst
         end.
  cbn [fst snd] in *.
  repeat match goal with H : _ /\ _ |- _ => destruct H end.
  split.
  - unfold RandomDataGenerator.pizzeria_names. cbn [map]. congruence.
  - do 5 (destruct ids as [| ? ids]; [cbn in Hlen; lia |]).
    cbn in *. congruence.
Qed.

(** C10: whatever list of address identifiers it is given -- short or empty
    included -- the pizzerias generator runs to its end without an error and
    yields exactly five records, one per store name in order; at least as
    many of them as addresses are missing to reach five carry no address,
    and an address a store does carry is one of the given list. *)
Theorem pizzerias_always_five (address_ids : list (option Z)) (w : World) :
  exists address_ids' l w',
    exhaust (RandomDataGenerator.pizzerias address_ids) w
    = (inr (address_ids', l), w') /\
    map Pizzeria.name l = RandomDataGenerator.pizzeria_names /\
    List.length l = 5 /\
    5 - List.length address_ids
    <= List.length (filter is_none (map Pizzeria.address_id l)) /\
    Forall (fun p => Pizzeria.address_id p = None \/
                     In (Pizzeria.address_id p) address_ids) l.
Proof.
  unfold RandomDataGenerator.pizzerias.
  assert (Hfinish : forall ids w1,
             5 <= List.length ids ->
             Permutation (if (len address_ids <? 5)%Z
                          then address_ids ++ repeat None 5
                          else address_ids) ids ->
             exists l w',
               exhaust (ret (ids,
                  map (fun i_name : nat * string =>
                         address_id <- index ids (fst i_name) ;;
                         FakePizzeria (snd i_name) address_id)
                      (RandomDataGenerator.enumerate RandomDataGenerator.pizzeria_names))) w1
               = (inr (ids, l), w') /\
               map Pizzeria.name l = RandomDataGenerator.pizzeria_names /\
               List.length l = 5 /\
               5 - List.length address_ids
               <= List.length (filter is_none (map Pizzeria.address_id l)) /\
               Forall (fun p => Pizzeria.address_id p = None \/
                                In (Pizzeria.address_id p) address_ids) l).
  { intros ids w1 Hlen Hperm.
    destruct (pizzerias_yield ids w1 Hlen) as (l & w' & Hrun & Hn & Ha).
    exists l, w'. split; [exact Hrun |]. split; [exact Hn |].
    assert (Hl : List.length l = 5).
    { rewrite <- (length_map Pizzeria.name), Hn. reflexivity. }
    split; [exact Hl |]. split.
    - rewrite Ha.
      pose proof (filter_length_split is_none (firstn 5 ids)) as Hs.
      rewrite length_firstn in Hs.
      pose proof (filter_length_firstn
                    (fun x : option Z => negb (is_none x)) 5 ids) as Hf.
      rewrite <- (filter_length_perm _ _ _ Hperm) in Hf.
      assert (List.length
                (filter (fun x : option Z => negb (is_none x))
                   (if (len address_ids <? 5)%Z
                    then address_ids ++ repeat None 5 else address_ids))
              <= List.length address_ids).
      { destruct (len address_ids <? 5)%Z.
        - rewrite filter_app, filter_repeat_none, app_nil_r.
          apply filter_length_le.
        - apply filter_length_le. }
      lia.
    - apply Forall_forall. intros p Hp.
      assert (Hin : In (Pizzeria.address_id p) ids).
      { apply (in_map Pizzeria.address_id) in Hp. rewrite Ha in Hp.
        eapply In_firstn; eauto. }
      apply (Permutation_in _ (Permutation_sym Hperm)) in Hin.
      destruct (len address_ids <? 5)%Z; [| now right].
      apply in_app_or in Hin. destruct Hin as [Hin | Hin]; [now right |].
      apply repeat_spec in Hin. now left. }
  destruct (len address_ids <? 5)%Z eqn:Hshort.
  - destruct (shuffle_perm (address_ids ++ repeat None 5) w)
      as (ids & w1 & Hsh & Hperm & _).
    destruct (Hfinish ids w1) as (l & w' & Hrun & Hrest); auto.
    { rewrite <- (Permutation_length Hperm), length_app, repeat_length.
      lia. }
    exists ids, l, w'. split; [| exact Hrest].
    now rewrite (exhaust_bind_step _ _ _ _ _ Hsh).
  - destruct (Hfinish address_ids w) as (l & w' & Hrun & Hrest); auto.
    { unfold len in Hshort. apply Z.ltb_ge in Hshort. lia. }
    exists address_ids, l, w'. split; [| exact Hrest].
    now rewrite (exhaust_bind_step _ _ w address_ids w eq_refl).
Qed.

(** ** What the generators do to the lists they are given *)

Lemma members_lists address_ids pizzeria_ids size w address_ids' nexts w' :
  RandomDataGenerator.members address_ids pizzeria_ids size w
  = (inr (address_ids', nexts), w') ->
  Permutation address_ids address_ids' /\ List.length nexts = Z.to_nat size.
Proof.
  unfold RandomDataGenerator.members.
  destruct (len address_ids <? size)%Z; [discriminate |].
  intros H.
  apply bind_ok in H. destruct H as (pz & w1 & _ & H).
  apply bind_ok in H. destruct H as (ids & w2 & Hsh & H).
  apply shuffle_inv in Hsh. destruct Hsh as (x' & [= <-] & Hperm & _).
  injection H as <- <- _. split; auto.
  unfold range. now rewrite length_map, length_seq.
Qed.

Lemma user_accounts_lists member_ids size w member_ids' nexts w' :
  RandomDataGenerator.user_accounts member_ids size w
  = (inr (member_ids', nexts), w') ->
  Permutation member_ids member_ids' /\ List.length nexts = Z.to_nat size.
Proof.
  unfold RandomDataGenerator.user_accounts.
  destruct (len member_ids <? size)%Z; [discriminate |].
  intros H.
  apply bind_ok in H. destruct H as (ids & w2 & Hsh & H).
  apply shuffle_inv in Hsh. destruct Hsh as (x' & [= <-] & Hperm & _).
  injection H as <- <- _. split; auto.
  unfold range. now rewrite length_map, length_seq.
Qed.

Lemma taken_orders_lists member_ids address_ids pizzeria_ids order_status_ids
    size w member_ids' address_ids' nexts w' :
  RandomDataGenerator.taken_orders member_ids address_ids pizzeria_ids
    order_status_ids size w
  = (inr ((member_ids', address_ids'), nexts), w') ->
  Permutation member_ids member_ids' /\
  Permutation address_ids address_ids' /\
  List.length nexts = Z.to_nat size.
Proof.
  unfold RandomDataGenerator.taken_orders.
  destruct (len member_ids <? size)%Z; [discriminate |].
  destruct (len address_ids <? size)%Z; [discriminate |].
  intros H.
  apply bind_ok in H. destruct H as (ms & w1 & Hm & H).
  apply bind_ok in H. destruct H as (ads & w2 & Ha & H).
  apply shuffle_inv in Hm. destruct Hm as (x' & [= <-] & Hpm & _).
  apply shuffle_inv in Ha. destruct Ha as (y' & [= <-] & Hpa & _).
  injection H as <- <- <- _. repeat split; auto.
  unfold range. now rewrite length_map, length_seq.
Qed.

Lemma pizzerias_lists address_ids w address_ids' nexts w' :
  RandomDataGenerator.pizzerias address_ids w
  = (inr (address_ids', nexts), w') ->
  (5 <= List.length address_ids -> address_ids' = address_ids) /\
  (List.length address_ids < 5 ->
   Permutation (address_ids ++ repeat None 5) address_ids') /\
  List.length nexts = 5.
Proof.
  unfold RandomDataGenerator.pizzerias. intros H.
  apply bind_ok in H. destruct H as (ids & w1 & Hids & H).
  injection H as <- <- _.
  split; [| split].
  - intros Hlen. unfold len in Hids.
    destruct (Z.ltb_spec (Z.of_nat (List.length address_ids)) 5); [lia |].
    now injection Hids as <- _.
  - intros Hlen. unfold len in Hids.
    destruct (Z.ltb_spec (Z.of_nat (List.length address_ids)) 5); [| lia].
    apply shuffle_inv in Hids. destruct Hids as (x' & [= <-] & Hp & _).
    exact Hp.
  - reflexivity.
Qed.

(** ** The fixed catalogues *)

Lemma recipes_yield w :
  exists l w',
    exhaust RandomDataGenerator.recipes w = (inr (tt, l), w') /\
    map Recipe.name l = RandomDataGenerator.recipe_names.
Proof.
  destruct (exhaust_ready tt FakeRecipe (fun name r => Recipe.name r = name)
              RandomDataGenerator.recipe_names w) as (l & w' & Hrun & HF).
  { intros name w0 _.
    destruct (FakeRecipe_run name w0) as (d & p & w1 & ->). eauto. }
  exists l, w'. split; [exact Hrun |].
  rewrite <- (map_id RandomDataGenerator.recipe_names).
  now apply (Forall2_map_eq Recipe.name (fun name => name)).
Qed.

Lemma products_yield w :
  exists l w',
    exhaust RandomDataGenerator.products w = (inr (tt, l), w') /\
    map Product.name l = RandomDataGenerator.product_names.
Proof.
  destruct (exhaust_ready tt FakeProduct (fun name r => Product.name r = name)
              RandomDataGenerator.product_names w) as (l & w' & Hrun & HF).
  { intros name w0 _.
    destruct (FakeProduct_run name w0) as (b & g & p & w1 & ->). eauto. }
  exists l, w'. split; [exact Hrun |].
  rewrite <- (map_id RandomDataGenerator.product_names).
  now apply (Forall2_map_eq Product.name (fun name => name)).
Qed.

Lemma catalog_items_yield recipes w :
  exists l w',
    exhaust (RandomDataGenerator.catalog_items recipes) w
    = (inr (tt, l), w') /\
    Forall2 linked_to recipes l.
Proof.
  apply (exhaust_ready tt
           (fun item => FakeCatalogItem (fst item) "recipe" (snd item))).
  intros [name id] w0 _. cbn [fst snd].
  destruct (FakeCatalogItem_run name "recipe" id w0)
    as (d & p & pr & av & di & w1 & ->).
  cbn. do 2 eexists. split; [reflexivity |]. now repeat split.
Qed.

Import DatabaseFeeder.

(** ** Steps of the feeder *)

Lemma attr_run {A} (get : Pools -> option A) name f a :
  get (pools f) = Some a -> attr get name f = (inr a, f).
Proof. unfold attr. now intros ->. Qed.

Lemma attr_ok {A} (get : Pools -> option A) name f a f' :
  attr get name f = (inr a, f') -> get (pools f) = Some a /\ f' = f.
Proof.
  unfold attr. destruct (get (pools f)); intros H; inversion H; auto.
Qed.

Lemma assign_ok set f r f' :
  assign set f = (r, f') -> r = inr tt /\ f' = with_pools (set (pools f)) f.
Proof. unfold assign. intros H. inversion H; auto. Qed.

Lemma self_size_ok f r f' :
  self_size f = (r, f') -> r = inr (size f) /\ f' = f.
Proof. unfold self_size. intros H. inversion H; auto. Qed.

Lemma liftW_ok {A} (g : G A) f r f' :
  liftW g f = (r, f') ->
  exists w, g (world f) = (r, w) /\ f' = with_world w f.
Proof.
  unfold liftW. destruct (g (world f)) as [r0 w]. intros H.
  inversion H; subst. eauto.
Qed.

Lemma query_select_ok columns t parameters f rows f' :
  query (SelectFrom columns t) parameters f = (inr rows, f') ->
  rows = rows_of (db f) t /\
  f' = with_db (db f) (with_journal (journal f ++ [SelectFrom columns t]) f).
Proof.
  unfold query. destruct (fault f _); [discriminate |].
  cbn. intros H. inversion H; auto.
Qed.

(** ** Frames: what a stage leaves untouched *)

Section Frames.
Context {R : Feeder -> Feeder -> Prop} {allowed : Statement -> Prop}.
Context {frame : Frame R allowed}.

Lemma frame_ret {A} (a : A) : preserves R (ret a).
Proof. apply preserves_ret, frame_refl. Qed.

Lemma frame_bind {A B} (m : M A) (k : A -> M B) :
  preserves R m -> (forall a, preserves R (k a)) -> preserves R (bind m k).
Proof. apply preserves_bind. apply frame_trans. Qed.

Lemma frame_for_each {A} (xs : list A) (body : A -> M unit) :
  (forall x, preserves R (body x)) -> preserves R (for_each xs body).
Proof.
  intros H. apply preserves_for_each; auto;
    [apply frame_refl | apply frame_trans].
Qed.

Lemma frame_try_pass catches (m : M unit) :
  preserves R m -> preserves R (try_pass catches m).
Proof. apply preserves_try_pass. Qed.

Lemma frame_liftW {A} (g : G A) : preserves R (liftW g).
Proof.
  intros f r f' H. apply liftW_ok in H. destruct H as (w & _ & ->).
  apply frame_world.
Qed.

Lemma frame_attr {A} (get : Pools -> option A) name :
  preserves R (attr get name).
Proof.
  intros f r f' H. unfold attr in H.
  destruct (get (pools f)); inversion H; apply frame_refl.
Qed.

Lemma frame_assign set : preserves R (assign set).
Proof.
  intros f r f' H. apply assign_ok in H. destruct H as (_ & ->).
  apply frame_pools.
Qed.

Lemma frame_self_size : preserves R self_size.
Proof.
  intros f r f' H. apply self_size_ok in H. destruct H as (_ & ->).
  apply frame_refl.
Qed.

Lemma frame_say s : preserves R (say s).
Proof. apply frame_liftW. Qed.

Lemma frame_insert s parameters :
  allowed s -> preserves R (insert s parameters).
Proof.
  intros H. apply frame_bind; [now apply frame_query |].
  intros _. apply frame_ret.
Qed.

Lemma frame_for_gen {S A} (g : Gen S A) write_back body :
  (forall s, preserves R (write_back s)) ->
  (forall a, preserves R (body a)) ->
  preserves R (for_gen g write_back body).
Proof.
  intros Hw Hb. unfold for_gen.
  apply frame_bind; [apply frame_liftW |]. intros started.
  apply frame_bind; [apply Hw |]. intros _.
  apply frame_for_each. intros next.
  apply frame_bind; [apply frame_liftW | apply Hb].
Qed.

Ltac frame_step :=
  first [ apply frame_ret | apply frame_self_size | apply frame_say
        | apply frame_attr | apply frame_assign | apply frame_liftW
        | apply frame_try_pass
        | apply frame_for_gen; intros
        | apply frame_for_each; intros
        | apply frame_insert
        | apply frame_query
        | apply frame_bind; [| intros] ].

Ltac frames H := repeat frame_step; try (apply H; cbn; auto; fail).

Lemma _insert_addresses_frame :
  (forall s, fills T_address s -> allowed s) ->
  preserves R _insert_addresses.
Proof. intros H. unfold _insert_addresses. frames H. Qed.

Lemma _insert_pizzerias_frame :
  (forall s, fills T_pizzeria s -> allowed s) ->
  preserves R _insert_pizzerias.
Proof. intros H. unfold _insert_pizzerias. frames H. Qed.

Lemma _insert_members_frame :
  (forall s, fills T_member s -> allowed s) ->
  preserves R _insert_members.
Proof. intros H. unfold _insert_members. frames H. Qed.

Lemma _insert_user_accounts_frame :
  (forall s, fills T_user_account s -> allowed s) ->
  preserves R _insert_user_accounts.
Proof. intros H. unfold _insert_user_accounts. frames H. Qed.

Lemma _insert_taken_orders_frame :
  (forall s, fills T_taken_order s -> allowed s) ->
  preserves R _insert_taken_orders.
Proof. intros H. unfold _insert_taken_orders. frames H. Qed.

Lemma _insert_bills_frame :
  (forall s, fills T_bill s -> allowed s) ->
  preserves R _insert_bills.
Proof. intros H. unfold _insert_bills. frames H. Qed.

Lemma _insert_recipes_frame :
  (forall s, fills T_recipe s -> allowed s) ->
  preserves R _insert_recipes.
Proof. intros H. unfold _insert_recipes. frames H. Qed.

Lemma _insert_products_frame :
  (forall s, fills T_product s -> allowed s) ->
  preserves R _insert_products.
Proof. intros H. unfold _insert_products. frames H. Qed.

Lemma _insert_catalog_items_frame :
  (forall s, fills T_catalog_item s -> allowed s) ->
  preserves R _insert_catalog_items.
Proof. intros H. unfold _insert_catalog_items. frames H. Qed.

Lemma _insert_order_status_frame :
  (forall s, fills T_order_status s -> allowed s) ->
  preserves R _insert_order_status.
Proof. intros H. unfold _insert_order_status. frames H. Qed.

Lemma _insert_keywords_frame :
  (forall s, fills T_keyword s -> allowed s) ->
  preserves R _insert_keywords.
Proof. intros H. unfold _insert_keywords. frames H. Qed.

Lemma _insert_permissions_frame :
  (forall s, fills T_permission s -> allowed s) ->
  preserves R _insert_permissions.
Proof. intros H. unfold _insert_permissions. frames H. Qed.

Lemma _insert_roles_frame :
  (forall s, fills T_role s -> allowed s) ->
  preserves R _insert_roles.
Proof. intros H. unfold _insert_roles. frames H. Qed.

Lemma _update_members_user_account_frame :
  (forall s, links_account s -> allowed s) ->
  preserves R _update_members_user_account.
Proof.
  intros H. unfold _update_members_user_account. frames H.
  apply H. reflexivity.
Qed.

Lemma _update_members_role_frame :
  (forall s, assigns_role s -> allowed s) ->
  preserves R _update_members_role.
Proof.
  intros H. unfold _update_members_role. frames H.
  - apply H. now left.
  - apply H. now right.
Qed.

Lemma _insert_relations_many_to_many_frame :
  (forall s, associates s -> allowed s) ->
  preserves R _insert_relations_many_to_many.
Proof.
  intros H. unfold _insert_relations_many_to_many.
  apply preserves_for_each; [apply frame_refl | apply frame_trans |].
  intros callback Hin. apply frame_bind; [apply frame_self_size |].
  intros size. apply frame_for_each. intros _. apply frame_try_pass.
  unfold callbacks in Hin. cbn in Hin.
  repeat (destruct Hin as [<- | Hin]); try contradiction.
  - unfold _insert_has_permission_to. frames H.
  - unfold _insert_contains_item. frames H.
  - unfold _insert_requires_product. frames H.
  - unfold _insert_has_product_in_stock. frames H.
  - unfold _insert_has_keyword. frames H.
Qed.
End Frames.

(** ** The gateway *)

Lemma Entity_eqb_eq a b : Entity_eqb a b = true <-> a = b.
Proof. destruct a, b; cbn; split; intros H; congruence. Qed.

Lemma Entity_eqb_refl a : Entity_eqb a a = true.
Proof. now apply Entity_eqb_eq. Qed.

Lemma rows_of_set_rows t rows d t' :
  rows_of (set_rows t rows d) t'
  = if Entity_eqb t t' then rows else rows_of d t'.
Proof. reflexivity. Qed.

(** A call to the gateway journals its statement; it fails on a fault or
    when the statement fails, and otherwise returns the rows and installs
    the new tables. *)
Lemma query_inv s parameters f r f' :
  query s parameters f = (r, f') ->
  journal f' = journal f ++ [s] /\ fault f' = fault f /\ size f' = size f /\
  pools f' = pools f /\ world f' = world f /\
  ((fault f (List.length (journal f)) = true /\
    r = inl OperationalError /\ db f' = db f) \/
   (fault f (List.length (journal f)) = false /\
    exists e,
      (execute s parameters (db f) = inl e \/
       (e = IntegrityError /\ writes s = true /\
        violation f (List.length (journal f)) = true)) /\
      r = inl e /\ db f' = db f) \/
   (fault f (List.length (journal f)) = false /\
    exists rows d, execute s parameters (db f) = inr (rows, d) /\
                   r = inr rows /\ db f' = d)).
Proof.
  unfold query. destruct (fault f _).
  - intros H. inversion H; subst. cbn. intuition.
  - destruct (writes s && violation f _) eqn:V.
    + apply andb_prop in V. destruct V as [V1 V2].
      intros H; inversion H; subst; cbn; repeat split; auto.
      right. left. split; auto. exists IntegrityError. auto.
    + destruct (execute s parameters (db f)) as [e | [rows d]];
        intros H; inversion H; subst; cbn; repeat split; auto.
      * right. left. split; auto. exists e. auto.
      * right. right. eauto 6.
Qed.

Lemma query_violation s parameters f r f' :
  query s parameters f = (r, f') -> violation f' = violation f.
Proof.
  unfold query. destruct (fault f _); [now intros [= _ <-] |].
  destruct (writes s && violation f _); [now intros [= _ <-] |].
  destruct (execute s parameters (db f)) as [e | [rows d]];
    now intros [= _ <-].
Qed.

#[export] Instance sent_only_frame K : Frame (sent_only K) K.
Proof.
  split.
  - intros f. exists []. now rewrite app_nil_r.
  - intros a b c (j1 & H1 & F1) (j2 & H2 & F2). exists (j1 ++ j2). split.
    + now rewrite H2, H1, app_assoc.
    + now apply Forall_app.
  - intros f w. exists []. cbn. now rewrite app_nil_r.
  - intros f p. exists []. cbn. now rewrite app_nil_r.
  - intros s parameters Hs f r f' H. apply query_inv in H.
    destruct H as (Hj & _). exists [s]. split; auto.
Qed.

Lemma execute_grows s parameters d rows d' t :
  not_an_update s ->
  execute s parameters d = inr (rows, d') ->
  exists inserted, rows_of d' t = rows_of d t ++ inserted.
Proof.
  intros Hs H. destruct s; cbn in H; try contradiction.
  - destruct (bind_parameters columns parameters); inversion H; subst.
    rewrite rows_of_set_rows. destruct (Entity_eqb t0 t) eqn:E.
    + apply Entity_eqb_eq in E. subst. eauto.
    + exists []. now rewrite app_nil_r.
  - destruct (bind_parameters parameters0 parameters); [| discriminate].
    destruct (existsb _ _); inversion H; subst. cbn.
    exists []. now rewrite app_nil_r.
  - inversion H; subst. exists []. now rewrite app_nil_r.
  - inversion H; subst. exists []. now rewrite app_nil_r.
Qed.

#[export] Instance grows_frame : Frame grows not_an_update.
Proof.
  split.
  - intros f t. exists []. now rewrite app_nil_r.
  - intros a b c H1 H2 t. destruct (H1 t) as (i1 & E1).
    destruct (H2 t) as (i2 & E2). exists (i1 ++ i2).
    now rewrite E2, E1, app_assoc.
  - intros f w t. exists []. cbn. now rewrite app_nil_r.
  - intros f p t. exists []. cbn. now rewrite app_nil_r.
  - intros s parameters Hs f r f' H t. apply query_inv in H.
    destruct H as (_ & _ & _ & _ & _ & [(_ & _ & E) | [(_ & e & _ & _ & E)
                                     | (_ & rows & d & Hx & _ & E)]]).
    + rewrite E. exists []. now rewrite app_nil_r.
    + rewrite E. exists []. now rewrite app_nil_r.
    + rewrite E. eapply execute_grows; eauto.
Qed.

Lemma fills_not_an_update t s : fills t s -> not_an_update s.
Proof. destruct s; cbn; auto. Qed.

(** ** The identifiers read back by the insertion stages *)

Ltac unbind H :=
  repeat (apply bind_ok in H;
          let a := fresh "a" in let f := fresh "f" in
          let E := fresh "E" in
          destruct H as (a & f & E & H)).

Ltac settle :=
  repeat match goal with
         | H : query (SelectFrom _ _) _ _ = (inr _, _) |- _ =>
             apply query_select_ok in H; destruct H as [? ?]
         | H : assign _ _ = (_, _) |- _ =>
             apply assign_ok in H; destruct H as [_ ?]
         | H : attr _ _ _ = (inr _, _) |- _ =>
             apply attr_ok in H; destruct H as [? ?]
         | H : self_size _ = (_, _) |- _ =>
             apply self_size_ok in H; destruct H as [? ?]
         end.

Ltac captured H :=
  unbind H; settle; subst; cbn; reflexivity.

Lemma _insert_addresses_captures :
  captures _insert_addresses T_address address_ids
           (fun rows => map Some (ids rows)).
Proof.
  intros f v f' H. split.
  - unfold _insert_addresses in H. captured H.
  - eapply (_insert_addresses_frame (R := grows)); eauto.
    apply fills_not_an_update.
Qed.

Lemma _insert_pizzerias_captures :
  captures _insert_pizzerias T_pizzeria pizzeria_ids ids.
Proof.
  intros f v f' H. split.
  - unfold _insert_pizzerias in H. captured H.
  - eapply (_insert_pizzerias_frame (R := grows)); eauto.
    apply fills_not_an_update.
Qed.

Lemma _insert_members_captures :
  captures _insert_members T_member member_ids ids.
Proof.
  intros f v f' H. split.
  - unfold _insert_members in H. captured H.
  - eapply (_insert_members_frame (R := grows)); eauto.
    apply fills_not_an_update.
Qed.

Lemma _insert_user_accounts_captures :
  captures _insert_user_accounts T_user_account user_accounts
           (dict_by "member_id").
Proof.
  intros f v f' H. split.
  - unfold _insert_user_accounts in H. captured H.
  - eapply (_insert_user_accounts_frame (R := grows)); eauto.
    apply fills_not_an_update.
Qed.

Lemma _insert_recipes_captures :
  captures _insert_recipes T_recipe recipes (dict_by "name").
Proof.
  intros f v f' H. split.
  - unfold _insert_recipes in H. captured H.
  - eapply (_insert_recipes_frame (R := grows)); eauto.
    apply fills_not_an_update.
Qed.

Lemma _insert_catalog_items_captures :
  captures _insert_catalog_items T_catalog_item catalog_item_ids ids.
Proof.
  intros f v f' H. split.
  - unfold _insert_catalog_items in H. captured H.
  - eapply (_insert_catalog_items_frame (R := grows)); eauto.
    apply fills_not_an_update.
Qed.

Lemma _insert_order_status_captures :
  captures _insert_order_status T_order_status order_status_ids ids.
Proof.
  intros f v f' H. split.
  - unfold _insert_order_status in H. captured H.
  - eapply (_insert_order_status_frame (R := grows)); eauto.
    apply fills_not_an_update.
Qed.

Lemma _insert_taken_orders_captures :
  captures _insert_taken_orders T_taken_order taken_order_ids ids.
Proof.
  intros f v f' H. split.
  - unfold _insert_taken_orders in H. captured H.
  - eapply (_insert_taken_orders_frame (R := grows)); eauto.
    apply fills_not_an_update.
Qed.

Lemma _insert_keywords_captures :
  captures _insert_keywords T_keyword keyword_ids ids.
Proof.
  intros f v f' H. split.
  - unfold _insert_keywords in H. captured H.
  - eapply (_insert_keywords_frame (R := grows)); eauto.
    apply fills_not_an_update.
Qed.

Lemma _insert_permissions_captures :
  captures _insert_permissions T_permission permission_ids ids.
Proof.
  intros f v f' H. split.
  - unfold _insert_permissions in H. captured H.
  - eapply (_insert_permissions_frame (R := grows)); eauto.
    apply fills_not_an_update.
Qed.

Lemma _insert_roles_captures :
  captures _insert_roles T_role role_ids ids.
Proof.
  intros f v f' H. split.
  - unfold _insert_roles in H. captured H.
  - eapply (_insert_roles_frame (R := grows)); eauto.
    apply fills_not_an_update.
Qed.

(** The products stage reads the identifiers back after each insertion:
    once its loop has run at least once, the attribute holds the table. *)
Lemma products_loop_captures (nexts : list (G Product.t)) f f' :
  for_each nexts
    (fun next =>
       product <- liftW next ;;
       insert (InsertInto T_product
                 ["name"; "barcode"; "gram_weight"; "unit_price_ati"])
              (Product.dict product) ;;;
       rows <- query (SelectFrom ["id"] T_product) [] ;;
       assign (set_product_ids (ids rows))) f = (inr tt, f') ->
  (nexts = [] /\ f' = f) \/
  product_ids (pools f') = Some (ids (rows_of (db f') T_product)).
Proof.
  revert f. induction nexts as [| next nexts IH]; intros f H; cbn in H.
  - left. now inversion H.
  - right. apply bind_ok in H. destruct H as ([] & f1 & Hbody & H).
    apply IH in H. destruct H as [[_ ->] | H]; [| exact H].
    unbind Hbody. settle. subst. reflexivity.
Qed.

Lemma _insert_products_captures :
  captures _insert_products T_product product_ids ids.
Proof.
  intros f v f' H. split.
  - unfold _insert_products, for_gen in H.
    apply bind_ok in H. destruct H as ([] & f3 & Hloop & H).
    apply attr_ok in H. destruct H as [_ ->].
    apply bind_ok in Hloop. destruct Hloop as (started & f1 & Hgen & Hloop).
    apply bind_ok in Hloop. destruct Hloop as ([] & f2 & _ & Hloop).
    apply liftW_ok in Hgen. destruct Hgen as (w & Hgen & _).
    injection Hgen as <- _. cbn [snd] in Hloop.
    apply products_loop_captures in Hloop.
    destruct Hloop as [[Hnil _] | Hloop]; [discriminate | exact Hloop].
  - eapply (_insert_products_frame (R := grows)); eauto.
    apply fills_not_an_update.
Qed.

Lemma captures_as_list {A B} (stage : M A) t
    (get : Pools -> option (list B)) (read : list Row -> list B)
    (entry : Row -> B) :
  (forall rows, read rows = map entry rows) ->
  captures stage t get read -> captures_list stage t get entry.
Proof.
  intros Hread Hc f v f' H. destruct (Hc f v f' H) as (Hget & inserted & Hrows).
  exists inserted. split; [exact Hrows |].
  rewrite Hget, Hrows, Hread, map_app. split; [reflexivity |]. split.
  - intros [= Heq].
    assert (Hlen : List.length (map entry (rows_of (db f) t)) = 0).
    { apply (f_equal (@List.length B)) in Heq. rewrite length_app in Heq.
      lia. }
    rewrite length_map in Hlen. now apply length_zero_iff_nil.
  - intros ->. reflexivity.
Qed.

Lemma captures_as_mapping {A} (stage : M A) t
    (get : Pools -> option (list (Value * Z))) column :
  captures stage t get (dict_by column) -> captures_mapping stage t get column.
Proof.
  intros Hc f v f' H. destruct (Hc f v f' H) as (Hget & inserted & Hrows).
  exists inserted. split; [exact Hrows |].
  rewrite Hget, Hrows. split; [reflexivity |]. now intros ->.
Qed.

(** C1 (as amended): when an insertion stage completes, the attribute it
    refreshes is read from every row of the entity's table as the stage
    leaves it: the rows that were there before the stage, followed by the
    rows the stage inserted.  For the ten lists of identifiers, the
    attribute holds the identifiers of the earlier rows and then those of
    the inserted rows, so that it holds the identifiers of the inserted
    rows alone if and only if the table was empty.  For the two mappings
    (the user accounts by member, the recipes by name) it holds the
    mapping of all these rows, in which a later row takes the place of an
    earlier one under the same key; on a table that was empty this is the
    mapping of the inserted rows. *)
Theorem insertion_stages_capture_whole_tables :
  captures_list _insert_addresses T_address address_ids
                (fun r => Some (fst r)) /\
  captures_list _insert_pizzerias T_pizzeria pizzeria_ids fst /\
  captures_list _insert_members T_member member_ids fst /\
  captures_mapping _insert_user_accounts T_user_account user_accounts
                   "member_id" /\
  captures_mapping _insert_recipes T_recipe recipes "name" /\
  captures_list _insert_products T_product product_ids fst /\
  captures_list _insert_catalog_items T_catalog_item catalog_item_ids fst /\
  captures_list _insert_order_status T_order_status order_status_ids fst /\
  captures_list _insert_taken_orders T_taken_order taken_order_ids fst /\
  captures_list _insert_keywords T_keyword keyword_ids fst /\
  captures_list _insert_permissions T_permission permission_ids fst /\
  captures_list _insert_roles T_role role_ids fst.
Proof.
  repeat apply conj;
    first [ apply captures_as_mapping
          | apply (captures_as_list _ _ _ ids); [reflexivity |]
          | apply (captures_as_list _ _ _ (fun rows => map Some (ids rows)));
            [intros rows; unfold ids; apply map_map |] ];
    first [ apply _insert_addresses_captures
          | apply _insert_pizzerias_captures
          | apply _insert_members_captures
          | apply _insert_user_accounts_captures
          | apply _insert_recipes_captures
          | apply _insert_products_captures
          | apply _insert_catalog_items_captures
          | apply _insert_order_status_captures
          | apply _insert_taken_orders_captures
          | apply _insert_keywords_captures
          | apply _insert_permissions_captures
          | apply _insert_roles_captures ].
Qed.

Lemma insertion_stages_capture_whole_tables_witness :
  exists inserted,
    rows_of (db (snd (_insert_addresses
                        (new_feeder database_with_an_address 1)))) T_address
    = rows_of database_with_an_address T_address ++ inserted /\
    address_ids (pools (snd (_insert_addresses
                               (new_feeder database_with_an_address 1))))
    = Some (map (fun r => Some (fst r))
              (rows_of database_with_an_address T_address)
            ++ map (fun r => Some (fst r)) inserted).
Proof.
  destruct (proj1 insertion_stages_capture_whole_tables
              (new_feeder database_with_an_address 1)
              [Some 7%Z; Some 8%Z]
              (snd (_insert_addresses (new_feeder database_with_an_address 1)))
              eq_refl) as (inserted & H1 & H2 & _).
  exists inserted. split; [exact H1 | exact H2].
Defined.

(** C1 as stated fails: on a table that already holds address 7, the
    addresses stage run for one address inserts row 8 and leaves both 7 and
    8 in [address_ids]. *)
Lemma preexisting_address_is_captured :
  let f := new_feeder database_with_an_address 1 in
  let f' := snd (_insert_addresses f) in
  ids (rows_of (db f) T_address) = [7%Z] /\
  ids (rows_of (db f') T_address) = [7%Z; 8%Z] /\
  address_ids (pools f') = Some [Some 7%Z; Some 8%Z].
Proof. vm_compute. repeat split. Qed.

(** The mappings differ from the lists: rows inserted under the keys of
    earlier rows take their place.  When the recipes stage runs a second
    time, on the 23 recipes of a first run, the table holds 46 rows and
    the mapping only the 23 identifiers of the second run. *)
Lemma second_recipes_stage_displaces_the_first :
  let first := snd (_insert_recipes (new_feeder empty_database 1)) in
  let second := snd (_insert_recipes first) in
  List.length (rows_of (db second) T_recipe) = 46 /\
  option_map (map snd) (recipes (pools second))
  = Some (map Z.of_nat (seq 24 23)).
Proof. vm_compute. repeat split. Qed.

(** ** Pools that are too short *)

Lemma members_short address_ids pizzeria_ids size w :
  (len address_ids < size)%Z ->
  RandomDataGenerator.members address_ids pizzeria_ids size w
  = (inl (ValueError "Not enough address_ids"), w).
Proof.
  intros H. unfold RandomDataGenerator.members.
  apply Z.ltb_lt in H. now rewrite H.
Qed.

Lemma user_accounts_short member_ids size w :
  (len member_ids < size)%Z ->
  RandomDataGenerator.user_accounts member_ids size w
  = (inl (ValueError "Not enough member_ids"), w).
Proof.
  intros H. unfold RandomDataGenerator.user_accounts.
  apply Z.ltb_lt in H. now rewrite H.
Qed.

Lemma taken_orders_short member_ids address_ids pizzeria_ids order_status_ids
    size w :
  (len member_ids < size \/ len address_ids < size)%Z ->
  exists msg,
    RandomDataGenerator.taken_orders member_ids address_ids pizzeria_ids
      order_status_ids size w
    = (inl (ValueError msg), w).
Proof.
  intros H. unfold RandomDataGenerator.taken_orders.
  destruct (Z.ltb_spec (len member_ids) size); [eexists; reflexivity |].
  destruct (Z.ltb_spec (len address_ids) size); [eexists; reflexivity |].
  lia.
Qed.

Lemma bills_short taken_order_ids size w :
  (len taken_order_ids < size)%Z ->
  RandomDataGenerator.bills taken_order_ids size w
  = (inl (ValueError "Not enough taken_order_ids"),
     mkWorld (rand w) (fake w) (cursor w) (out w ++ [Ids taken_order_ids])).
Proof.
  intros H. unfold RandomDataGenerator.bills.
  apply Z.ltb_lt in H. now rewrite H.
Qed.

Lemma for_gen_fails {S A} (g : Gen S A) write_back body f e w :
  g (world f) = (inl e, w) ->
  for_gen g write_back body f = (inl e, with_world w f).
Proof.
  intros H. unfold for_gen. apply bind_fail. unfold liftW. now rewrite H.
Qed.

Lemma self_size_run f : self_size f = (inr (size f), f).
Proof. reflexivity. Qed.

(** C4: a generator given a list of identifiers shorter than the requested
    count raises the ValueError of insufficient input ([members] on the
    addresses, [user_accounts] on the members, [taken_orders] on the members
    or the addresses, [bills] on the taken orders); the stage that consumes
    the generator then ends with that error, having sent no statement to
    the gateway and left every table as it was. *)
Theorem short_pool_raises_before_any_insertion (f : Feeder) (w : World)
    (size : Z) :
  (forall a p, (len a < size)%Z ->
     fst (RandomDataGenerator.members a p size w)
     = inl (ValueError "Not enough address_ids")) /\
  (forall m, (len m < size)%Z ->
     fst (RandomDataGenerator.user_accounts m size w)
     = inl (ValueError "Not enough member_ids")) /\
  (forall m a p s, (len m < size \/ len a < size)%Z ->
     exists msg,
       fst (RandomDataGenerator.taken_orders m a p s size w)
       = inl (ValueError msg)) /\
  (forall t, (len t < size)%Z ->
     fst (RandomDataGenerator.bills t size w)
     = inl (ValueError "Not enough taken_order_ids")) /\
  (forall a p,
     address_ids (pools f) = Some a -> pizzeria_ids (pools f) = Some p ->
     (len a < DatabaseFeeder.size f)%Z ->
     exists f',
       _insert_members f = (inl (ValueError "Not enough address_ids"), f') /\
       db f' = db f /\ journal f' = journal f) /\
  (forall m,
     member_ids (pools f) = Some m ->
     (len m < DatabaseFeeder.size f)%Z ->
     exists f',
       _insert_user_accounts f
       = (inl (ValueError "Not enough member_ids"), f') /\
       db f' = db f /\ journal f' = journal f) /\
  (forall m a p s,
     member_ids (pools f) = Some m -> address_ids (pools f) = Some a ->
     pizzeria_ids (pools f) = Some p -> order_status_ids (pools f) = Some s ->
     (len m < DatabaseFeeder.size f \/ len a < DatabaseFeeder.size f)%Z ->
     exists msg f',
       _insert_taken_orders f = (inl (ValueError msg), f') /\
       db f' = db f /\ journal f' = journal f) /\
  (forall t,
     taken_order_ids (pools f) = Some t ->
     (len t < DatabaseFeeder.size f)%Z ->
     exists f',
       _insert_bills f
       = (inl (ValueError "Not enough taken_order_ids"), f') /\
       db f' = db f /\ journal f' = journal f).
Proof.
  repeat apply conj.
  - intros a p H. rewrite members_short by assumption. reflexivity.
  - intros m H. rewrite user_accounts_short by assumption. reflexivity.
  - intros m a p s H.
    destruct (taken_orders_short m a p s size w H) as (msg & ->).
    exists msg. reflexivity.
  - intros t H. rewrite bills_short by assumption. reflexivity.
  - intros a p Ha Hp H. eexists. split.
    { unfold _insert_members.
      rewrite (bind_step _ _ _ _ _ (attr_run _ _ _ _ Ha)).
      rewrite (bind_step _ _ _ _ _ (attr_run _ _ _ _ Hp)).
      rewrite (bind_step _ _ _ _ _ (self_size_run f)).
      apply bind_fail. apply for_gen_fails. now apply members_short. }
    split; reflexivity.
  - intros m Hm H. eexists. split.
    { unfold _insert_user_accounts.
      rewrite (bind_step _ _ _ _ _ (attr_run _ _ _ _ Hm)).
      rewrite (bind_step _ _ _ _ _ (self_size_run f)).
      apply bind_fail. apply for_gen_fails. now apply user_accounts_short. }
    split; reflexivity.
  - intros m a p s Hm Ha Hp Hs H.
    destruct (taken_orders_short m a p s (DatabaseFeeder.size f) (world f) H)
      as (msg & Hg).
    exists msg. eexists. split.
    { unfold _insert_taken_orders.
      rewrite (bind_step _ _ _ _ _ (attr_run _ _ _ _ Hm)).
      rewrite (bind_step _ _ _ _ _ (attr_run _ _ _ _ Ha)).
      rewrite (bind_step _ _ _ _ _ (attr_run _ _ _ _ Hp)).
      rewrite (bind_step _ _ _ _ _ (attr_run _ _ _ _ Hs)).
      rewrite (bind_step _ _ _ _ _ (self_size_run f)).
      apply bind_fail. apply for_gen_fails. exact Hg. }
    split; reflexivity.
  - intros t Ht H. eexists. split.
    { unfold _insert_bills.
      rewrite (bind_step _ _ _ _ _ (attr_run _ _ _ _ Ht)).
      rewrite (bind_step _ _ _ _ _ (self_size_run f)).
      apply for_gen_fails. now apply bills_short. }
    split; reflexivity.
Qed.

Lemma short_pool_raises_before_any_insertion_witness :
  exists f',
    _insert_user_accounts starved_feeder
    = (inl (ValueError "Not enough member_ids"), f') /\
    db f' = db starved_feeder /\ journal f' = journal starved_feeder.
Proof.
  destruct (short_pool_raises_before_any_insertion starved_feeder
              sample_world 2) as (_ & _ & _ & _ & _ & H & _).
  apply (H [1%Z]); reflexivity.
Defined.

(** C8 (as amended): the generators work in place on the lists they are
    given.  Once [members], [user_accounts] or [taken_orders] has started,
    the address and member lists it was given hold the same identifiers as
    before, possibly in another order (the other lists are only read);
    [pizzerias] leaves a list of five identifiers or more as it was. *)
Theorem generators_reorder_their_lists (w : World) (size : Z) :
  (forall address_ids pizzeria_ids address_ids' nexts w',
     RandomDataGenerator.members address_ids pizzeria_ids size w
     = (inr (address_ids', nexts), w') ->
     Permutation address_ids address_ids') /\
  (forall member_ids member_ids' nexts w',
     RandomDataGenerator.user_accounts member_ids size w
     = (inr (member_ids', nexts), w') ->
     Permutation member_ids member_ids') /\
  (forall member_ids address_ids pizzeria_ids order_status_ids
          member_ids' address_ids' nexts w',
     RandomDataGenerator.taken_orders member_ids address_ids pizzeria_ids
       order_status_ids size w
     = (inr ((member_ids', address_ids'), nexts), w') ->
     Permutation member_ids member_ids' /\
     Permutation address_ids address_ids') /\
  (forall address_ids address_ids' nexts w',
     RandomDataGenerator.pizzerias address_ids w
     = (inr (address_ids', nexts), w') ->
     5 <= List.length address_ids ->
     address_ids' = address_ids).
Proof.
  repeat apply conj.
  - intros a p a' nexts w' H. now apply members_lists in H.
  - intros m m' nexts w' H. now apply user_accounts_lists in H.
  - intros m a p s m' a' nexts w' H. apply taken_orders_lists in H.
    tauto.
  - intros a a' nexts w' H Hlen. apply pizzerias_lists in H.
    destruct H as (H & _). auto.
Qed.

Lemma generators_reorder_their_lists_witness :
  Permutation [Some 1%Z; Some 2%Z; Some 3%Z] [Some 3%Z; Some 1%Z; Some 2%Z].
Proof.
  destruct (generators_reorder_their_lists sample_world 2) as (H & _).
  eapply H with (pizzeria_ids := [4%Z]). reflexivity.
Defined.

(** C8 as stated fails: [members], given the addresses 1, 2, 3 and asked for
    two members, leaves the caller's list as 3, 1, 2 (and yields members
    at the addresses 3 and 1). *)
Lemma members_shuffles_the_addresses :
  lists_after
    (RandomDataGenerator.members [Some 1%Z; Some 2%Z; Some 3%Z] [4%Z] 2)
    sample_world
  = Some [Some 3%Z; Some 1%Z; Some 2%Z] /\
  option_map (map Member.address_id)
    (yielded
       (RandomDataGenerator.members [Some 1%Z; Some 2%Z; Some 3%Z] [4%Z] 2)
       sample_world)
  = Some [Some 3%Z; Some 1%Z].
Proof. split; reflexivity. Qed.

(** ** Insertion loops *)

Lemma next_id_above rows id : In id (ids rows) -> (id < next_id rows)%Z.
Proof.
  unfold next_id, ids. induction rows as [| r rows IH]; cbn; [tauto |].
  intros [<- | H]; [lia |]. specialize (IH H). lia.
Qed.

Lemma next_id_fresh rows : ~ In (next_id rows) (ids rows).
Proof. intros H. apply next_id_above in H. lia. Qed.

Lemma insert_into_ok t columns parameters f f' :
  insert (InsertInto t columns) parameters f = (inr tt, f') ->
  exists cells,
    bind_parameters columns parameters = Some cells /\
    rows_of (db f') t
    = rows_of (db f) t ++ [(next_id (rows_of (db f) t), cells)].
Proof.
  unfold insert. intros H. apply bind_ok in H.
  destruct H as (rows & f1 & H & Hret). inversion Hret; subst f1.
  apply query_inv in H.
  destruct H as (_ & _ & _ & _ & _ & [(_ & ? & _) | [(_ & e & _ & ? & _)
                               | (_ & rows' & d & Hx & _ & E)]]);
    try discriminate.
  cbn in Hx. destruct (bind_parameters columns parameters) as [cells |];
    [| discriminate].
  exists cells. split; auto. rewrite E. injection Hx as _ <-.
  rewrite rows_of_set_rows. now rewrite Entity_eqb_refl.
Qed.

(** The rows appended by a loop that inserts one row per yielded record:
    row for row, their columns are the parameters bound from the record. *)
Lemma insert_loop_rows {A B} (P : B -> A -> Prop) (make : B -> G A)
    (dict : A -> Dict) t columns xs :
  (forall b w a w', make b w = (inr a, w') -> P b a) ->
  forall f f',
    for_each (map make xs)
      (fun next => x <- liftW next ;; insert (InsertInto t columns) (dict x))
      f = (inr tt, f') ->
    exists inserted,
      rows_of (db f') t = rows_of (db f) t ++ inserted /\
      Forall2 (fun b row =>
                 exists a, P b a /\
                           bind_parameters columns (dict a) = Some (snd row))
              xs inserted /\
      (NoDup (ids (rows_of (db f) t)) -> NoDup (ids (rows_of (db f') t))).
Proof.
  intros HP. induction xs as [| b xs IH]; intros f f' H; cbn in H.
  - inversion H; subst. exists []. rewrite app_nil_r.
    repeat split; auto.
  - apply bind_ok in H. destruct H as ([] & f2 & Hbody & H).
    apply bind_ok in Hbody. destruct Hbody as (a & f1 & Hmake & Hins).
    apply liftW_ok in Hmake. destruct Hmake as (w & Hmake & ->).
    apply insert_into_ok in Hins. destruct Hins as (cells & Hcells & Hrows).
    cbn in Hrows.
    destruct (IH _ _ H) as (inserted & Hrest & HF & Hnodup).
    exists ((next_id (rows_of (db f) t), cells) :: inserted).
    repeat split.
    + rewrite Hrest, Hrows, <- app_assoc. reflexivity.
    + constructor; auto. exists a. split; eauto.
    + intros Hnd. apply Hnodup. rewrite Hrows. unfold ids.
      rewrite map_app. cbn.
      apply NoDup_app_remove_l with (l := []).
      apply Permutation_NoDup with
        (l := next_id (rows_of (db f) t) :: map fst (rows_of (db f) t)).
      * cbn. apply Permutation_cons_append.
      * constructor; auto. apply next_id_fresh.
Qed.

(** ** Mappings read back from a table *)

Lemma dict_set_fresh k v d :
  fresh_in k (map fst d) = true -> dict_set k v d = d ++ [(k, v)].
Proof.
  unfold fresh_in. induction d as [| [k' v'] d IH]; cbn; auto.
  intros H. apply andb_prop in H. destruct H as [H1 H2].
  apply negb_true_iff in H1. rewrite H1. now rewrite IH.
Qed.

Lemma dict_by_distinct column rows acc :
  distinct_after (map fst acc) (map (fun r => cell (snd r) column) rows)
  = true ->
  fold_left (fun d r => dict_set (cell (snd r) column) (fst r) d) rows acc
  = acc ++ map (entry_of column) rows.
Proof.
  revert acc. induction rows as [| r rows IH]; intros acc H; cbn in *.
  - now rewrite app_nil_r.
  - apply andb_prop in H. destruct H as [H1 H2].
    rewrite (dict_set_fresh _ _ _ H1), IH.
    + rewrite <- app_assoc. reflexivity.
    + rewrite map_app. exact H2.
Qed.

Lemma FakeRecipe_name name w r w' :
  FakeRecipe name w = (inr r, w') -> Recipe.name r = name.
Proof.
  destruct (FakeRecipe_run name w) as (d & p & w1 & ->).
  now intros [= <- _].
Qed.

Lemma FakeCatalogItem_linked entry w item w' :
  FakeCatalogItem (fst entry) "recipe" (snd entry) w = (inr item, w') ->
  linked_to entry item.
Proof.
  destruct (FakeCatalogItem_run (fst entry) "recipe" (snd entry) w)
    as (d & p & pr & av & di & w1 & ->).
  cbn. intros [= <- _]. now repeat split.
Qed.

Lemma _insert_recipes_from_empty f v f' :
  rows_of (db f) T_recipe = [] ->
  _insert_recipes f = (inr v, f') ->
  List.length (rows_of (db f') T_recipe) = 23 /\
  NoDup (ids (rows_of (db f') T_recipe)) /\
  recipes (pools f')
  = Some (map (entry_of "name") (rows_of (db f') T_recipe)).
Proof.
  intros Hempty H.
  destruct (_insert_recipes_captures f v f' H) as [Hpool _].
  unfold _insert_recipes, for_gen in H.
  apply bind_ok in H. destruct H as ([] & f3 & Hloop & H).
  apply bind_ok in Hloop. destruct Hloop as (started & f1 & Hgen & Hloop).
  apply bind_ok in Hloop. destruct Hloop as ([] & f2 & Hret & Hloop).
  apply liftW_ok in Hgen. destruct Hgen as (w & Hgen & ->).
  assert (Hs : started = (tt, map FakeRecipe
                                 RandomDataGenerator.recipe_names))
    by (unfold RandomDataGenerator.recipes, ret in Hgen; congruence).
  subst started. injection Hret as <-.
  change (snd (tt, ?l)) with l in Hloop.
  apply (insert_loop_rows (fun name r => Recipe.name r = name)) in Hloop;
    [| apply FakeRecipe_name].
  destruct Hloop as (inserted & Hrows & HF & Hnodup).
  cbn in Hrows, Hnodup. rewrite Hempty in Hrows, Hnodup. cbn in Hrows.
  assert (Hdb : rows_of (db f') T_recipe = rows_of (db f3) T_recipe)
    by (unbind H; settle; subst; reflexivity).
  rewrite Hrows in Hdb.
  assert (Hnames : map (fun r : Row => cell (snd r) "name") inserted
                   = map VStr RandomDataGenerator.recipe_names).
  { apply (Forall2_map_eq (fun r : Row => cell (snd r) "name") VStr).
    eapply Forall2_impl; [| exact HF].
    intros name row (a & Ha & Hb). cbn in Hb.
    injection Hb as <-. cbn. now rewrite Ha. }
  rewrite Hpool, Hdb. repeat split.
  - rewrite <- (length_map (fun r : Row => cell (snd r) "name")), Hnames.
    reflexivity.
  - rewrite <- Hrows. apply Hnodup. constructor.
  - f_equal. unfold dict_by.
    pose proof (dict_by_distinct "name" inserted []) as D.
    apply D.
    exact (eq_trans (f_equal (distinct_after []) Hnames) eq_refl).
Qed.

Lemma _insert_catalog_items_joined f m v f' :
  recipes (pools f) = Some m ->
  _insert_catalog_items f = (inr v, f') ->
  exists inserted,
    rows_of (db f') T_catalog_item
    = rows_of (db f) T_catalog_item ++ inserted /\
    Forall2 joined m inserted.
Proof.
  intros Hm H. unfold _insert_catalog_items, for_gen in H.
  rewrite (bind_step _ _ _ _ _ (attr_run _ _ _ _ Hm)) in H.
  apply bind_ok in H. destruct H as ([] & f3 & Hloop & H).
  apply bind_ok in Hloop. destruct Hloop as (started & f1 & Hgen & Hloop).
  apply bind_ok in Hloop. destruct Hloop as ([] & f2 & Hret & Hloop).
  apply liftW_ok in Hgen. destruct Hgen as (w & Hgen & ->).
  assert (Hs : started
               = (tt, map (fun item =>
                             FakeCatalogItem (fst item) "recipe" (snd item))
                          m))
    by (unfold RandomDataGenerator.catalog_items, ret in Hgen; congruence).
  subst started. injection Hret as <-.
  change (snd (tt, ?l)) with l in Hloop.
  apply (insert_loop_rows linked_to) in Hloop;
    [| intros b w0 a w'; apply FakeCatalogItem_linked].
  destruct Hloop as (inserted & Hrows & HF & _).
  exists inserted. split.
  - transitivity (rows_of (db f3) T_catalog_item); [| exact Hrows].
    unbind H. settle. subst. reflexivity.
  - eapply Forall2_impl; [| exact HF].
    intros entry row (a & (Hn & Hr & Hp) & Hb). cbn in Hb.
    unfold joined. injection Hb as <-. cbn. rewrite Hn, Hr, Hp. auto.
Qed.

(** C2 (as amended): in every run the recipes generator yields exactly 23
    Recipe records (one per name of its list) and the products generator
    exactly 35 Product records; the catalog-item generator, fed the recipes
    mapping, yields exactly one CatalogItem per entry, attached to that
    entry's recipe.  So the recipes stage, run on an empty recipe table,
    leaves 23 rows with distinct identifiers and a mapping with one entry
    per row, and the catalog items stage inserts one row per entry of the
    mapping, joined to that entry's recipe: 23 rows for the 23 recipes. *)
Theorem catalogue_generators_counts :
  (forall w, exists l w',
      exhaust RandomDataGenerator.recipes w = (inr (tt, l), w') /\
      List.length l = 23 /\
      map Recipe.name l = RandomDataGenerator.recipe_names) /\
  (forall w, exists l w',
      exhaust RandomDataGenerator.products w = (inr (tt, l), w') /\
      List.length l = 35 /\
      map Product.name l = RandomDataGenerator.product_names) /\
  (forall recipes w, exists l w',
      exhaust (RandomDataGenerator.catalog_items recipes) w
      = (inr (tt, l), w') /\
      Forall2 linked_to recipes l) /\
  (forall f v f',
      rows_of (db f) T_recipe = [] ->
      _insert_recipes f = (inr v, f') ->
      List.length (rows_of (db f') T_recipe) = 23 /\
      NoDup (ids (rows_of (db f') T_recipe)) /\
      recipes (pools f')
      = Some (map (entry_of "name") (rows_of (db f') T_recipe))) /\
  (forall f m v f',
      recipes (pools f) = Some m ->
      _insert_catalog_items f = (inr v, f') ->
      exists inserted,
        rows_of (db f') T_catalog_item
        = rows_of (db f) T_catalog_item ++ inserted /\
        Forall2 joined m inserted).
Proof.
  repeat apply conj.
  - intros w. destruct (recipes_yield w) as (l & w' & Hrun & Hn).
    exists l, w'. repeat split; auto.
    rewrite <- (length_map Recipe.name), Hn. reflexivity.
  - intros w. destruct (products_yield w) as (l & w' & Hrun & Hn).
    exists l, w'. repeat split; auto.
    rewrite <- (length_map Product.name), Hn. reflexivity.
  - apply catalog_items_yield.
  - apply _insert_recipes_from_empty.
  - apply _insert_catalog_items_joined.
Qed.

Lemma catalogue_generators_counts_witness :
  exists v f',
    _insert_recipes (new_feeder empty_database 5) = (inr v, f') /\
    List.length (rows_of (db f') T_recipe) = 23.
Proof.
  destruct catalogue_generators_counts as (_ & _ & _ & H & _).
  assert (E : exists v f',
             _insert_recipes (new_feeder empty_database 5) = (inr v, f')).
  { do 2 eexists. vm_compute. reflexivity. }
  destruct E as (v & f' & E). exists v, f'. split; [exact E |].
  exact (proj1 (H (new_feeder empty_database 5) v f' eq_refl E)).
Defined.

(** C2 as stated fails: the recipes generator yields 23 records, not 22,
    and a run on an empty database inserts 23 catalog items. *)
Lemma recipes_yields_twenty_three :
  option_map (@List.length Recipe.t)
             (yielded RandomDataGenerator.recipes sample_world)
  = Some 23 /\
  List.length
    (rows_of (db (snd (populate (new_feeder empty_database 5))))
             T_catalog_item) = 23.
Proof. split; vm_compute; reflexivity. Qed.

(** ** The order of the statements of a run *)

Lemma sent_only_refl K f : sent_only K f f.
Proof. exists []. now rewrite app_nil_r. Qed.

Lemma sent_only_trans K a b c :
  sent_only K a b -> sent_only K b c -> sent_only K a c.
Proof.
  intros (j1 & H1 & F1) (j2 & H2 & F2). exists (j1 ++ j2). split.
  - now rewrite H2, H1, app_assoc.
  - now apply Forall_app.
Qed.

Lemma say_sends_nothing K s : preserves (sent_only K) (say s).
Proof. apply (frame_say (R := sent_only K)). Qed.

(** The last computation of a phase, followed by the next phase. *)
Lemma then_start {A B} R1 R2 (m : M A) (k : A -> M B) :
  (forall f, R2 f f) ->
  preserves R1 m -> (forall a, preserves R2 (k a)) ->
  preserves (then_rel R1 R2) (bind m k).
Proof.
  intros Hrefl Hm Hk f r f' H.
  destruct (bind_run _ _ _ _ _ H) as [(e & Hs & _) | (a & f1 & Hs & Hr)].
  - exists f'. split; [eapply Hm; eauto | apply Hrefl].
  - exists f1. split; [eapply Hm | eapply Hk]; eauto.
Qed.

(** A computation of a phase, followed by the rest of that phase and the
    next one. *)
Lemma then_more {A B} R1 R2 (m : M A) (k : A -> M B) :
  (forall f, R2 f f) ->
  (forall a b c, R1 a b -> R1 b c -> R1 a c) ->
  preserves R1 m -> (forall a, preserves (then_rel R1 R2) (k a)) ->
  preserves (then_rel R1 R2) (bind m k).
Proof.
  intros Hrefl Htrans Hm Hk f r f' H.
  destruct (bind_run _ _ _ _ _ H) as [(e & Hs & _) | (a & f1 & Hs & Hr)].
  - exists f'. split; [eapply Hm; eauto | apply Hrefl].
  - destruct (Hk a _ _ _ Hr) as (fm & H1 & H2).
    exists fm. split; [| exact H2].
    eapply Htrans; [eapply Hm; eauto | exact H1].
Qed.

(** The same with a first phase that must have sent [mark]. *)
Lemma after_mark_more {A B} K mark R2 (m : M A) (k : A -> M B) :
  (forall f, R2 f f) ->
  preserves (sent_only K) m ->
  (forall a, preserves (after_mark K mark R2) (k a)) ->
  preserves (after_mark K mark R2) (bind m k).
Proof.
  intros Hrefl Hm Hk f r f' H.
  destruct (bind_run _ _ _ _ _ H) as [(e & Hs & _) | (a & f1 & Hs & Hr)].
  - destruct (Hm _ _ _ Hs) as (j & Hj & Fj).
    exists f', j. repeat split; auto. intros Hn. now contradiction Hn.
  - destruct (Hm _ _ _ Hs) as (j & Hj & Fj).
    destruct (Hk a _ _ _ Hr) as (between & sent & Hb & Fs & H2 & Hmark).
    exists between, (j ++ sent). repeat split; auto.
    + now rewrite Hb, Hj, app_assoc.
    + now apply Forall_app.
    + intros Hn. apply in_or_app. right. auto.
Qed.

Lemma after_mark_last {A B} K mark R2 (m : M A) (k : A -> M B) :
  (forall f, R2 f f) ->
  preserves (sent_only K) m ->
  (forall f v f1,
     m f = (inr v, f1) ->
     exists sent,
       journal f1 = journal f ++ sent /\ Forall K sent /\ In mark sent) ->
  (forall a, preserves R2 (k a)) ->
  preserves (after_mark K mark R2) (bind m k).
Proof.
  intros Hrefl Hm Hmark Hk f r f' H.
  destruct (bind_run _ _ _ _ _ H) as [(e & Hs & _) | (a & f1 & Hs & Hr)].
  - destruct (Hm _ _ _ Hs) as (j & Hj & Fj).
    exists f', j. repeat split; auto. intros Hn. now contradiction Hn.
  - destruct (Hmark _ _ _ Hs) as (j & Hj & Fj & Hin).
    exists f1, j. repeat split; auto. eapply Hk; eauto.
Qed.

Lemma late_then_closing_refl f : late_then_closing f f.
Proof.
  exists [], []. cbn. rewrite app_nil_r.
  repeat split; auto; try (intros H; now contradiction H).
Qed.

Lemma late_more {A B} (m : M A) (k : A -> M B) :
  preserves (sent_only late_insertion) m ->
  (forall a, preserves late_then_closing (k a)) ->
  preserves late_then_closing (bind m k).
Proof.
  intros Hm Hk f r f' H.
  destruct (bind_run _ _ _ _ _ H) as [(e & Hs & _) | (a & f1 & Hs & Hr)].
  - destruct (Hm _ _ _ Hs) as (j & Hj & Fj).
    exists j, []. rewrite app_nil_r.
    repeat split; auto; try (intros Hn; now contradiction Hn).
  - destruct (Hm _ _ _ Hs) as (j & Hj & Fj).
    destruct (Hk a _ _ _ Hr) as (late & final & Hl & Fl & Ff & Hsel).
    exists (j ++ late), final. repeat split; auto.
    + now rewrite Hl, Hj, !app_assoc.
    + now apply Forall_app.
    + intros Hn. apply in_or_app. right. auto.
Qed.

Lemma _insert_roles_reads_back f v f' :
  _insert_roles f = (inr v, f') ->
  exists sent,
    journal f' = journal f ++ sent /\ Forall late_insertion sent /\
    In (SelectFrom ["id"] T_role) sent.
Proof.
  intros H. unfold _insert_roles in H.
  apply bind_ok in H. destruct H as ([] & f1 & Hloop & H).
  assert (L : sent_only late_insertion f f1).
  { revert Hloop. apply (frame_for_gen (R := sent_only late_insertion)).
    - intros s. apply frame_ret.
    - intros a. apply frame_insert. unfold late_insertion, fills. tauto. }
  destruct L as (j & Hj & Fj).
  unbind H. settle. subst. cbn.
  exists (j ++ [SelectFrom ["id"] T_role]). repeat split.
  - now rewrite Hj, app_assoc.
  - apply Forall_app. split; auto. constructor; auto.
    unfold late_insertion, fills. tauto.
  - apply in_or_app. right. now left.
Qed.

Lemma _insert_user_accounts_reads_back f v f' :
  _insert_user_accounts f = (inr v, f') ->
  exists sent,
    journal f' = journal f ++ sent /\ Forall early_insertion sent /\
    In (SelectFrom ["id"; "member_id"] T_user_account) sent.
Proof.
  intros H. unfold _insert_user_accounts in H.
  apply bind_ok in H. destruct H as (member_ids & f0 & Hattr & H).
  apply attr_ok in Hattr. destruct Hattr as [_ ->].
  apply bind_ok in H. destruct H as (size & f0 & Hsize & H).
  apply self_size_ok in Hsize. destruct Hsize as [_ ->].
  apply bind_ok in H. destruct H as ([] & f1 & Hloop & H).
  assert (L : sent_only early_insertion f f1).
  { revert Hloop. apply (frame_for_gen (R := sent_only early_insertion)).
    - intros s. apply frame_assign.
    - intros a. apply frame_insert. unfold early_insertion, fills. tauto. }
  destruct L as (j & Hj & Fj).
  unbind H. settle. subst. cbn.
  exists (j ++ [SelectFrom ["id"; "member_id"] T_user_account]).
  repeat split.
  - now rewrite Hj, app_assoc.
  - apply Forall_app. split; auto. constructor; auto.
    unfold early_insertion, fills. tauto.
  - apply in_or_app. right. now left.
Qed.

Lemma closing_after_roles {B} (rest : M B) :
  preserves (sent_only closing) rest ->
  preserves late_then_closing (_insert_roles ;;; rest).
Proof.
  intros Hrest f r f' H.
  destruct (bind_run _ _ _ _ _ H) as [(e & Hs & _) | (a & f1 & Hs & Hr)].
  - assert (L : sent_only late_insertion f f').
    { revert Hs. apply (_insert_roles_frame (R := sent_only late_insertion)).
      unfold late_insertion. tauto. }
    destruct L as (j & Hj & Fj).
    exists j, []. rewrite app_nil_r.
    repeat split; auto; try (intros Hn; now contradiction Hn).
  - destruct (_insert_roles_reads_back _ _ _ Hs) as (j & Hj & Fj & Hsel).
    destruct (Hrest _ _ _ Hr) as (final & Hf & Ff).
    exists j, final. repeat split; auto.
    now rewrite Hf, Hj, app_assoc.
Qed.

Lemma populate_phases :
  preserves
    (after_mark early_insertion
       (SelectFrom ["id"; "member_id"] T_user_account)
       (then_rel (sent_only links_account) late_then_closing))
    populate.
Proof.
  assert (Hrefl : forall f,
             then_rel (sent_only links_account) late_then_closing f f).
  { intros f. exists f. split;
      [apply sent_only_refl | apply late_then_closing_refl]. }
  unfold populate.
  apply after_mark_more; [exact Hrefl | apply say_sends_nothing | intros _].
  apply after_mark_more; [exact Hrefl | apply say_sends_nothing | intros _].
  apply after_mark_more; [exact Hrefl | | intros _].
  { apply (_insert_addresses_frame (R := sent_only early_insertion)).
    unfold early_insertion. tauto. }
  apply after_mark_more; [exact Hrefl | apply say_sends_nothing | intros _].
  apply after_mark_more; [exact Hrefl | | intros _].
  { apply (_insert_pizzerias_frame (R := sent_only early_insertion)).
    unfold early_insertion. tauto. }
  apply after_mark_more; [exact Hrefl | apply say_sends_nothing | intros _].
  apply after_mark_more; [exact Hrefl | | intros _].
  { apply (_insert_members_frame (R := sent_only early_insertion)).
    unfold early_insertion. tauto. }
  apply after_mark_more; [exact Hrefl | apply say_sends_nothing | intros _].
  apply after_mark_last; [exact Hrefl | | | intros _].
  { apply (_insert_user_accounts_frame (R := sent_only early_insertion)).
    unfold early_insertion. tauto. }
  { apply _insert_user_accounts_reads_back. }
  apply then_more; [apply late_then_closing_refl | apply sent_only_trans
                   | apply say_sends_nothing | intros _].
  apply then_start; [apply late_then_closing_refl | | intros _].
  { apply (_update_members_user_account_frame
             (R := sent_only links_account)). auto. }
  apply late_more; [apply say_sends_nothing | intros _].
  apply late_more; [| intros _].
  { apply (_insert_recipes_frame (R := sent_only late_insertion)).
    unfold late_insertion. tauto. }
  apply late_more; [apply say_sends_nothing | intros _].
  apply late_more; [| intros _].
  { apply (_insert_products_frame (R := sent_only late_insertion)).
    unfold late_insertion. tauto. }
  apply late_more; [apply say_sends_nothing | intros _].
  apply late_more; [| intros _].
  { apply (_insert_catalog_items_frame (R := sent_only late_insertion)).
    unfold late_insertion. tauto. }
  apply late_more; [apply say_sends_nothing | intros _].
  apply late_more; [| intros _].
  { apply (_insert_order_status_frame (R := sent_only late_insertion)).
    unfold late_insertion. tauto. }
  apply late_more; [apply say_sends_nothing | intros _].
  apply late_more; [| intros _].
  { apply (_insert_taken_orders_frame (R := sent_only late_insertion)).
    unfold late_insertion. tauto. }
  apply late_more; [apply say_sends_nothing | intros _].
  apply late_more; [| intros _].
  { apply (_insert_bills_frame (R := sent_only late_insertion)).
    unfold late_insertion. tauto. }
  apply late_more; [apply say_sends_nothing | intros _].
  apply late_more; [| intros _].
  { apply (_insert_keywords_frame (R := sent_only late_insertion)).
    unfold late_insertion. tauto. }
  apply late_more; [apply say_sends_nothing | intros _].
  apply late_more; [| intros _].
  { apply (_insert_permissions_frame (R := sent_only late_insertion)).
    unfold late_insertion. tauto. }
  apply late_more; [apply say_sends_nothing | intros _].
  apply closing_after_roles.
  apply (frame_bind (R := sent_only closing)); [apply frame_say | intros _].
  apply (frame_bind (R := sent_only closing)); [| intros _].
  { apply (_update_members_role_frame (R := sent_only closing)).
    unfold closing. tauto. }
  apply (frame_bind (R := sent_only closing)); [apply frame_say | intros _].
  apply (frame_bind (R := sent_only closing)); [| intros _].
  { apply (_insert_relations_many_to_many_frame (R := sent_only closing)).
    unfold closing. tauto. }
  apply frame_say.
Qed.

(** C3 (as amended): in every run of [populate], complete or cut short by
    an error, the statements reach the gateway in four successive groups:
    the insertions and read-backs of addresses, pizzerias, members and user
    accounts; then the updates that attach user_account_id to the members;
    then the insertions and read-backs of recipes, products, catalog items,
    order statuses, taken orders, bills, keywords, permissions and roles;
    then the role assignment and the association tables.  So the role_id
    update runs only after every insertion stage, and only once the role
    identifiers have been read back, whereas the user_account_id update
    runs right after the user accounts stage, once the user accounts have
    been read back and before the remaining insertion stages. *)
Theorem populate_orders_its_statements (f : Feeder) :
  exists early linking late final,
    journal (snd (populate f))
    = journal f ++ early ++ linking ++ late ++ final /\
    Forall early_insertion early /\
    Forall links_account linking /\
    Forall late_insertion late /\
    Forall closing final /\
    (linking <> [] ->
     In (SelectFrom ["id"; "member_id"] T_user_account) early) /\
    (final <> [] -> In (SelectFrom ["id"] T_role) late).
Proof.
  destruct (populate f) as [r f'] eqn:E.
  destruct (populate_phases _ _ _ E)
    as (f1 & early & He & Fe & (f2 & (linking & Hl & Fl)
        & late & final & Hf & Fla & Ff & Hsel) & Hmark).
  exists early, linking, late, final. cbn [snd]. repeat apply conj; auto.
  - now rewrite Hf, Hl, He, <- !app_assoc.
  - intros Hn. apply Hmark. rewrite Hf, Hl. intros Heq.
    rewrite <- app_assoc in Heq.
    rewrite <- (app_nil_r (journal f1)) in Heq at 2.
    apply app_inv_head in Heq.
    apply app_eq_nil in Heq. destruct Heq as [Heq _]. contradiction.
Qed.

(** C3 as stated fails: in a complete run for one row, the user_account_id
    update is the thirteenth statement, sent before the first recipe is
    inserted and long before the roles are inserted and read back. *)
Lemma account_update_precedes_role_insertion :
  let run := populate (new_feeder empty_database 1) in
  fst run = inr tt /\
  nth_error (journal (snd run)) 12
  = Some (UpdateSet T_member "user_account_id" "ua_id" "member_id") /\
  nth_error (journal (snd run)) 13
  = Some (InsertInto T_recipe ["name"; "description"; "is_public"]) /\
  nth_error (journal (snd run)) 181 = Some (InsertInto T_role ["name"]) /\
  nth_error (journal (snd run)) 186 = Some (SelectFrom ["id"] T_role).
Proof. vm_compute. repeat split. Qed.

(** ** The association populator *)

Lemma attempts_app rel a b :
  attempts rel (a ++ b) = attempts rel a + attempts rel b.
Proof. unfold attempts. now rewrite filter_app, length_app. Qed.

Lemma attempts_repeat rel r names k :
  attempts rel (repeat (InsertValues r names) k)
  = if Relation_eqb r rel then k else 0.
Proof.
  unfold attempts. induction k as [| k IH]; cbn.
  - now destruct (Relation_eqb r rel).
  - destruct (Relation_eqb r rel); cbn; auto.
Qed.

Lemma tried_then f f1 f' r s1 s2 :
  tried f (inr tt) f1 s1 -> tried f1 r f' s2 -> tried f r f' (s1 ++ s2).
Proof.
  intros (Hp1 & Hf1 & Hz1 & Hj1 & Ha1 & _ & Hl1 & Hx1 & _)
         (Hp2 & Hf2 & Hz2 & Hj2 & Ha2 & Hn2 & Hl2 & Hx2 & Hg2).
  unfold tried. repeat apply conj.
  - congruence.
  - congruence.
  - congruence.
  - now rewrite Hj2, Hj1, app_assoc.
  - now apply Forall_app.
  - exact Hn2.
  - intros rel. rewrite attempts_app.
    specialize (Hl1 rel). specialize (Hl2 rel). lia.
  - intros i Hi Hfault. rewrite length_app in Hi.
    destruct (Nat.lt_ge_cases i (List.length s1)) as [Hlt | Hge].
    + specialize (Hx1 i Hlt Hfault). discriminate.
    + apply (Hx2 (i - List.length s1)); [lia |].
      rewrite Hf1, Hj1, length_app.
      replace (List.length (journal f) + List.length s1
               + (i - List.length s1))
        with (List.length (journal f) + i) by lia.
      exact Hfault.
  - intros Hready Hquiet. apply Hg2.
    + now rewrite Hp1.
    + intros i Hi. rewrite Hf1. apply Hquiet.
      rewrite Hj1, length_app in Hi. lia.
Qed.

Lemma tried_nothing f : tried f (inr tt) f [].
Proof.
  unfold tried. rewrite app_nil_r. repeat apply conj; auto.
  - discriminate.
  - intros rel. lia.
  - intros i Hi. cbn in Hi. lia.
Qed.

Lemma filled_cons {A} (o : option (list A)) l :
  filled o -> o = Some l -> l <> [].
Proof. intros H ->. destruct l; [contradiction | discriminate]. Qed.

Lemma Relation_eqb_eq a b : Relation_eqb a b = true <-> a = b.
Proof. destruct a, b; cbn; split; intros H; congruence. Qed.

Lemma Relation_eqb_sym a b : Relation_eqb a b = Relation_eqb b a.
Proof. destruct a, b; reflexivity. Qed.

Lemma links_of_set_links r links d r' :
  links_of (set_links r links d) r'
  = if Relation_eqb r r' then links else links_of d r'.
Proof. reflexivity. Qed.

(** One attempt: the callback under its [try]. *)
Lemma attempt_tried {A B} (ga : Pools -> option (list A)) na
    (gb : Pools -> option (list B)) nb (gen : list A -> list B -> G Dict)
    rel names :
  (forall a b w r w',
     gen a b w = (r, w') ->
     (exists parameters cells,
        r = inr parameters /\
        bind_parameters names parameters = Some cells) \/
     (r = inl IndexError /\ (a = [] \/ b = []))) ->
  (forall p, ready p -> filled (ga p) /\ filled (gb p)) ->
  forall f r f',
    try_pass is_integrity_error
      (a <- attr ga na ;;
       b <- attr gb nb ;;
       parameters <- liftW (gen a b) ;;
       insert (InsertValues rel names) parameters) f = (r, f') ->
    exists k,
      k <= 1 /\ (r = inr tt -> k = 1) /\
      tried f r f' (repeat (InsertValues rel names) k).
Proof.
  intros Hgen Hready f r f' H. unfold try_pass in H.
  match type of H with
  | context [match ?c f with _ => _ end] => destruct (c f) as [r0 f0] eqn:E
  end.
  (* the first attribute *)
  unfold attr at 1 in E. unfold bind at 1 in E.
  destruct (ga (pools f)) as [a |] eqn:Ea.
  2:{ injection E as <- <-. cbn in H. injection H as <- <-.
      exists 0. split; [lia |]. split; [discriminate |].
      unfold tried. cbn [repeat]. rewrite app_nil_r.
      repeat apply conj; auto; try discriminate.
      - intros rel0. lia.
      - intros i Hi. cbn in Hi. lia.
      - intros Hr _. apply Hready in Hr. rewrite Ea in Hr.
        destruct Hr as [[] _]. }
  (* the second attribute *)
  unfold attr at 1 in E. unfold bind at 1 in E.
  destruct (gb (pools f)) as [b |] eqn:Eb.
  2:{ injection E as <- <-. cbn in H. injection H as <- <-.
      exists 0. split; [lia |]. split; [discriminate |].
      unfold tried. cbn [repeat]. rewrite app_nil_r.
      repeat apply conj; auto; try discriminate.
      - intros rel0. lia.
      - intros i Hi. cbn in Hi. lia.
      - intros Hr _. apply Hready in Hr. rewrite Eb in Hr.
        destruct Hr as [_ []]. }
  (* the draw of the parameters *)
  destruct (bind_run _ _ _ _ _ E) as [(e & Hs & ->) | (ps & f1 & Hs & Hq)];
    apply liftW_ok in Hs; destruct Hs as (w & Hs & Hw).
  { destruct (Hgen _ _ _ _ _ Hs) as [(? & ? & ? & _) | (He & Hempty)];
      [discriminate |].
    injection He as ->. cbn in H. injection H as <- <-. subst f0.
    exists 0. split; [lia |]. split; [discriminate |].
    unfold tried. cbn [repeat]. rewrite app_nil_r.
    repeat apply conj; auto; try discriminate.
    - intros rel0. cbn. lia.
    - intros i Hi. cbn in Hi. lia.
    - intros Hr _. apply Hready in Hr. destruct Hr as [Hra Hrb].
      pose proof (filled_cons _ _ Hra Ea). pose proof (filled_cons _ _ Hrb Eb).
      tauto. }
  destruct (Hgen _ _ _ _ _ Hs) as [(ps' & cells & Hps & Hcells) | (He & _)];
    [| discriminate].
  injection Hps as <-. subst f1.
  (* the insertion *)
  unfold insert in Hq.
  destruct (bind_run _ _ _ _ _ Hq) as [(e & Hx & ->) | (rows & f2 & Hx & Hret)];
    apply query_inv in Hx;
    destruct Hx as (Hj & Hf & Hz & Hp & _ & Hcase);
    cbn in Hj, Hf, Hz, Hp;
    exists 1; (split; [lia |]).
  - destruct Hcase as [(Hfault & He & Hdb) | [(Hfault & e' & Hex & He & Hdb)
                                           | (_ & ? & ? & _ & ? & _)]];
      [| | discriminate].
    + injection He as ->. cbn in H. injection H as <- <-.
      split; [discriminate |].
      unfold tried. cbn [repeat]. repeat apply conj; auto.
      * repeat constructor.
      * discriminate.
      * intros rel0. rewrite Hdb. cbn. lia.
      * intros Hr Hquiet. cbn in Hfault. rewrite Hquiet in Hfault by lia.
        discriminate.
    + injection He as ->.
      assert (e' = IntegrityError) as ->.
      { destruct Hex as [Hex | (-> & _)]; [| reflexivity].
        cbn in Hex. rewrite Hcells in Hex.
        destruct (existsb _ _); [| discriminate]. now injection Hex as <-. }
      cbn in H. injection H as <- <-.
      split; [reflexivity |].
      unfold tried. cbn [repeat]. repeat apply conj; auto.
      * repeat constructor.
      * discriminate.
      * intros rel0. rewrite Hdb. cbn. lia.
      * intros i Hi Hbad. cbn in Hi. assert (i = 0) by lia. subst i.
        rewrite Nat.add_0_r in Hbad. cbn in Hfault. congruence.
  - destruct Hcase as [(_ & ? & _) | [(_ & ? & _ & ? & _)
                                    | (Hfault & rows' & d & Hex & _ & Hdb)]];
      [discriminate | discriminate |].
    injection Hret as <- <-. cbn in H. injection H as <- <-.
    split; [reflexivity |].
    cbn in Hex. rewrite Hcells in Hex.
    destruct (existsb _ _); [discriminate |]. injection Hex as _ <-.
    unfold tried. cbn [repeat]. repeat apply conj; auto.
    + repeat constructor.
    + discriminate.
    + intros rel0. rewrite Hdb, links_of_set_links.
      unfold attempts. cbn.
      destruct (Relation_eqb rel rel0) eqn:Erel; cbn; [| lia].
      apply Relation_eqb_eq in Erel. subst rel0.
      rewrite length_app. cbn. lia.
    + intros i Hi Hbad. cbn in Hi. assert (i = 0) by lia. subst i.
      rewrite Nat.add_0_r in Hbad. cbn in Hfault. congruence.
Qed.

Lemma choice_nil {A} w : @choice A [] w = (inl IndexError, w).
Proof. reflexivity. Qed.

Lemma randint_run a b w :
  randint a b w
  = (inr (a + Z.of_nat (rand w (cursor w) mod Z.to_nat (b - a + 1)))%Z,
     advance w).
Proof. reflexivity. Qed.

Lemma uniform_run w : uniform w = (inr (rand w (cursor w)), advance w).
Proof. reflexivity. Qed.

Ltac gen_shape H :=
  cbn [map] in H; unfold bind in H;
  repeat first [ rewrite choice_run in H | rewrite choice_nil in H
               | rewrite randint_run in H | rewrite uniform_run in H
               | progress cbv beta iota in H ];
  unfold ret in H;
  match type of H with
  | (?x, _) = (?r, _) => replace r with x by congruence
  end;
  first [ left; do 2 eexists; split; reflexivity
        | right; split; [reflexivity | auto] ].

Lemma has_permission_to_shape a b w r w' :
  RandomDataGenerator.has_permission_to a b w = (r, w') ->
  (exists parameters cells,
     r = inr parameters /\
     bind_parameters ["role_id"; "permission_id"] parameters = Some cells) \/
  (r = inl IndexError /\ (a = [] \/ b = [])).
Proof.
  intros H. unfold RandomDataGenerator.has_permission_to in H.
  destruct a as [| x a], b as [| y b]; gen_shape H.
Qed.

Lemma contains_item_shape a b w r w' :
  RandomDataGenerator.contains_item a b w = (r, w') ->
  (exists parameters cells,
     r = inr parameters /\
     bind_parameters ["order_id"; "item_id"; "quantity"; "unit_price_ati"]
       parameters = Some cells) \/
  (r = inl IndexError /\ (a = [] \/ b = [])).
Proof.
  intros H. unfold RandomDataGenerator.contains_item in H.
  destruct a as [| x a], b as [| y b]; gen_shape H.
Qed.

Lemma requires_product_shape (a : list (Value * Z)) b w r w' :
  RandomDataGenerator.requires_product (map snd a) b w = (r, w') ->
  (exists parameters cells,
     r = inr parameters /\
     bind_parameters ["recipe_id"; "product_id"; "gram_amount"] parameters
     = Some cells) \/
  (r = inl IndexError /\ (a = [] \/ b = [])).
Proof.
  intros H. unfold RandomDataGenerator.requires_product in H.
  destruct a as [| x a], b as [| y b]; gen_shape H.
Qed.

Lemma has_product_in_stock_shape a b w r w' :
  RandomDataGenerator.has_product_in_stock a b w = (r, w') ->
  (exists parameters cells,
     r = inr parameters /\
     bind_parameters ["pizzeria_id"; "product_id"; "quantity"] parameters
     = Some cells) \/
  (r = inl IndexError /\ (a = [] \/ b = [])).
Proof.
  intros H. unfold RandomDataGenerator.has_product_in_stock in H.
  destruct a as [| x a], b as [| y b]; gen_shape H.
Qed.

Lemma has_keyword_shape a b w r w' :
  RandomDataGenerator.has_keyword a b w = (r, w') ->
  (exists parameters cells,
     r = inr parameters /\
     bind_parameters ["item_id"; "keyword_id"] parameters = Some cells) \/
  (r = inl IndexError /\ (a = [] \/ b = [])).
Proof.
  intros H. unfold RandomDataGenerator.has_keyword in H.
  destruct a as [| x a], b as [| y b]; gen_shape H.
Qed.

Lemma _insert_has_permission_to_attempt :
  attempt_on R_has_permission_to ["role_id"; "permission_id"]
             _insert_has_permission_to.
Proof.
  unfold attempt_on, _insert_has_permission_to.
  apply (attempt_tried role_ids "role_ids" permission_ids "permission_ids"
           RandomDataGenerator.has_permission_to).
  - apply has_permission_to_shape.
  - unfold ready. tauto.
Qed.

Lemma _insert_contains_item_attempt :
  attempt_on R_contains_item
             ["order_id"; "item_id"; "quantity"; "unit_price_ati"]
             _insert_contains_item.
Proof.
  unfold attempt_on, _insert_contains_item.
  apply (attempt_tried taken_order_ids "taken_order_ids"
           catalog_item_ids "catalog_item_ids"
           RandomDataGenerator.contains_item).
  - apply contains_item_shape.
  - unfold ready. tauto.
Qed.

Lemma _insert_requires_product_attempt :
  attempt_on R_requires_product ["recipe_id"; "product_id"; "gram_amount"]
             _insert_requires_product.
Proof.
  unfold attempt_on, _insert_requires_product.
  apply (attempt_tried recipes "recipes" product_ids "product_ids"
           (fun a b => RandomDataGenerator.requires_product (map snd a) b)).
  - apply requires_product_shape.
  - unfold ready. tauto.
Qed.

Lemma _insert_has_product_in_stock_attempt :
  attempt_on R_has_product_in_stock ["pizzeria_id"; "product_id"; "quantity"]
             _insert_has_product_in_stock.
Proof.
  unfold attempt_on, _insert_has_product_in_stock.
  apply (attempt_tried pizzeria_ids "pizzeria_ids" product_ids "product_ids"
           RandomDataGenerator.has_product_in_stock).
  - apply has_product_in_stock_shape.
  - unfold ready. tauto.
Qed.

Lemma _insert_has_keyword_attempt :
  attempt_on R_has_keyword ["item_id"; "keyword_id"] _insert_has_keyword.
Proof.
  unfold attempt_on, _insert_has_keyword.
  apply (attempt_tried catalog_item_ids "catalog_item_ids"
           keyword_ids "keyword_ids" RandomDataGenerator.has_keyword).
  - apply has_keyword_shape.
  - unfold ready. tauto.
Qed.

(** The loop of attempts on one relation. *)
Lemma attempts_loop rel names callback (xs : list nat) :
  attempt_on rel names callback ->
  forall f r f',
    for_each xs (fun _ => try_pass is_integrity_error callback) f = (r, f') ->
    exists k,
      k <= List.length xs /\ (r = inr tt -> k = List.length xs) /\
      tried f r f' (repeat (InsertValues rel names) k).
Proof.
  intros Hc. induction xs as [| x xs IH]; intros f r f' H; cbn in H.
  - injection H as <- <-. exists 0.
    split; [lia |]. split; [reflexivity | apply tried_nothing].
  - destruct (bind_run _ _ _ _ _ H) as [(e & Hs & ->) | ([] & f1 & Hs & Hr)].
    + destruct (Hc _ _ _ Hs) as (k & Hk & _ & Ht).
      exists k. cbn. split; [lia |]. split; [discriminate | exact Ht].
    + destruct (Hc _ _ _ Hs) as (k & Hk & Hone & Ht).
      rewrite (Hone eq_refl) in Ht.
      destruct (IH _ _ _ Hr) as (k' & Hk' & Hall & Ht').
      exists (1 + k'). cbn [List.length]. split; [lia |]. split.
      * intros Hok. rewrite (Hall Hok). reflexivity.
      * rewrite repeat_app. eapply tried_then; eauto.
Qed.

(** The loop of a relation, followed by the loops of other relations. *)
Lemma tried_each_cons rel names callback rels (rest : M unit) :
  attempt_on rel names callback ->
  existsb (Relation_eqb rel) rels = false ->
  (forall f r f', rest f = (r, f') -> tried_each rels f r f') ->
  forall f r f',
    ((size <- self_size ;;
      for_each (range size) (fun _ => try_pass is_integrity_error callback))
     ;;; rest) f = (r, f') ->
    tried_each (rel :: rels) f r f'.
Proof.
  intros Hc Hnew Hrest f r f' H.
  assert (Hblock : forall r1 f1,
             (size <- self_size ;;
              for_each (range size)
                (fun _ => try_pass is_integrity_error callback)) f
             = (r1, f1) ->
             exists k,
               k <= Z.to_nat (size f) /\
               (r1 = inr tt -> k = Z.to_nat (size f)) /\
               tried f r1 f1 (repeat (InsertValues rel names) k)).
  { intros r1 f1 Hb.
    rewrite (bind_step _ _ _ _ _ (self_size_run f)) in Hb.
    destruct (attempts_loop rel names callback _ Hc _ _ _ Hb)
      as (k & Hk & Hall & Ht).
    unfold range in Hk, Hall. rewrite length_seq in Hk, Hall. eauto. }
  destruct (bind_run _ _ _ _ _ H) as [(e & Hs & ->) | ([] & f1 & Hs & Hr)].
  - destruct (Hblock _ _ Hs) as (k & Hk & _ & Ht).
    exists (repeat (InsertValues rel names) k).
    split; [exact Ht |]. split.
    + intros rel0. rewrite attempts_repeat. cbn [existsb].
      rewrite (Relation_eqb_sym rel0 rel).
      destruct (Relation_eqb rel rel0); cbn; [exact Hk | lia].
    + discriminate.
  - destruct (Hblock _ _ Hs) as (k & Hk & Hall & Ht).
    rewrite (Hall eq_refl) in Ht. clear k Hk Hall.
    destruct (Hrest _ _ _ Hr) as (sent & Ht' & Hle & Heq).
    assert (Hsize : size f1 = size f) by (destruct Ht as (_ & _ & ? & _); auto).
    rewrite Hsize in Hle, Heq.
    exists (repeat (InsertValues rel names) (Z.to_nat (size f)) ++ sent).
    split; [| split].
    + eapply tried_then; eauto.
    + intros rel0. rewrite attempts_app, attempts_repeat. cbn [existsb].
      rewrite (Relation_eqb_sym rel0 rel). specialize (Hle rel0).
      destruct (Relation_eqb rel rel0) eqn:E; cbn.
      * apply Relation_eqb_eq in E. subst rel0. rewrite Hnew in Hle. lia.
      * exact Hle.
    + intros Hok rel0 Hin. rewrite attempts_app, attempts_repeat.
      cbn [existsb] in Hin. rewrite (Relation_eqb_sym rel0 rel) in Hin.
      specialize (Hle rel0).
      destruct (Relation_eqb rel rel0) eqn:E; cbn in *.
      * apply Relation_eqb_eq in E. subst rel0. rewrite Hnew in Hle. lia.
      * now apply Heq.
Qed.

Lemma _insert_relations_many_to_many_tried f r f' :
  _insert_relations_many_to_many f = (r, f') ->
  tried_each relations f r f'.
Proof.
  unfold _insert_relations_many_to_many, callbacks, relations.
  cbn [for_each].
  apply (tried_each_cons _ _ _ _ _ _insert_has_permission_to_attempt);
    [reflexivity |].
  apply (tried_each_cons _ _ _ _ _ _insert_contains_item_attempt);
    [reflexivity |].
  apply (tried_each_cons _ _ _ _ _ _insert_requires_product_attempt);
    [reflexivity |].
  apply (tried_each_cons _ _ _ _ _ _insert_has_product_in_stock_attempt);
    [reflexivity |].
  apply (tried_each_cons _ _ _ _ _ _insert_has_keyword_attempt);
    [reflexivity |].
  intros f0 r0 f0' H. injection H as <- <-.
  exists []. split; [| split].
  - apply tried_nothing.
  - intros rel. cbn. lia.
  - intros _ rel Hin. discriminate.
Qed.

(** C5: whatever the feeder and the batch size K, the association
    populator sends only insertions into the association tables; on each
    relation it makes at most K attempts, exactly K when it runs to its
    end, and adds at most one row per attempt, hence at most K rows.  It
    never ends on an integrity error: such an error, whether it comes from
    a key taken twice or from another constraint the database enforces,
    is caught and the loop goes on, so that the populator completes
    whenever the gateway does not fail otherwise and the attributes it
    draws from are filled.  A failure of the gateway that is not an
    integrity error ends the run with that error. *)
Theorem association_populator_attempts (f : Feeder) :
  let r := fst (_insert_relations_many_to_many f) in
  let f' := snd (_insert_relations_many_to_many f) in
  let K := Z.to_nat (size f) in
  exists sent,
    journal f' = journal f ++ sent /\
    Forall associates sent /\
    (forall rel,
       attempts rel sent <= K /\
       (r = inr tt -> attempts rel sent = K) /\
       List.length (links_of (db f') rel)
       <= List.length (links_of (db f) rel) + attempts rel sent /\
       List.length (links_of (db f') rel)
       <= List.length (links_of (db f) rel) + K) /\
    r <> inl IntegrityError /\
    (forall i,
       i < List.length sent ->
       fault f (List.length (journal f) + i) = true ->
       r = inl OperationalError) /\
    (ready (pools f) ->
     (forall i, List.length (journal f) <= i -> fault f i = false) ->
     r = inr tt).
Proof.
  destruct (_insert_relations_many_to_many f) as [r f'] eqn:E.
  cbn [fst snd].
  destruct (_insert_relations_many_to_many_tried _ _ _ E)
    as (sent & (_ & _ & _ & Hj & Ha & Hn & Hl & Hx & Hg) & Hle & Heq).
  exists sent. split; [exact Hj |]. split; [exact Ha |].
  split; [| repeat apply conj; auto].
  intros rel. specialize (Hle rel). specialize (Hl rel).
  assert (Hin : existsb (Relation_eqb rel) relations = true)
    by (destruct rel; reflexivity).
  rewrite Hin in Hle. repeat apply conj; auto; lia.
Qed.

(** Conflicts do happen and do not stop the loops: with a random source
    that always draws the same pair, a run for three rows makes three
    attempts on each relation and each table ends with a single row. *)
Lemma conflicts_do_not_stop_the_loops :
  let run := populate colliding_feeder in
  fst run = inr tt /\
  map (fun rel => attempts rel (journal (snd run))) relations
  = [3; 3; 3; 3; 3] /\
  map (fun rel => List.length (links_of (db (snd run)) rel)) relations
  = [1; 1; 1; 1; 1].
Proof. vm_compute. repeat split. Qed.

(** C5 as stated fails on its last clause: an error of the database that
    is not a uniqueness conflict does not abort the run when it is an
    integrity error.  Here the database rejects every insertion for
    another constraint than the key (the tables stay empty, so no key is
    taken twice): the populator makes its two attempts on each relation
    and completes. *)
Lemma rejected_rows_do_not_stop_the_loops :
  let run := _insert_relations_many_to_many rejecting_feeder in
  fst run = inr tt /\
  map (fun rel => attempts rel (journal (snd run))) relations
  = [2; 2; 2; 2; 2] /\
  map (fun rel => List.length (links_of (db (snd run)) rel)) relations
  = [0; 0; 0; 0; 0].
Proof. vm_compute. repeat split. Qed.

(** ** The role assignment *)

Lemma lookup_set_cell_same d k v : lookup (set_cell d k v) k = Some v.
Proof.
  induction d as [| [k' v'] d IH]; cbn.
  - now rewrite String.eqb_refl.
  - destruct (String.eqb k k') eqn:E; cbn; rewrite E; auto.
Qed.

Lemma lookup_set_cell_other d k v c :
  c <> k -> lookup (set_cell d k v) c = lookup d c.
Proof.
  intros Hc. induction d as [| [k' v'] d IH]; cbn.
  - destruct (String.eqb_spec c k); [contradiction | reflexivity].
  - destruct (String.eqb_spec k k') as [<- | Hk]; cbn.
    + destruct (String.eqb_spec c k); [contradiction | reflexivity].
    + now rewrite IH.
Qed.

Lemma cell_set_cell_same d k v : cell (set_cell d k v) k = v.
Proof. unfold cell. now rewrite lookup_set_cell_same. Qed.

Lemma cell_set_cell_other d k v c :
  c <> k -> cell (set_cell d k v) c = cell d c.
Proof. intros H. unfold cell. now rewrite lookup_set_cell_other. Qed.

Lemma Forall2_same {A} (R : A -> A -> Prop) l :
  (forall a, R a a) -> Forall2 R l l.
Proof. intros H. induction l; constructor; auto. Qed.

Lemma Forall2_map_left {A B C} (R : B -> C -> Prop) (g : A -> B) l l' :
  Forall2 R (map g l) l' -> Forall2 (fun a c => R (g a) c) l l'.
Proof.
  revert l'. induction l as [| a l IH]; intros l' H; inversion H; subst;
    constructor; auto.
Qed.






(** ** Roles over a whole run *)

Lemma same_standing_refl r : same_standing r r.
Proof. now repeat split. Qed.

Lemma same_standing_trans a b c :
  same_standing a b -> same_standing b c -> same_standing a c.
Proof.
  intros (H1 & H2 & H3) (K1 & K2 & K3). repeat split; congruence.
Qed.

Lemma Forall2_trans {A} (R : A -> A -> Prop) l1 l2 l3 :
  (forall a b c, R a b -> R b c -> R a c) ->
  Forall2 R l1 l2 -> Forall2 R l2 l3 -> Forall2 R l1 l3.
Proof.
  intros Ht H. revert l3. induction H; intros l3 K; inversion K; subst;
    constructor; eauto.
Qed.

Lemma kept_refl f : kept f f.
Proof.
  split; auto. exists []. split; [constructor |].
  rewrite app_nil_r. apply Forall2_same, same_standing_refl.
Qed.

Lemma kept_trans a b c : kept a b -> kept b c -> kept a c.
Proof.
  intros (N1 & c1 & F1 & H1) (N2 & c2 & F2 & H2). split; auto.
  exists (c1 ++ c2). split; [now apply Forall_app |].
  rewrite app_assoc.
  apply Forall2_trans with (l2 := rows_of (db b) T_member ++ c2);
    [apply same_standing_trans | | exact H2].
  apply Forall2_app; [exact H1 |].
  apply Forall2_same, same_standing_refl.
Qed.

Lemma kept_same_db f f' : db f' = db f -> kept f f'.
Proof.
  intros E. split; [now rewrite E |]. exists []. split; [constructor |].
  rewrite app_nil_r, E. apply Forall2_same, same_standing_refl.
Qed.

Lemma kept_same_members f f' :
  rows_of (db f') T_member = rows_of (db f) T_member -> kept f f'.
Proof.
  intros E. split; [now rewrite E |]. exists []. split; [constructor |].
  rewrite app_nil_r, E. apply Forall2_same, same_standing_refl.
Qed.

Lemma bind_parameters_absent names parameters cells k :
  bind_parameters names parameters = Some cells ->
  ~ In k names -> lookup cells k = None.
Proof.
  revert cells. induction names as [| n names IH]; intros cells H Hk;
    cbn in H.
  - now injection H as <-.
  - destruct (lookup parameters n) as [v |]; [| discriminate].
    destruct (bind_parameters names parameters) as [d |]; [| discriminate].
    injection H as <-. cbn.
    destruct (String.eqb_spec k n) as [-> | Hn].
    + exfalso. apply Hk. now left.
    + apply IH; auto. intros Hin. apply Hk. now right.
Qed.

Lemma ids_update_row column v id rows :
  ids (map (update_row column v id) rows) = ids rows.
Proof.
  unfold ids. rewrite map_map. apply map_ext. intros r.
  unfold update_row. now destruct (value_eqb _ _).
Qed.

Lemma Forall2_map_self {A} (R : A -> A -> Prop) (g : A -> A) l :
  (forall a, R a (g a)) -> Forall2 R l (map g l).
Proof. intros H. induction l; cbn; constructor; auto. Qed.

Lemma update_row_same_standing column v id r :
  column <> "role_id" -> column <> "works_at_pizzeria_id" ->
  same_standing r (update_row column v id r).
Proof.
  intros Hr Hw. unfold update_row.
  destruct (value_eqb _ _); [| apply same_standing_refl].
  unfold same_standing, staff, role_of. cbn [fst snd].
  split; [reflexivity |].
  rewrite !cell_set_cell_other by (intros E; symmetry in E; contradiction).
  split; reflexivity.
Qed.

Lemma execute_kept s parameters d rows d' :
  keeps_standing s ->
  execute s parameters d = inr (rows, d') ->
  (NoDup (ids (rows_of d T_member)) -> NoDup (ids (rows_of d' T_member))) /\
  exists created,
    Forall (fun r => role_of r = VNone) created /\
    Forall2 same_standing (rows_of d T_member ++ created)
            (rows_of d' T_member).
Proof.
  assert (Hsame : forall d0 : Database,
             rows_of d0 T_member = rows_of d T_member ->
             (NoDup (ids (rows_of d T_member)) ->
              NoDup (ids (rows_of d0 T_member))) /\
             exists created,
               Forall (fun r => role_of r = VNone) created /\
               Forall2 same_standing (rows_of d T_member ++ created)
                       (rows_of d0 T_member)).
  { intros d0 E. rewrite E. split; auto. exists []. split; [constructor |].
    rewrite app_nil_r. apply Forall2_same, same_standing_refl. }
  intros Hs H. destruct s; cbn in H.
  - destruct (bind_parameters columns parameters) as [cells |] eqn:Eb;
      [| discriminate].
    injection H as _ <-.
    destruct (Entity_eqb t T_member) eqn:Et.
    + apply Entity_eqb_eq in Et. subst t. cbn in Hs.
      rewrite rows_of_set_rows, Entity_eqb_refl. split.
      * intros Hnd. unfold ids. rewrite map_app. cbn.
        apply NoDup_app_remove_l with (l := []).
        apply Permutation_NoDup with
          (l := next_id (rows_of d T_member)
                :: map fst (rows_of d T_member)).
        -- cbn. apply Permutation_cons_append.
        -- constructor; auto. apply next_id_fresh.
      * exists [(next_id (rows_of d T_member), cells)]. split.
        -- constructor; [| constructor]. unfold role_of, cell. cbn [snd].
           now rewrite (bind_parameters_absent _ _ _ _ Eb Hs).
        -- apply Forall2_same, same_standing_refl.
    + apply Hsame. rewrite rows_of_set_rows, Et. reflexivity.
  - destruct (bind_parameters parameters0 parameters); [| discriminate].
    destruct (existsb _ _); [discriminate |]. injection H as _ <-.
    apply Hsame. reflexivity.
  - injection H as _ <-. apply Hsame. reflexivity.
  - injection H as _ <-. apply Hsame. reflexivity.
  - destruct (lookup parameters parameter) as [v |]; [| discriminate].
    destruct (lookup parameters id_parameter) as [id |]; [| discriminate].
    injection H as _ <-.
    destruct (Entity_eqb t T_member) eqn:Et.
    + apply Entity_eqb_eq in Et. subst t. cbn in Hs. destruct Hs as [Hr Hw].
      rewrite rows_of_set_rows, Entity_eqb_refl. split.
      * now rewrite ids_update_row.
      * exists []. split; [constructor |]. rewrite app_nil_r.
        apply Forall2_map_self. intros r.
        now apply update_row_same_standing.
    + apply Hsame. rewrite rows_of_set_rows, Et. reflexivity.
Qed.

#[export] Instance kept_frame : Frame kept keeps_standing.
Proof.
  split.
  - apply kept_refl.
  - apply kept_trans.
  - intros f w. now apply kept_same_db.
  - intros f p. now apply kept_same_db.
  - intros s parameters Hs f r f' H. apply query_inv in H.
    destruct H as (_ & _ & _ & _ & _ & [(_ & _ & E) | [(_ & e & _ & _ & E)
                                     | (_ & rows & d & Hx & _ & E)]]).
    + now apply kept_same_db.
    + now apply kept_same_db.
    + unfold kept. rewrite E. eapply execute_kept; eauto.
Qed.

#[export] Instance same_rows_frame : Frame same_rows associates.
Proof.
  split.
  - intros f t. reflexivity.
  - intros a b c H1 H2 t. now rewrite H2, H1.
  - intros f w t. reflexivity.
  - intros f p t. reflexivity.
  - intros s parameters Hs f r f' H t. apply query_inv in H.
    destruct H as (_ & _ & _ & _ & _ & [(_ & _ & E) | [(_ & e & _ & _ & E)
                                     | (_ & rows & d & Hx & _ & E)]]);
      rewrite E; auto.
    destruct s; cbn in Hs; try contradiction. cbn in Hx.
    destruct (bind_parameters parameters0 parameters); [| discriminate].
    destruct (existsb _ _); [discriminate |]. now injection Hx as _ <-.
Qed.

#[export] Instance same_roles_frame : Frame same_roles spares_roles.
Proof.
  split.
  - intros f. reflexivity.
  - intros a b c H1 H2. unfold same_roles in *. now rewrite H2, H1.
  - intros f w. reflexivity.
  - intros f p. reflexivity.
  - intros s parameters Hs f r f' H. unfold same_roles.
    apply query_inv in H.
    destruct H as (_ & _ & _ & _ & _ & [(_ & _ & E) | [(_ & e & _ & _ & E)
                                     | (_ & rows & d & Hx & _ & E)]]);
      rewrite E; auto.
    destruct s; cbn in Hx.
    + destruct (bind_parameters columns parameters); [| discriminate].
      injection Hx as _ <-. rewrite rows_of_set_rows.
      destruct t; cbn in Hs |- *; auto. contradiction.
    + destruct (bind_parameters parameters0 parameters); [| discriminate].
      destruct (existsb _ _); [discriminate |]. now injection Hx as _ <-.
    + now injection Hx as _ <-.
    + now injection Hx as _ <-.
    + destruct (lookup parameters parameter); [| discriminate].
      destruct (lookup parameters id_parameter); [| discriminate].
      injection Hx as _ <-. rewrite rows_of_set_rows.
      destruct t; cbn in Hs |- *; auto. contradiction.
Qed.




(** ** Going through [populate] up to its closing stages *)




Lemma say_ok s f r f' :
  say s f = (r, f') -> db f' = db f /\ pools f' = pools f.
Proof.
  intros H. apply liftW_ok in H. destruct H as (w & _ & ->). auto.
Qed.




(** * Further properties *)

(** ** Fake values *)

Lemma randint_bounds a b w n w' :
  (a <= b)%Z -> randint a b w = (inr n, w') -> (a <= n <= b)%Z.
Proof.
  intros Hab. rewrite randint_run. intros [= <- _].
  set (range := Z.to_nat (b - a + 1)).
  assert (Hr : Z.of_nat range = (b - a + 1)%Z)
    by (subst range; rewrite Z2Nat.id; lia).
  assert (rand w (cursor w) mod range < range)
    by (apply Nat.mod_upper_bound; lia).
  lia.
Qed.

(** X1: [FakeProduct] always succeeds; the product keeps the name it was
    given, and its weight in grams is a multiple of 5 between 100 and
    10000 (a draw between 20 and 2000, times 5). *)
Theorem FakeProduct_weight_in_range (name : string) (w : World) :
  exists p w',
    FakeProduct name w = (inr p, w') /\
    Product.name p = name /\
    (100 <= Product.gram_weight p <= 10000)%Z /\
    (Product.gram_weight p mod 5 = 0)%Z.
Proof.
  unfold FakeProduct, ean13, pyfloat.
  unfold bind at 1. cbv [text].
  unfold bind at 1.
  destruct (randint 20 2000 (advance w)) as [[e | n] w1] eqn:E.
  - rewrite randint_run in E. discriminate.
  - apply randint_bounds in E; [| lia].
    cbv [bind draw ret]. do 2 eexists. split; [reflexivity |]. cbn.
    repeat split; try lia. apply Z.mod_mul. lia.
Qed.

Lemma keep_digits_digits_only s : digits_only (keep_digits s) = true.
Proof.
  induction s as [| c s IH]; cbn; auto.
  destruct (is_digit c) eqn:E; cbn; auto. now rewrite E.
Qed.

Lemma strip_leading_digits_only s :
  digits_only (strip_leading_prefix_and_non_digits s) = true.
Proof.
  unfold strip_leading_prefix_and_non_digits.
  destruct s as [| a [| b [| c rest]]]; try apply keep_digits_digits_only.
  destruct (_ && _ && _); apply keep_digits_digits_only.
Qed.

Lemma strip_prefix_digits_only_upto n s :
  String.length s <= n ->
  digits_only (strip_prefix_and_non_digits s) = true.
Proof.
  revert s. induction n as [| n IH]; intros s Hn.
  - destruct s; [reflexivity | cbn in Hn; lia].
  - destruct s as [| a rest]; [reflexivity |].
    cbn [String.length] in Hn. cbn [strip_prefix_and_non_digits].
    destruct (is_digit a) eqn:Ea.
    + cbn. rewrite Ea. apply IH. lia.
    + destruct rest as [| b [| c rest']].
      * reflexivity.
      * apply IH. lia.
      * destruct (_ && _ && _); apply IH; cbn [String.length] in *; lia.
Qed.

Lemma strip_prefix_digits_only s :
  digits_only (strip_prefix_and_non_digits s) = true.
Proof. eapply strip_prefix_digits_only_upto. apply Nat.le_refl. Qed.

Lemma pad_phone_shaped s :
  digits_only s = true -> phone_shaped (pad_phone s).
Proof.
  intros H. unfold phone_shaped, pad_phone.
  destruct (Nat.ltb_spec (String.length s) 10) as [Hl | Hl].
  - split; [exact H | eauto].
  - split; [exact H | lia].
Qed.

(** X2: when the texts of the faker are ASCII, as the phone numbers of its
    French provider are, the phone number of a fake user account and of a
    fake pizzeria holds the digits 0-9 only, whatever the text, and starts
    with a zero when it has fewer than ten digits; the account keeps its
    member and the pizzeria its name and address. *)
Theorem fake_phone_numbers_are_digits (w : World) :
  (forall n, ascii_only (fake w n) = true) ->
  (forall member_id, exists u w',
      FakeUserAccount member_id w = (inr u, w') /\
      UserAccount.member_id u = member_id /\
      phone_shaped (UserAccount.phone_nb u)) /\
  (forall name address_id, exists p w',
      FakePizzeria name address_id w = (inr p, w') /\
      Pizzeria.name p = name /\ Pizzeria.address_id p = address_id /\
      phone_shaped (Pizzeria.phone_nb p)).
Proof.
  intros _. split.
  - intros member_id. unfold FakeUserAccount, email, phone_number,
      hashed_random_password.
    cbv [bind text ret]. do 2 eexists. split; [reflexivity |]. cbn.
    split; [reflexivity |]. apply pad_phone_shaped, strip_leading_digits_only.
  - intros name address_id. unfold FakePizzeria, phone_number.
    cbv [bind text ret]. do 2 eexists. split; [reflexivity |]. cbn.
    repeat split; try reflexivity;
      apply pad_phone_shaped, strip_prefix_digits_only.
Qed.

Lemma fake_phone_numbers_are_digits_witness :
  (exists u w',
      FakeUserAccount 7 sample_world = (inr u, w') /\
      UserAccount.member_id u = 7%Z /\
      phone_shaped (UserAccount.phone_nb u)) /\
  (exists p w',
      FakePizzeria "OC Pizza bis" (Some 3%Z) sample_world = (inr p, w') /\
      Pizzeria.name p = "OC Pizza bis" /\
      Pizzeria.address_id p = Some 3%Z /\
      phone_shaped (Pizzeria.phone_nb p)).
Proof.
  destruct (fake_phone_numbers_are_digits sample_world) as [Hu Hp].
  - intros n. reflexivity.
  - split; [apply Hu | apply Hp].
Defined.

(** ** The sampled association rows *)

Lemma choice_ok {A} (x : A) (l : list A) w :
  exists y, choice (x :: l) w = (inr y, advance w) /\ In y (x :: l).
Proof. apply choice_total. Qed.

Lemma randint_ok a b w :
  (a <= b)%Z ->
  exists n, randint a b w = (inr n, advance w) /\ (a <= n <= b)%Z.
Proof.
  intros Hab. eexists. split; [apply randint_run |].
  set (range := Z.to_nat (b - a + 1)).
  assert (Hr : Z.of_nat range = (b - a + 1)%Z)
    by (subst range; rewrite Z2Nat.id; lia).
  assert (rand w (cursor w) mod range < range)
    by (apply Nat.mod_upper_bound; lia).
  lia.
Qed.

Ltac draw_all :=
  repeat match goal with
         | |- context [bind (choice (?x :: ?l)) ?k ?w] =>
             let y := fresh "y" in let E := fresh "E" in let Hy := fresh "Hy" in
             destruct (choice_ok x l w) as (y & E & Hy);
             rewrite (bind_step _ k _ _ _ E); clear E
         | |- context [bind (randint ?a ?b) ?k ?w] =>
             let n := fresh "n" in let E := fresh "E" in let Hn := fresh "Hn" in
             destruct (randint_ok a b w ltac:(lia)) as (n & E & Hn);
             rewrite (bind_step _ k _ _ _ E); clear E
         | |- context [bind uniform ?k ?w] =>
             rewrite (bind_step _ k _ _ _ (uniform_run w))
         end.

Ltac in_pools :=
  eexists; split; [reflexivity |]; cbn;
  repeat apply conj; eexists; (split; [reflexivity |]);
  first [assumption | lia].

(** X3: when both lists are non-empty, each association sampler succeeds
    and the row it returns refers to members of the lists it was given
    (for a recipe, to an identifier of the mapping), with a quantity drawn
    within the bounds written in the sampler: 1 to 10 items of an order,
    1 to 100 units in stock, 1 to 1000 grams in a recipe. *)
Theorem association_samples_stay_in_their_pools (w : World) :
  (forall a b, a <> [] -> b <> [] -> exists d,
      outcome (RandomDataGenerator.has_permission_to a b) w = inr d /\
      int_among a (cell d "role_id") /\
      int_among b (cell d "permission_id")) /\
  (forall a b, a <> [] -> b <> [] -> exists d,
      outcome (RandomDataGenerator.contains_item a b) w = inr d /\
      int_among a (cell d "order_id") /\ int_among b (cell d "item_id") /\
      int_between 1 10 (cell d "quantity")) /\
  (forall a b, a <> [] -> b <> [] -> exists d,
      outcome (RandomDataGenerator.has_product_in_stock a b) w = inr d /\
      int_among a (cell d "pizzeria_id") /\
      int_among b (cell d "product_id") /\
      int_between 1 100 (cell d "quantity")) /\
  (forall a b, a <> [] -> b <> [] -> exists d,
      outcome (RandomDataGenerator.requires_product a b) w = inr d /\
      int_among a (cell d "recipe_id") /\
      int_among b (cell d "product_id") /\
      int_between 1 1000 (cell d "gram_amount")) /\
  (forall a b, a <> [] -> b <> [] -> exists d,
      outcome (RandomDataGenerator.has_keyword a b) w = inr d /\
      int_among a (cell d "item_id") /\
      int_among b (cell d "keyword_id")).
Proof.
  unfold outcome, int_among, int_between.
  repeat apply conj; intros [| x a] [| y b] Ha Hb; try contradiction.
  - unfold RandomDataGenerator.has_permission_to. draw_all.
    in_pools.
  - unfold RandomDataGenerator.contains_item. draw_all.
    in_pools.
  - unfold RandomDataGenerator.has_product_in_stock. draw_all.
    in_pools.
  - unfold RandomDataGenerator.requires_product. draw_all.
    in_pools.
  - unfold RandomDataGenerator.has_keyword. draw_all.
    in_pools.
Qed.

Lemma association_samples_stay_in_their_pools_witness :
  exists d,
    outcome (RandomDataGenerator.contains_item [3%Z; 4%Z] [8%Z]) sample_world
    = inr d /\
    int_among [3%Z; 4%Z] (cell d "order_id") /\
    int_among [8%Z] (cell d "item_id") /\
    int_between 1 10 (cell d "quantity").
Proof.
  destruct (association_samples_stay_in_their_pools sample_world)
    as (_ & H & _).
  apply H; discriminate.
Defined.

(** X4: a sampler given an empty list on either side raises IndexError,
    the error of [random.choice] on an empty sequence. *)
Theorem association_samples_need_both_pools (w : World) :
  (forall a b, a = [] \/ b = [] ->
      outcome (RandomDataGenerator.has_permission_to a b) w
      = inl IndexError) /\
  (forall a b, a = [] \/ b = [] ->
      outcome (RandomDataGenerator.contains_item a b) w = inl IndexError) /\
  (forall a b, a = [] \/ b = [] ->
      outcome (RandomDataGenerator.has_product_in_stock a b) w
      = inl IndexError) /\
  (forall a b, a = [] \/ b = [] ->
      outcome (RandomDataGenerator.requires_product a b) w
      = inl IndexError) /\
  (forall a b, a = [] \/ b = [] ->
      outcome (RandomDataGenerator.has_keyword a b) w = inl IndexError).
Proof.
  unfold outcome.
  repeat apply conj; intros [| x a] [| y b] [H | H]; try discriminate;
    try reflexivity.
  all: first [ unfold RandomDataGenerator.has_permission_to
             | unfold RandomDataGenerator.contains_item
             | unfold RandomDataGenerator.has_product_in_stock
             | unfold RandomDataGenerator.requires_product
             | unfold RandomDataGenerator.has_keyword ];
    draw_all; reflexivity.
Qed.

Lemma association_samples_need_both_pools_witness :
  outcome (RandomDataGenerator.has_keyword [5%Z] []) sample_world
  = inl IndexError.
Proof.
  destruct (association_samples_need_both_pools sample_world)
    as (_ & _ & _ & _ & H).
  apply H. now right.
Defined.

(** ** The references of the yielded records *)

Lemma skipn_nth {A} (l : list A) k a :
  nth_error l k = Some a -> skipn k l = a :: skipn (S k) l.
Proof.
  revert l. induction k as [| k IH]; intros [| x l] H; cbn in *;
    try discriminate.
  - now injection H as ->.
  - now apply IH.
Qed.

Lemma indexed_yields {A B} (g : B -> A) (l : list A) n k xs :
  Forall2 (fun i x => nth_error l i = Some (g x)) (seq k n) xs ->
  map g xs = firstn n (skipn k l).
Proof.
  revert k xs. induction n as [| n IH]; intros k xs H; cbn in H;
    inversion H; subst; [reflexivity |].
  rewrite (skipn_nth _ _ _ H2). cbn [map firstn]. f_equal. now apply IH.
Qed.

Lemma NoDup_firstn_of {A} n (l : list A) : NoDup l -> NoDup (firstn n l).
Proof.
  revert n. induction l as [| x l IH]; intros [| n] H; cbn;
    try constructor.
  - inversion H; subst. intros Hin. apply In_firstn in Hin. contradiction.
  - inversion H; subst. auto.
Qed.

Lemma FakeMember_run pizzeria_id address_id w :
  exists name firstname w',
    FakeMember pizzeria_id address_id w
    = (inr (Member.mk name firstname pizzeria_id None address_id), w').
Proof.
  unfold FakeMember, last_name, first_name. cbv [bind text ret]. eauto.
Qed.

Lemma FakeUserAccount_run member_id w :
  exists mail phone pwd w',
    FakeUserAccount member_id w
    = (inr (UserAccount.mk mail phone member_id pwd), w').
Proof.
  unfold FakeUserAccount, email, phone_number, hashed_random_password.
  cbv [bind text ret]. eauto.
Qed.

Lemma FakeBill_run order_id w :
  exists date total w',
    FakeBill order_id w = (inr (Bill.mk date total order_id), w').
Proof.
  unfold FakeBill, date_time_this_decade, pyfloat. cbv [bind draw ret]. eauto.
Qed.

Lemma FakeTakenOrder_run member_id address_id pizzeria_id s ss w :
  exists status paid w',
    FakeTakenOrder member_id address_id pizzeria_id (s :: ss) w
    = (inr (TakenOrder.mk member_id address_id status pizzeria_id paid None),
       w') /\
    In status (s :: ss).
Proof.
  unfold FakeTakenOrder.
  destruct (choice_total s ss w) as (status & E & Hin).
  rewrite (bind_step _ _ _ _ _ E).
  destruct (choice_total true [false] (advance w)) as (paid & E' & _).
  rewrite (bind_step _ _ _ _ _ E').
  do 3 eexists. split; [reflexivity | exact Hin].
Qed.

(** The draws of [members] on the pizzerias: each store or nothing. *)
Lemma staff_draws (p : list Z) w :
  exists pz w',
    map_m (fun i => choice [None; Some i]) p w = (inr pz, w') /\
    Forall2 (fun i o => o = None \/ o = Some i) p pz.
Proof.
  revert w. induction p as [| i p IH]; intros w; cbn [map_m].
  - exists [], w. split; [reflexivity | constructor].
  - destruct (choice_total None [Some i] w) as (o & E & Hin).
    rewrite (bind_step _ _ _ _ _ E).
    destruct (IH (advance w)) as (pz & w' & Ep & HF).
    rewrite (bind_step _ _ _ _ _ Ep).
    exists (o :: pz), w'. split; [reflexivity |]. constructor; auto.
    cbn in Hin. intuition.
Qed.

Lemma Forall2_In_right {A B} (R : A -> B -> Prop) l l' b :
  Forall2 R l l' -> In b l' -> exists a, In a l /\ R a b.
Proof.
  induction 1 as [| x y l l' Hxy F IH]; cbn; [tauto |].
  intros [<- | Hin]; [eauto |]. destruct (IH Hin) as (a & Ha & HR). eauto.
Qed.

Lemma in_range i n : In i (range n) -> i < Z.to_nat n.
Proof. unfold range. intros H. apply in_seq in H. lia. Qed.

(** X5: given enough addresses and at least one pizzeria, [members] runs
    to its end: it shuffles the address list it was given, and the members
    it yields take the first [size] entries of the shuffled list, in
    order, so that distinct addresses give members distinct addresses;
    each member has no user account and either works nowhere or works at
    one of the given pizzerias. *)
Theorem members_get_distinct_addresses (address_ids : list (option Z))
    (pizzeria_ids : list Z) (size : Z) (w : World) :
  (size <= len address_ids)%Z ->
  pizzeria_ids <> [] ->
  exists address_ids' l w',
    exhaust (RandomDataGenerator.members address_ids pizzeria_ids size) w
    = (inr (address_ids', l), w') /\
    Permutation address_ids address_ids' /\
    map Member.address_id l = firstn (Z.to_nat size) address_ids' /\
    (NoDup address_ids -> NoDup (map Member.address_id l)) /\
    Forall (fun m =>
              Member.user_account_id m = None /\
              (Member.works_at_pizzeria_id m = None \/
               exists i, In i pizzeria_ids /\
                         Member.works_at_pizzeria_id m = Some i)) l.
Proof.
  intros Hsize Hp. unfold RandomDataGenerator.members.
  destruct (Z.ltb_spec (len address_ids) size) as [Hlt | _]; [lia |].
  destruct (staff_draws pizzeria_ids w) as (pz & w1 & Epz & Hpz).
  rewrite (exhaust_bind_step _ _ _ _ _ Epz).
  destruct (shuffle_perm address_ids w1) as (ids & w2 & Esh & Hperm & _).
  rewrite (exhaust_bind_step _ _ _ _ _ Esh).
  assert (Hpz_ne : pz <> []).
  { intros ->. inversion Hpz; subst. contradiction. }
  destruct pz as [| o pz]; [contradiction |].
  destruct (exhaust_ready ids
              (fun i =>
                 pizzeria_id <- choice (o :: pz) ;;
                 address_id <- index ids i ;;
                 FakeMember pizzeria_id address_id)
              (fun i m =>
                 nth_error ids i = Some (Member.address_id m) /\
                 Member.user_account_id m = None /\
                 In (Member.works_at_pizzeria_id m) (o :: pz))
              (range size) w2) as (l & w' & Hrun & HF).
  { intros i w0 Hi. apply in_range in Hi.
    destruct (choice_total o pz w0) as (pid & E & Hin).
    rewrite (bind_step _ _ _ _ _ E).
    destruct (nth_error ids i) as [a |] eqn:En.
    - unfold index. rewrite En.
      rewrite (bind_step _ _ _ a (advance w0) eq_refl).
      destruct (FakeMember_run pid a (advance w0)) as (n & fn & w3 & ->).
      do 2 eexists. split; [reflexivity |]. cbn. auto.
    - apply nth_error_None in En.
      rewrite <- (Permutation_length Hperm) in En. unfold len in Hsize. lia. }
  exists ids, l, w'. split; [exact Hrun |]. split; [exact Hperm |].
  assert (Hmap : map Member.address_id l = firstn (Z.to_nat size) ids).
  { apply (indexed_yields Member.address_id ids (Z.to_nat size) 0).
    eapply Forall2_impl; [| exact HF]. cbn. tauto. }
  split; [exact Hmap |]. split.
  - intros Hnd. rewrite Hmap. apply NoDup_firstn_of.
    eapply Permutation_NoDup; eauto.
  - apply Forall_forall. intros m Hm.
    destruct (Forall2_In_right _ _ _ _ HF Hm) as (i & _ & _ & Hua & Hin).
    split; [exact Hua |].
    destruct (Forall2_In_right _ _ _ _ Hpz Hin) as (j & Hj & [-> | ->]);
      eauto.
Qed.

Lemma members_get_distinct_addresses_witness :
  exists address_ids' l w',
    exhaust (RandomDataGenerator.members [Some 1%Z; Some 2%Z; Some 3%Z]
               [4%Z] 2) sample_world
    = (inr (address_ids', l), w') /\
    Permutation [Some 1%Z; Some 2%Z; Some 3%Z] address_ids' /\
    map Member.address_id l = firstn 2 address_ids'.
Proof.
  destruct (members_get_distinct_addresses
              [Some 1%Z; Some 2%Z; Some 3%Z] [4%Z] 2 sample_world)
    as (a & l & w' & H1 & H2 & H3 & _).
  - cbn. lia.
  - discriminate.
  - exists a, l, w'. auto.
Defined.

Lemma index_run {A} (l : list A) i a (w : World) :
  nth_error l i = Some a -> index l i w = (inr a, w).
Proof. unfold index. now intros ->. Qed.

Lemma nth_error_within {A} (l : list A) i :
  i < List.length l -> exists a, nth_error l i = Some a.
Proof.
  intros H. destruct (nth_error l i) as [a |] eqn:E; [eauto |].
  apply nth_error_None in E. lia.
Qed.

(** X6: given enough members, [user_accounts] runs to its end: the
    accounts take the first [size] entries of the shuffled member list, so
    that no two accounts share a member when the members are distinct. *)
Theorem user_accounts_get_distinct_members (member_ids : list Z) (size : Z)
    (w : World) :
  (size <= len member_ids)%Z ->
  exists member_ids' l w',
    exhaust (RandomDataGenerator.user_accounts member_ids size) w
    = (inr (member_ids', l), w') /\
    Permutation member_ids member_ids' /\
    map UserAccount.member_id l = firstn (Z.to_nat size) member_ids' /\
    (NoDup member_ids -> NoDup (map UserAccount.member_id l)).
Proof.
  intros Hsize. unfold RandomDataGenerator.user_accounts.
  destruct (Z.ltb_spec (len member_ids) size) as [Hlt | _]; [lia |].
  destruct (shuffle_perm member_ids w) as (ids & w1 & Esh & Hperm & _).
  rewrite (exhaust_bind_step _ _ _ _ _ Esh).
  destruct (exhaust_ready ids
              (fun i => member_id <- index ids i ;; FakeUserAccount member_id)
              (fun i u => nth_error ids i = Some (UserAccount.member_id u))
              (range size) w1) as (l & w' & Hrun & HF).
  { intros i w0 Hi. apply in_range in Hi.
    destruct (nth_error_within ids i) as (a & En).
    { rewrite <- (Permutation_length Hperm). unfold len in Hsize. lia. }
    rewrite (bind_step _ _ _ _ _ (index_run _ _ _ w0 En)).
    destruct (FakeUserAccount_run a w0) as (m & ph & pw & w2 & ->).
    do 2 eexists. split; [reflexivity |]. exact En. }
  exists ids, l, w'. split; [exact Hrun |]. split; [exact Hperm |].
  assert (Hmap : map UserAccount.member_id l = firstn (Z.to_nat size) ids)
    by exact (indexed_yields UserAccount.member_id ids _ 0 l HF).
  split; [exact Hmap |].
  intros Hnd. rewrite Hmap. apply NoDup_firstn_of.
  eapply Permutation_NoDup; eauto.
Qed.

Lemma user_accounts_get_distinct_members_witness :
  exists member_ids' l w',
    exhaust (RandomDataGenerator.user_accounts [7%Z; 8%Z; 9%Z] 2) sample_world
    = (inr (member_ids', l), w') /\
    NoDup (map UserAccount.member_id l).
Proof.
  destruct (user_accounts_get_distinct_members [7%Z; 8%Z; 9%Z] 2 sample_world)
    as (a & l & w' & H1 & _ & _ & H4).
  - cbn. lia.
  - exists a, l, w'. split; [exact H1 |]. apply H4.
    repeat constructor; cbn; intuition discriminate.
Defined.

(** X7: given enough orders, [bills] runs to its end and bills the first
    [size] orders of the list, in the order of the list, one bill each. *)
Theorem bills_follow_the_orders (taken_order_ids : list Z) (size : Z)
    (w : World) :
  (size <= len taken_order_ids)%Z ->
  exists l w',
    exhaust (RandomDataGenerator.bills taken_order_ids size) w
    = (inr (tt, l), w') /\
    map Bill.order_id l = firstn (Z.to_nat size) taken_order_ids.
Proof.
  intros Hsize. unfold RandomDataGenerator.bills.
  destruct (Z.ltb_spec (len taken_order_ids) size) as [Hlt | _]; [lia |].
  destruct (exhaust_ready tt
              (fun i => order_id <- index taken_order_ids i ;;
                        FakeBill order_id)
              (fun i (b_w : Bill.t) =>
                 nth_error taken_order_ids i = Some (Bill.order_id b_w))
              (range size) w) as (l & w' & Hrun & HF).
  { intros i w0 Hi. apply in_range in Hi.
    destruct (nth_error_within taken_order_ids i) as (a & En).
    { unfold len in Hsize. lia. }
    rewrite (bind_step _ _ _ _ _ (index_run _ _ _ w0 En)).
    destruct (FakeBill_run a w0) as (d & t & w2 & ->).
    do 2 eexists. split; [reflexivity |]. exact En. }
  exists l, w'. split; [exact Hrun |].
  exact (indexed_yields Bill.order_id taken_order_ids _ 0 l HF).
Qed.

Lemma bills_follow_the_orders_witness :
  exists l w',
    exhaust (RandomDataGenerator.bills [4%Z; 5%Z; 6%Z] 2) sample_world
    = (inr (tt, l), w') /\
    map Bill.order_id l = [4%Z; 5%Z].
Proof.
  apply (bills_follow_the_orders [4%Z; 5%Z; 6%Z] 2 sample_world).
  cbn. lia.
Defined.

(** X8: given enough members and addresses, a pizzeria and an order
    status, [taken_orders] runs to its end and yields [size] orders; each
    refers to a member, an address, a pizzeria and a status of the lists
    given, and has no bill. *)
Theorem taken_orders_refer_to_their_pools (member_ids : list Z)
    (address_ids : list (option Z)) (pizzeria_ids order_status_ids : list Z)
    (size : Z) (w : World) :
  (size <= len member_ids)%Z ->
  (size <= len address_ids)%Z ->
  pizzeria_ids <> [] ->
  order_status_ids <> [] ->
  exists member_ids' address_ids' l w',
    exhaust (RandomDataGenerator.taken_orders member_ids address_ids
               pizzeria_ids order_status_ids size) w
    = (inr ((member_ids', address_ids'), l), w') /\
    Permutation member_ids member_ids' /\
    Permutation address_ids address_ids' /\
    List.length l = Z.to_nat size /\
    Forall (fun o =>
              In (TakenOrder.member_id o) member_ids /\
              In (TakenOrder.address_id o) address_ids /\
              In (TakenOrder.pizzeria_id o) pizzeria_ids /\
              In (TakenOrder.status_id o) order_status_ids /\
              TakenOrder.bill_id o = None) l.
Proof.
  intros Hm Ha Hp Hs. unfold RandomDataGenerator.taken_orders.
  destruct (Z.ltb_spec (len member_ids) size) as [Hlt | _]; [lia |].
  destruct (Z.ltb_spec (len address_ids) size) as [Hlt | _]; [lia |].
  destruct (shuffle_perm member_ids w) as (ms & w1 & Em & Hpm & _).
  rewrite (exhaust_bind_step _ _ _ _ _ Em).
  destruct (shuffle_perm address_ids w1) as (ads & w2 & Ea & Hpa & _).
  rewrite (exhaust_bind_step _ _ _ _ _ Ea).
  destruct pizzeria_ids as [| p ps]; [contradiction |].
  destruct order_status_ids as [| s ss]; [contradiction |].
  destruct (exhaust_ready (ms, ads)
              (fun _ : nat =>
                 member_id <- choice ms ;;
                 address_id <- choice ads ;;
                 pizzeria_id <- choice (p :: ps) ;;
                 FakeTakenOrder member_id address_id pizzeria_id (s :: ss))
              (fun _ o =>
                 In (TakenOrder.member_id o) ms /\
                 In (TakenOrder.address_id o) ads /\
                 In (TakenOrder.pizzeria_id o) (p :: ps) /\
                 In (TakenOrder.status_id o) (s :: ss) /\
                 TakenOrder.bill_id o = None)
              (range size) w2) as (l & w' & Hrun & HF).
  { intros i w0 Hi. apply in_range in Hi.
    destruct ms as [| m ms'].
    { apply Permutation_length in Hpm. unfold len in Hm. cbn in Hpm. lia. }
    destruct ads as [| a ads'].
    { apply Permutation_length in Hpa. unfold len in Ha. cbn in Hpa. lia. }
    destruct (choice_total m ms' w0) as (mi & E1 & H1).
    rewrite (bind_step _ _ _ _ _ E1).
    destruct (choice_total a ads' (advance w0)) as (ai & E2 & H2).
    rewrite (bind_step _ _ _ _ _ E2).
    destruct (choice_total p ps (advance (advance w0))) as (pi & E3 & H3).
    rewrite (bind_step _ _ _ _ _ E3).
    destruct (FakeTakenOrder_run mi ai pi s ss
                (advance (advance (advance w0))))
      as (st & paid & w3 & -> & H4).
    do 2 eexists. split; [reflexivity |]. cbn. auto. }
  exists ms, ads, l, w'. split; [exact Hrun |].
  split; [exact Hpm |]. split; [exact Hpa |]. split.
  - rewrite <- (Forall2_length HF). unfold range. apply length_seq.
  - apply Forall_forall. intros o Ho.
    destruct (Forall2_In_right _ _ _ _ HF Ho)
      as (i & _ & H1 & H2 & H3 & H4 & H5).
    repeat apply conj; auto.
    + eapply Permutation_in; [apply Permutation_sym; exact Hpm | exact H1].
    + eapply Permutation_in; [apply Permutation_sym; exact Hpa | exact H2].
Qed.

Lemma taken_orders_refer_to_their_pools_witness :
  exists member_ids' address_ids' l w',
    exhaust (RandomDataGenerator.taken_orders [1%Z; 2%Z] [Some 3%Z; None]
               [4%Z] [5%Z; 6%Z] 2) sample_world
    = (inr ((member_ids', address_ids'), l), w') /\
    List.length l = 2.
Proof.
  destruct (taken_orders_refer_to_their_pools [1%Z; 2%Z] [Some 3%Z; None]
              [4%Z] [5%Z; 6%Z] 2 sample_world)
    as (m & a & l & w' & H1 & _ & _ & H4 & _).
  - cbn. lia.
  - cbn. lia.
  - discriminate.
  - discriminate.
  - exists m, a, l, w'. split; [exact H1 | exact H4].
Defined.

(** X9: with enough addresses but no pizzeria, [members] asked for at
    least one member raises IndexError at its first yield: the draw of the
    member's pizzeria is made on an empty list. *)
Theorem members_need_a_pizzeria (address_ids : list (option Z)) (size : Z)
    (w : World) :
  (0 < size <= len address_ids)%Z ->
  exists w',
    exhaust (RandomDataGenerator.members address_ids [] size) w
    = (inl IndexError, w').
Proof.
  intros Hsize. unfold RandomDataGenerator.members.
  destruct (Z.ltb_spec (len address_ids) size) as [Hlt | _]; [lia |].
  rewrite (exhaust_bind_step
             (map_m (fun i : Z => choice [None; Some i]) []) _ w [] w eq_refl).
  destruct (shuffle_perm address_ids w) as (ids & w1 & Esh & _).
  rewrite (exhaust_bind_step _ _ _ _ _ Esh).
  exists w1. unfold exhaust, range.
  destruct (Z.to_nat size) as [| n] eqn:En; [lia |].
  reflexivity.
Qed.

Lemma members_need_a_pizzeria_witness :
  exists w',
    exhaust (RandomDataGenerator.members [Some 1%Z; Some 2%Z] [] 1)
      sample_world
    = (inl IndexError, w').
Proof.
  apply (members_need_a_pizzeria [Some 1%Z; Some 2%Z] 1 sample_world).
  cbn. lia.
Defined.

(** ** What a run never undoes *)

(** A relation that holds across every statement of [populate] holds
    across [populate]. *)
Lemma populate_frame (R : Feeder -> Feeder -> Prop)
    (allowed : Statement -> Prop) (frame : Frame R allowed) :
  (forall s, sent_by_populate s -> allowed s) -> preserves R populate.
Proof.
  intros H. unfold populate.
  repeat (apply frame_bind;
          [ first [ apply frame_say
                  | apply _insert_addresses_frame
                  | apply _insert_pizzerias_frame
                  | apply _insert_members_frame
                  | apply _insert_user_accounts_frame
                  | apply _update_members_user_account_frame
                  | apply _insert_recipes_frame
                  | apply _insert_products_frame
                  | apply _insert_catalog_items_frame
                  | apply _insert_order_status_frame
                  | apply _insert_taken_orders_frame
                  | apply _insert_bills_frame
                  | apply _insert_keywords_frame
                  | apply _insert_permissions_frame
                  | apply _insert_roles_frame
                  | apply _update_members_role_frame
                  | apply _insert_relations_many_to_many_frame ];
            try (intros s Hs; apply H;
                 unfold sent_by_populate, early_insertion, late_insertion,
                   closing; tauto)
          | intros _ ]).
  apply frame_say.
Qed.

Lemma sent_by_populate_rewrites_members_only s :
  sent_by_populate s -> rewrites_members_only s.
Proof.
  unfold sent_by_populate, early_insertion, late_insertion, closing,
    links_account, assigns_role.
  destruct s; cbn; auto.
  intros H. decompose [or] H; try contradiction; congruence.
Qed.

Lemma nothing_lost_refl d : nothing_lost d d.
Proof.
  repeat split; intros; exists []; now rewrite app_nil_r.
Qed.

Lemma nothing_lost_trans a b c :
  nothing_lost a b -> nothing_lost b c -> nothing_lost a c.
Proof.
  intros (A1 & A2 & A3) (B1 & B2 & B3). repeat split.
  - intros t. destruct (A1 t) as (i & E), (B1 t) as (j & E').
    exists (i ++ j). now rewrite E', E, app_assoc.
  - intros t Ht. destruct (A2 t Ht) as (i & E), (B2 t Ht) as (j & E').
    exists (i ++ j). now rewrite E', E, app_assoc.
  - intros r. destruct (A3 r) as (i & E), (B3 r) as (j & E').
    exists (i ++ j). now rewrite E', E, app_assoc.
Qed.

Lemma execute_nothing_lost s parameters d rows d' :
  rewrites_members_only s ->
  execute s parameters d = inr (rows, d') ->
  nothing_lost d d'.
Proof.
  intros Hs H. destruct s; cbn in H.
  - destruct (bind_parameters columns parameters); inversion H; subst.
    repeat split.
    + intros t'. rewrite rows_of_set_rows.
      destruct (Entity_eqb t t') eqn:E.
      * apply Entity_eqb_eq in E. subst. unfold ids. rewrite map_app. eauto.
      * exists []. now rewrite app_nil_r.
    + intros t' _. rewrite rows_of_set_rows.
      destruct (Entity_eqb t t') eqn:E.
      * apply Entity_eqb_eq in E. subst. eauto.
      * exists []. now rewrite app_nil_r.
    + intros r. exists []. cbn. now rewrite app_nil_r.
  - destruct (bind_parameters parameters0 parameters); [| discriminate].
    destruct (existsb _ _); inversion H; subst.
    repeat split; try (intros; exists []; cbn; now rewrite app_nil_r).
    intros r'. rewrite links_of_set_links.
    destruct (Relation_eqb r r') eqn:E.
    + apply Relation_eqb_eq in E. subst. eauto.
    + exists []. now rewrite app_nil_r.
  - inversion H; subst. apply nothing_lost_refl.
  - inversion H; subst. apply nothing_lost_refl.
  - cbn in Hs. subst t.
    destruct (lookup parameters parameter); [| discriminate].
    destruct (lookup parameters id_parameter); inversion H; subst.
    repeat split.
    + intros t'. rewrite rows_of_set_rows.
      destruct (Entity_eqb T_member t') eqn:E.
      * apply Entity_eqb_eq in E. subst. rewrite ids_update_row.
        exists []. now rewrite app_nil_r.
      * exists []. now rewrite app_nil_r.
    + intros t' Ht. rewrite rows_of_set_rows.
      destruct (Entity_eqb T_member t') eqn:E.
      * apply Entity_eqb_eq in E. congruence.
      * exists []. now rewrite app_nil_r.
    + intros r. exists []. cbn. now rewrite app_nil_r.
Qed.

#[export] Instance only_added_frame : Frame only_added rewrites_members_only.
Proof.
  split.
  - intros f. apply nothing_lost_refl.
  - intros a b c. apply nothing_lost_trans.
  - intros f w. apply nothing_lost_refl.
  - intros f p. apply nothing_lost_refl.
  - intros s parameters Hs f r f' H. apply query_inv in H.
    destruct H as (_ & _ & _ & _ & _ & [(_ & _ & E) | [(_ & e & _ & _ & E)
                                     | (_ & rows & d & Hx & _ & E)]]);
      unfold only_added; rewrite E.
    + apply nothing_lost_refl.
    + apply nothing_lost_refl.
    + eapply execute_nothing_lost; eauto.
Qed.

(** X10: whatever its outcome, a run of [populate] deletes nothing: every
    keyed table keeps its identifiers in place and only gets more at its
    end, no row of a table other than [member] is rewritten, and the
    association tables only get rows appended. *)
Theorem populate_only_adds (f : Feeder) :
  only_added f (snd (populate f)).
Proof.
  destruct (populate f) as [r f'] eqn:E. cbn [snd].
  exact (populate_frame only_added rewrites_members_only only_added_frame
           sent_by_populate_rewrites_members_only f r f' E).
Qed.

(** ** The address list shared with the pizzerias generator *)

Lemma pizzerias_starts address_ids w :
  exists address_ids' nexts w',
    RandomDataGenerator.pizzerias address_ids w
    = (inr (address_ids', nexts), w').
Proof.
  unfold RandomDataGenerator.pizzerias.
  destruct (len address_ids <? 5)%Z.
  - destruct (shuffle_perm (address_ids ++ repeat None 5) w)
      as (x & w1 & E & _).
    rewrite (bind_step _ _ _ _ _ E). cbv [ret]. eauto.
  - rewrite (bind_step _ _ _ address_ids w eq_refl). cbv [ret]. eauto.
Qed.

Lemma insert_keeps_pools s parameters :
  preserves (fun f f' => pools f' = pools f) (insert s parameters).
Proof.
  intros f r f' H. unfold insert in H.
  destruct (bind_run _ _ _ _ _ H) as [(e & Hq & _) | (a & f1 & Hq & Hr)].
  - apply query_inv in Hq. tauto.
  - injection Hr as _ <-. apply query_inv in Hq. tauto.
Qed.

Lemma liftW_keeps_pools {A} (g : G A) :
  preserves (fun f f' => pools f' = pools f) (liftW g).
Proof.
  intros f r f' H. apply liftW_ok in H. destruct H as (w & _ & ->).
  reflexivity.
Qed.

Lemma insert_loop_keeps_pools {A} (nexts : list (G A)) s dict :
  preserves (fun f f' => pools f' = pools f)
    (for_each nexts (fun next => x <- liftW next ;; insert s (dict x))).
Proof.
  apply preserves_for_each; [reflexivity | intros; congruence |].
  intros next _. apply preserves_bind; [intros; congruence | |].
  - apply liftW_keeps_pools.
  - intros x. apply insert_keeps_pools.
Qed.

(** X11: the pizzerias stage changes the address list of the feeder, the
    list the later stages draw from: when it holds fewer than five
    addresses it is left as a reordering of itself with five empty
    entries added, whether or not the insertions then succeed; with five
    addresses or more it is left as it was. *)
Theorem _insert_pizzerias_pads_the_address_list (f f' : Feeder)
    (r : Exn + list Z) (a : list (option Z)) :
  address_ids (pools f) = Some a ->
  _insert_pizzerias f = (r, f') ->
  exists a',
    address_ids (pools f') = Some a' /\
    (List.length a < 5 -> Permutation (a ++ repeat None 5) a') /\
    (5 <= List.length a -> a' = a).
Proof.
  intros Ha H. unfold _insert_pizzerias in H.
  rewrite (bind_step _ _ _ _ _ (attr_run _ _ _ _ Ha)) in H.
  destruct (pizzerias_starts a (world f)) as (a' & nexts & w1 & Hstart).
  destruct (pizzerias_lists _ _ _ _ _ Hstart) as (Hsame & Hpad & _).
  exists a'. split; [| split; assumption].
  unfold for_gen in H.
  assert (Hlift : liftW (RandomDataGenerator.pizzerias a) f
                  = (inr (a', nexts), with_world w1 f))
    by (unfold liftW; now rewrite Hstart).
  assert (Hloop : forall x f1,
             for_gen (RandomDataGenerator.pizzerias a)
               (fun address_ids' => assign (set_address_ids address_ids'))
               (fun pizzeria =>
                  insert (InsertInto T_pizzeria
                            ["name"; "phone_nb"; "address_id"])
                         (Pizzeria.dict pizzeria)) f = (x, f1) ->
             address_ids (pools f1) = Some a').
  { intros x f1 H1. unfold for_gen in H1.
    rewrite (bind_step _ _ _ _ _ Hlift) in H1. cbn [fst snd] in H1.
    rewrite (bind_step (assign _) _ _ tt _ eq_refl) in H1.
    apply insert_loop_keeps_pools in H1. now rewrite H1. }
  destruct (bind_run _ _ _ _ _ H) as [(e & H1 & _) | ([] & f1 & H1 & H2)].
  - exact (Hloop _ _ H1).
  - apply Hloop in H1.
    destruct (bind_run _ _ _ _ _ H2) as [(e & Hq & _) | (rows & f2 & Hq & H3)];
      apply query_inv in Hq; destruct Hq as (_ & _ & _ & Hp & _).
    + now rewrite Hp.
    + rewrite (bind_step (assign _) _ _ tt _ eq_refl) in H3.
      unfold attr in H3. cbn in H3. injection H3 as _ <-. cbn.
      now rewrite Hp.
Qed.

Lemma _insert_pizzerias_pads_the_address_list_witness :
  exists a',
    address_ids
      (pools (snd (_insert_pizzerias
                     (with_pools (set_address_ids [Some 1%Z] no_pools)
                                 (new_feeder empty_database 1))))) = Some a' /\
    Permutation [Some 1%Z; None; None; None; None; None] a'.
Proof.
  destruct (_insert_pizzerias
              (with_pools (set_address_ids [Some 1%Z] no_pools)
                          (new_feeder empty_database 1)))
    as [r f'] eqn:E.
  destruct (_insert_pizzerias_pads_the_address_list
              (with_pools (set_address_ids [Some 1%Z] no_pools)
                          (new_feeder empty_database 1))
              f' r [Some 1%Z] eq_refl E) as (a' & H1 & H2 & _).
  exists a'. split; [exact H1 |]. apply H2. cbn. lia.
Defined.

(** ** Members and their accounts *)

Lemma value_eqb_int id k : value_eqb (VInt id) k = true <-> k = VInt id.
Proof.
  destruct k; cbn; split; try discriminate.
  - intros H. apply Z.eqb_eq in H. now subst.
  - intros [= ->]. apply Z.eqb_refl.
Qed.

Lemma update_sets_account account k f f' :
  insert (UpdateSet T_member "user_account_id" "ua_id" "member_id")
         [("member_id", k); ("ua_id", VInt account)] f = (inr tt, f') ->
  pools f' = pools f /\
  rows_of (db f') T_member
  = map (update_row "user_account_id" (VInt account) k)
        (rows_of (db f) T_member).
Proof.
  unfold insert. intros H. apply bind_ok in H.
  destruct H as (rows & f1 & H & Hret). injection Hret as <-.
  apply query_inv in H.
  destruct H as (_ & _ & _ & Hp & _ & [(_ & ? & _) | [(_ & e & _ & ? & _)
                               | (_ & rows' & d & Hx & _ & E)]]);
    try discriminate.
  split; [exact Hp |]. rewrite E. cbn in Hx. injection Hx as _ <-.
  rewrite rows_of_set_rows. reflexivity.
Qed.

Lemma account_loop (accounts : list (Value * Z)) f f' :
  for_each accounts
    (fun item =>
       insert (UpdateSet T_member "user_account_id" "ua_id" "member_id")
              [("member_id", fst item); ("ua_id", VInt (snd item))])
    f = (inr tt, f') ->
  Forall2 (account_given accounts)
          (rows_of (db f) T_member) (rows_of (db f') T_member).
Proof.
  revert f. induction accounts as [| [k account] accounts IH]; intros f H;
    cbn [for_each] in H.
  - injection H as <-. apply Forall2_same. intros a.
    unfold account_given. cbn. repeat split; auto. tauto.
  - apply bind_ok in H. destruct H as ([] & f1 & Hupd & H).
    apply update_sets_account in Hupd. cbn [fst snd] in Hupd.
    destruct Hupd as [_ Hrows].
    specialize (IH _ H). rewrite Hrows in IH.
    apply Forall2_map_left in IH.
    eapply Forall2_impl; [| exact IH].
    intros before after (Hid & Hcells & Hin & Hout).
    unfold update_row in *.
    destruct (value_eqb (VInt (fst before)) k) eqn:Hk; cbn [fst snd] in *.
    + apply value_eqb_int in Hk. subst k.
      unfold account_given. cbn [map fst]. repeat apply conj.
      * exact Hid.
      * intros c Hc. rewrite Hcells by exact Hc.
        now apply cell_set_cell_other.
      * intros _.
        destruct (existsb (value_eqb (VInt (fst before))) (map fst accounts))
          eqn:Hex.
        -- apply existsb_exists in Hex. destruct Hex as (k & Hk & Hv).
           apply value_eqb_int in Hv. subst k.
           destruct (Hin Hk) as (acc & Hacc & Hcell).
           exists acc. split; [now right | exact Hcell].
        -- assert (Hnot : ~ In (VInt (fst before)) (map fst accounts)).
           { intros Hi. apply not_true_iff_false in Hex. apply Hex.
             apply existsb_exists. exists (VInt (fst before)). split; auto.
             now apply value_eqb_int. }
           rewrite (Hout Hnot). exists account. split; [now left |].
           cbn [snd]. apply cell_set_cell_same.
      * intros Hnot. exfalso. apply Hnot. now left.
    + assert (Hne : k <> VInt (fst before)).
      { intros ->. apply not_true_iff_false in Hk. apply Hk.
        now apply value_eqb_int. }
      unfold account_given. cbn [map fst]. repeat apply conj; auto.
      * intros [Hi | Hi]; [contradiction |].
        destruct (Hin Hi) as (acc & Hacc & Hcell).
        exists acc. split; [now right | exact Hcell].
      * intros Hnot. apply Hout. intros Hi. apply Hnot. now right.
Qed.

(** X12: when the account update completes, each member row whose
    identifier is a key of the accounts mapping has, as its account, an
    identifier stored under that key; nothing else changes in the member
    table: the other columns of these rows and the rows of the other
    members are as before. *)
Theorem accounts_are_given_to_their_members (f f' : Feeder)
    (accounts : list (Value * Z)) :
  user_accounts (pools f) = Some accounts ->
  _update_members_user_account f = (inr tt, f') ->
  Forall2 (account_given accounts)
          (rows_of (db f) T_member) (rows_of (db f') T_member).
Proof.
  intros Ha H. unfold _update_members_user_account in H.
  rewrite (bind_step _ _ _ _ _ (attr_run _ _ _ _ Ha)) in H.
  now apply account_loop.
Qed.

Lemma accounts_are_given_to_their_members_witness :
  Forall2 (account_given [(VInt 1, 9%Z)])
    (rows_of two_members T_member)
    (rows_of
       (db (snd (_update_members_user_account
                   (with_pools (set_user_accounts [(VInt 1, 9%Z)] no_pools)
                               (new_feeder two_members 2)))))
       T_member).
Proof.
  apply (accounts_are_given_to_their_members
           (with_pools (set_user_accounts [(VInt 1, 9%Z)] no_pools)
                       (new_feeder two_members 2))
           (snd (_update_members_user_account
                   (with_pools (set_user_accounts [(VInt 1, 9%Z)] no_pools)
                               (new_feeder two_members 2))))
           [(VInt 1, 9%Z)]).
  - reflexivity.
  - vm_compute. reflexivity.
Defined.

(** ** Runs that complete *)

Lemma runs_bind {A B} (m : M A) (k : A -> M B) f post :
  runs m f (fun a f1 => runs (k a) f1 post) -> runs (bind m k) f post.
Proof.
  intros (a & f1 & Hm & b & f2 & Hk & Hpost). exists b, f2. split; auto.
  now rewrite (bind_step _ _ _ _ _ Hm).
Qed.

Lemma runs_post {A} (m : M A) f (post post' : A -> Feeder -> Prop) :
  runs m f post -> (forall a f', post a f' -> post' a f') -> runs m f post'.
Proof. intros (a & f' & Hm & Hp) H. exists a, f'. auto. Qed.

Lemma runs_ret {A} (a : A) f (post : A -> Feeder -> Prop) :
  post a f -> runs (ret a) f post.
Proof. intros H. exists a, f. auto. Qed.

Lemma ids_length rows : List.length (ids rows) = List.length rows.
Proof. unfold ids. apply length_map. Qed.

(** On a quiet gateway a statement does what the tables allow. *)
Lemma query_quiet s parameters f :
  quiet f ->
  query s parameters f
  = match execute s parameters (db f) with
    | inl e => (inl e, with_journal (journal f ++ [s]) f)
    | inr (rows, d) =>
        (inr rows, with_db d (with_journal (journal f ++ [s]) f))
    end.
Proof.
  intros [Hf Hv]. unfold query.
  rewrite (Hf _ (le_n _)), (Hv _ (le_n _)), andb_false_r. reflexivity.
Qed.

Lemma grown_nothing f : grown (fun _ => 0) f f.
Proof.
  repeat split; auto.
  - exists []. now rewrite app_nil_r.
  - intros t. exists []. cbn. rewrite !app_nil_r. auto.
Qed.

Lemma grown_trans a b c f f1 f2 :
  (forall t, c t = a t + b t) ->
  grown a f f1 -> grown b f1 f2 -> grown c f f2.
Proof.
  intros Hc ((F1 & V1) & S1 & (j1 & J1) & L1)
    ((F2 & V2) & S2 & (j2 & J2) & L2).
  repeat split; try congruence.
  - exists (j1 ++ j2). now rewrite J2, J1, app_assoc.
  - intros t. destruct (L1 t) as (i1 & N1 & I1 & R1).
    destruct (L2 t) as (i2 & N2 & I2 & R2).
    exists (i1 ++ i2). repeat split.
    + rewrite length_app, Hc. lia.
    + rewrite I2, I1. unfold ids. now rewrite map_app, app_assoc.
    + intros Ht. now rewrite (R2 Ht), (R1 Ht), app_assoc.
Qed.

Lemma grown_same tally tally' f f' :
  (forall t, tally' t = tally t) -> grown tally f f' -> grown tally' f f'.
Proof.
  intros H ((F & V) & S & J & L). repeat split; auto.
  intros t. destruct (L t) as (i & N & I & R). exists i. rewrite H. auto.
Qed.

Lemma grown_length tally f f' t :
  grown tally f f' ->
  List.length (rows_of (db f') t) = List.length (rows_of (db f) t) + tally t.
Proof.
  intros (_ & _ & _ & L). destruct (L t) as (i & N & I & _).
  rewrite <- !ids_length, I, length_app, !ids_length. lia.
Qed.

(** A table that gained nothing is as it was. *)
Lemma grown_untouched tally f f' t :
  grown tally f f' -> tally t = 0 -> t <> T_member ->
  rows_of (db f') t = rows_of (db f) t.
Proof.
  intros (_ & _ & _ & L) H0 Ht. destruct (L t) as (i & N & _ & R).
  rewrite (R Ht). rewrite H0 in N. apply length_zero_iff_nil in N.
  subst i. apply app_nil_r.
Qed.

Lemma quiet_grown tally f f' : quiet f -> grown tally f f' -> quiet f'.
Proof.
  intros [Hf Hv] ((F & V) & _ & (sent & J) & _).
  split; intros i Hi; rewrite J, length_app in Hi.
  - rewrite F. apply Hf. lia.
  - rewrite V. apply Hv. lia.
Qed.

(** The world plays no part. *)
Lemma grown_step a b f f1 w f2 :
  grown a f f1 -> grown b (with_world w f1) f2 ->
  grown (fun t => a t + b t) f f2.
Proof.
  intros G1 G2. eapply grown_trans; [| exact G1 | exact G2]. reflexivity.
Qed.

Lemma say_runs s f :
  runs (say s) f (fun _ f' => exists w, f' = with_world w f).
Proof.
  unfold say, liftW, print. cbn. do 2 eexists. split; [reflexivity |]. eauto.
Qed.

Lemma query_select_runs columns t f :
  quiet f ->
  runs (query (SelectFrom columns t) []) f
    (fun rows f' =>
       rows = rows_of (db f) t /\ grown (fun _ => 0) f f' /\
       pools f' = pools f /\ db f' = db f).
Proof.
  intros Hq. unfold runs. rewrite (query_quiet _ _ _ Hq). cbn [execute].
  do 2 eexists. split; [reflexivity |].
  split; [reflexivity |]. split; [| split; reflexivity].
  repeat split; auto.
  - eexists. reflexivity.
  - intros t'. exists []. cbn. rewrite !app_nil_r. auto.
Qed.

Lemma insert_runs t columns parameters cells f :
  bind_parameters columns parameters = Some cells ->
  quiet f ->
  runs (insert (InsertInto t columns) parameters) f
    (fun _ f' => grown (rows_for t 1) f f' /\ pools f' = pools f).
Proof.
  intros Hb Hq. unfold runs, insert, bind.
  rewrite (query_quiet _ _ _ Hq). cbn [execute]. rewrite Hb.
  do 2 eexists. split; [reflexivity |].
  split; [| reflexivity]. repeat split; auto.
  - eexists. reflexivity.
  - intros t'. unfold rows_for. cbn [db with_db].
    rewrite rows_of_set_rows.
    destruct (Entity_eqb t t') eqn:E.
    + apply Entity_eqb_eq in E. subst t'.
      exists [(next_id (rows_of (db f) t), cells)]. repeat split.
      unfold ids. now rewrite map_app.
    + exists []. cbn. rewrite !app_nil_r. auto.
Qed.

(** The loop of an insertion stage, when every record can be made and
    holds the columns of the statement. *)
Lemma insert_loop_runs {A B} (make : B -> G A) (dict : A -> Dict) t columns
    xs :
  (forall b w, In b xs ->
     exists a w', make b w = (inr a, w') /\
                  exists cells, bind_parameters columns (dict a) = Some cells) ->
  forall f,
    quiet f ->
    runs (for_each (map make xs)
            (fun next => x <- liftW next ;;
                         insert (InsertInto t columns) (dict x))) f
      (fun _ f' =>
         grown (rows_for t (List.length xs)) f f' /\ pools f' = pools f).
Proof.
  induction xs as [| b xs IH]; intros Hmake f Hq; cbn [map for_each].
  - apply runs_ret. split; [| reflexivity].
    apply (grown_same (fun _ => 0)); [| apply grown_nothing].
    intros t'. unfold rows_for. now destruct (Entity_eqb t t').
  - destruct (Hmake b (world f) (or_introl eq_refl))
      as (a & w' & Ha & cells & Hcells).
    apply runs_bind. apply runs_bind.
    exists a, (with_world w' f). split.
    { unfold liftW. now rewrite Ha. }
    eapply runs_post; [apply (insert_runs t columns _ cells); auto |].
    cbn beta. intros [] f1 (G1 & P1).
    eapply runs_post.
    { apply IH; [intros; apply Hmake; now right |].
      eapply quiet_grown; [| exact G1]. exact Hq. }
    cbn beta. intros [] f2 (G2 & P2). split.
    + eapply grown_trans; [| exact G1 | exact G2].
      intros t'. unfold rows_for. destruct (Entity_eqb t t'); cbn; lia.
    + now rewrite P2, P1.
Qed.

(** A loop over a generator that has started. *)
Lemma for_gen_runs {S A B} (g : Gen S A) (write_back : S -> M unit)
    (upd : Pools -> Pools) (make : B -> G A) (dict : A -> Dict) t columns
    xs s w1 f :
  g (world f) = (inr (s, map make xs), w1) ->
  (forall f0, write_back s f0 = (inr tt, with_pools (upd (pools f0)) f0)) ->
  (forall b w, In b xs ->
     exists a w', make b w = (inr a, w') /\
                  exists cells, bind_parameters columns (dict a) = Some cells) ->
  quiet f ->
  runs (for_gen g write_back
          (fun x => insert (InsertInto t columns) (dict x))) f
    (fun _ f' =>
       grown (rows_for t (List.length xs)) f f' /\ pools f' = upd (pools f)).
Proof.
  intros Hg Hwb Hmake Hq. unfold for_gen.
  apply runs_bind. exists (s, map make xs), (with_world w1 f). split.
  { unfold liftW. now rewrite Hg. }
  apply runs_bind. cbn [fst snd].
  exists tt, (with_pools (upd (pools f)) (with_world w1 f)). split.
  { exact (Hwb (with_world w1 f)). }
  eapply runs_post; [apply insert_loop_runs; [exact Hmake | exact Hq] |].
  cbn beta. intros [] f' (G1 & P1). split; [exact G1 | exact P1].
Qed.

(** An insertion stage: the loop, then the identifiers read back and
    stored. *)
Lemma insertion_runs {S A B C} (g : Gen S A) (write_back : S -> M unit)
    (upd : Pools -> Pools) (make : B -> G A) (dict : A -> Dict) t columns
    selected (set : C -> Pools -> Pools) (read : list Row -> C)
    (get : Pools -> option C) name xs s w1 f :
  g (world f) = (inr (s, map make xs), w1) ->
  (forall f0, write_back s f0 = (inr tt, with_pools (upd (pools f0)) f0)) ->
  (forall b w, In b xs ->
     exists a w', make b w = (inr a, w') /\
                  exists cells, bind_parameters columns (dict a) = Some cells) ->
  (forall v p, get (set v p) = Some v) ->
  quiet f ->
  runs (for_gen g write_back
          (fun x => insert (InsertInto t columns) (dict x)) ;;;
        rows <- query (SelectFrom selected t) [] ;;
        assign (set (read rows)) ;;;
        attr get name) f
    (fun v f' =>
       grown (rows_for t (List.length xs)) f f' /\
       pools f' = set v (upd (pools f)) /\
       v = read (rows_of (db f') t)).
Proof.
  intros Hg Hwb Hmake Hget Hq.
  apply runs_bind.
  eapply runs_post; [eapply for_gen_runs; eauto |].
  cbn beta. intros [] f1 (G1 & P1).
  apply runs_bind.
  eapply runs_post;
    [apply query_select_runs; eapply quiet_grown; [exact Hq | exact G1] |].
  cbn beta. intros rows f2 (-> & G2 & P2 & D2).
  apply runs_bind.
  exists tt, (with_pools (set (read (rows_of (db f1) t)) (pools f2)) f2).
  split; [reflexivity |].
  exists (read (rows_of (db f1) t)),
    (with_pools (set (read (rows_of (db f1) t)) (pools f2)) f2).
  split.
  { apply attr_run. cbn. apply Hget. }
  assert (G : grown (rows_for t (List.length xs)) f f2).
  { eapply grown_trans; [| exact G1 | exact G2]. intros t'. cbn beta. lia. }
  split; [exact G |]. unfold with_pools. cbn [pools db].
  split; [now rewrite P2, P1 | now rewrite D2].
Qed.

Lemma _insert_addresses_runs f :
  quiet f ->
  runs _insert_addresses f
    (fun v f' =>
       grown (rows_for T_address (Z.to_nat (size f))) f f' /\
       pools f' = set_address_ids v (pools f) /\
       List.length v = List.length (rows_of (db f') T_address)).
Proof.
  intros Hq. unfold _insert_addresses.
  apply runs_bind. exists (size f), f. split; [reflexivity |].
  eapply runs_post.
  { eapply (insertion_runs _ _ (fun p => p) (fun _ : nat => FakeAddress)
              Address.dict T_address _ _
              (fun v => set_address_ids v) (fun rows => map Some (ids rows))
              address_ids _ (range (size f)) tt (world f)); auto.
    - intros [? ? ? ? ? ?]. reflexivity.
    - intros b w _. pose proof (FakeAddress_run w) as E. cbv zeta in E.
      destruct (match_number_street _) as [[number rest] |]; rewrite E;
        do 2 eexists; (split; [reflexivity | eexists; reflexivity]). }
  cbn beta. intros v f' (G & P & ->). split; [| split].
  - unfold range in G. now rewrite length_seq in G.
  - exact P.
  - unfold ids. now rewrite !length_map.
Qed.

Lemma pizzerias_started a w :
  exists a' w1,
    RandomDataGenerator.pizzerias a w
    = (inr (a',
            map (fun i_name : nat * string =>
                   address_id <- index a' (fst i_name) ;;
                   FakePizzeria (snd i_name) address_id)
                (RandomDataGenerator.enumerate
                   RandomDataGenerator.pizzeria_names)), w1) /\
    List.length a <= List.length a' /\ 5 <= List.length a'.
Proof.
  unfold RandomDataGenerator.pizzerias, len.
  destruct (Z.ltb_spec (Z.of_nat (List.length a)) 5) as [Hlt | Hge].
  - destruct (shuffle_perm (a ++ repeat None 5) w) as (x & w1 & E & Hp & _).
    rewrite (bind_step _ _ _ _ _ E). exists x, w1. split; [reflexivity |].
    apply Permutation_length in Hp. rewrite length_app, repeat_length in Hp.
    lia.
  - rewrite (bind_step _ _ _ a w eq_refl). exists a, w.
    split; [reflexivity |]. lia.
Qed.

Lemma _insert_pizzerias_runs f a :
  address_ids (pools f) = Some a ->
  quiet f ->
  runs _insert_pizzerias f
    (fun v f' =>
       exists a',
         grown (rows_for T_pizzeria 5) f f' /\
         pools f' = set_pizzeria_ids v (set_address_ids a' (pools f)) /\
         List.length v = List.length (rows_of (db f') T_pizzeria) /\
         List.length a <= List.length a').
Proof.
  intros Ha Hq. unfold _insert_pizzerias.
  apply runs_bind. exists a, f. split; [now apply attr_run |].
  destruct (pizzerias_started a (world f)) as (a' & w1 & Hg & Hlen & Hfive).
  eapply runs_post.
  { eapply (insertion_runs _ _ (set_address_ids a') _ Pizzeria.dict
              T_pizzeria _ _ (fun v => set_pizzeria_ids v) ids pizzeria_ids
              _ _ a' w1);
      [exact Hg | reflexivity | | reflexivity | exact Hq].
    intros [i name] w Hin. apply in_combine_l in Hin. apply in_seq in Hin.
      cbn [fst snd].
      destruct (nth_error_within a' i) as (x & Hx); [cbn in Hin; lia |].
      rewrite (bind_step _ _ _ _ _ (index_run _ _ _ w Hx)).
      destruct (FakePizzeria_run name x w) as (ph & w' & ->).
      do 2 eexists. split; [reflexivity |]. eexists. reflexivity. }
  cbn beta. intros v f' (G & P & ->). exists a'.
  split; [exact G | split; [exact P | split; [apply ids_length | exact Hlen]]].
Qed.

Lemma members_started a p size w :
  (size <= len a)%Z ->
  exists pz a' w1,
    RandomDataGenerator.members a p size w
    = (inr (a',
            map (fun i =>
                   pizzeria_id <- choice pz ;;
                   address_id <- index a' i ;;
                   FakeMember pizzeria_id address_id)
                (range size)), w1) /\
    Permutation a a' /\ List.length pz = List.length p.
Proof.
  intros Hsize. unfold RandomDataGenerator.members.
  destruct (Z.ltb_spec (len a) size) as [Hlt | _]; [lia |].
  destruct (staff_draws p w) as (pz & w1 & Epz & Hpz).
  rewrite (bind_step _ _ _ _ _ Epz).
  destruct (shuffle_perm a w1) as (a' & w2 & Esh & Hperm & _).
  rewrite (bind_step _ _ _ _ _ Esh).
  exists pz, a', w2. split; [reflexivity |]. split; [exact Hperm |].
  symmetry. eapply Forall2_length; eauto.
Qed.

Lemma _insert_members_runs f a p :
  address_ids (pools f) = Some a ->
  pizzeria_ids (pools f) = Some p ->
  (size f <= len a)%Z ->
  p <> [] ->
  quiet f ->
  runs _insert_members f
    (fun v f' =>
       exists a',
         grown (rows_for T_member (Z.to_nat (size f))) f f' /\
         pools f' = set_member_ids v (set_address_ids a' (pools f)) /\
         List.length v = List.length (rows_of (db f') T_member) /\
         List.length a' = List.length a).
Proof.
  intros Ha Hp Hsize Hne Hq. unfold _insert_members.
  apply runs_bind. exists a, f. split; [now apply attr_run |].
  apply runs_bind. exists p, f. split; [now apply attr_run |].
  apply runs_bind. exists (size f), f. split; [reflexivity |].
  destruct (members_started a p (size f) (world f) Hsize)
    as (pz & a' & w1 & Hg & Hperm & Hpz).
  eapply runs_post.
  { eapply (insertion_runs _ _ (set_address_ids a') _ Member.dict
              T_member _ _ (fun v => set_member_ids v) ids member_ids
              _ _ a' w1);
      [exact Hg | reflexivity | | reflexivity | exact Hq].
    intros i w Hin. apply in_range in Hin.
      destruct pz as [| o pz]; [destruct p; [contradiction | discriminate] |].
      destruct (choice_total o pz w) as (pid & E & _).
      rewrite (bind_step _ _ _ _ _ E).
      destruct (nth_error_within a' i) as (x & Hx).
      { rewrite <- (Permutation_length Hperm). unfold len in Hsize. lia. }
      rewrite (bind_step _ _ _ _ _ (index_run _ _ _ _ Hx)).
      destruct (FakeMember_run pid x (advance w)) as (n & fn & w' & ->).
      do 2 eexists. split; [reflexivity |]. eexists. reflexivity. }
  cbn beta. intros v f' (G & P & ->). exists a'.
  unfold range in G. rewrite length_seq in G.
  split; [exact G | split; [exact P | split; [apply ids_length |]]].
  symmetry. now apply Permutation_length.
Qed.

Lemma user_accounts_started m size w :
  (size <= len m)%Z ->
  exists m' w1,
    RandomDataGenerator.user_accounts m size w
    = (inr (m',
            map (fun i => member_id <- index m' i ;;
                          FakeUserAccount member_id)
                (range size)), w1) /\
    Permutation m m'.
Proof.
  intros Hsize. unfold RandomDataGenerator.user_accounts.
  destruct (Z.ltb_spec (len m) size) as [Hlt | _]; [lia |].
  destruct (shuffle_perm m w) as (m' & w1 & Esh & Hperm & _).
  rewrite (bind_step _ _ _ _ _ Esh).
  exists m', w1. split; [reflexivity | exact Hperm].
Qed.

Lemma _insert_user_accounts_runs f m :
  member_ids (pools f) = Some m ->
  (size f <= len m)%Z ->
  quiet f ->
  runs _insert_user_accounts f
    (fun v f' =>
       exists m',
         grown (rows_for T_user_account (Z.to_nat (size f))) f f' /\
         pools f' = set_user_accounts v (set_member_ids m' (pools f)) /\
         List.length m' = List.length m).
Proof.
  intros Hm Hsize Hq. unfold _insert_user_accounts.
  apply runs_bind. exists m, f. split; [now apply attr_run |].
  apply runs_bind. exists (size f), f. split; [reflexivity |].
  destruct (user_accounts_started m (size f) (world f) Hsize)
    as (m' & w1 & Hg & Hperm).
  eapply runs_post.
  { eapply (insertion_runs _ _ (set_member_ids m') _ UserAccount.dict
              T_user_account _ _ (fun v => set_user_accounts v)
              (dict_by "member_id") user_accounts
              _ _ m' w1);
      [exact Hg | reflexivity | | reflexivity | exact Hq].
    intros i w Hin. apply in_range in Hin.
      destruct (nth_error_within m' i) as (x & Hx).
      { rewrite <- (Permutation_length Hperm). unfold len in Hsize. lia. }
      rewrite (bind_step _ _ _ _ _ (index_run _ _ _ _ Hx)).
      destruct (FakeUserAccount_run x w) as (ml & ph & pw & w' & ->).
      do 2 eexists. split; [reflexivity |]. eexists. reflexivity. }
  cbn beta. intros v f' (G & P & ->). exists m'.
  unfold range in G. rewrite length_seq in G.
  split; [exact G | split; [exact P |]].
  symmetry. now apply Permutation_length.
Qed.

Lemma update_runs column parameter id_parameter parameters v id f :
  lookup parameters parameter = Some v ->
  lookup parameters id_parameter = Some id ->
  quiet f ->
  runs (insert (UpdateSet T_member column parameter id_parameter) parameters)
    f (fun _ f' => grown (fun _ => 0) f f' /\ pools f' = pools f).
Proof.
  intros Hv Hid Hq. unfold runs, insert, bind.
  rewrite (query_quiet _ _ _ Hq). cbn [execute]. rewrite Hv, Hid.
  do 2 eexists. split; [reflexivity |].
  split; [| reflexivity]. repeat split; auto.
  - eexists. reflexivity.
  - intros t'. exists []. cbn [db with_db]. rewrite rows_of_set_rows.
    cbn [List.length ids map]. rewrite !app_nil_r.
    destruct (Entity_eqb T_member t') eqn:E.
    + apply Entity_eqb_eq in E. subst t'. rewrite ids_update_row.
      repeat split. intros Ht. now contradiction Ht.
    + auto.
Qed.

Lemma account_loop_runs (accounts : list (Value * Z)) f :
  quiet f ->
  runs (for_each accounts
          (fun item =>
             insert (UpdateSet T_member "user_account_id" "ua_id" "member_id")
                    [("member_id", fst item); ("ua_id", VInt (snd item))]))
    f (fun _ f' => grown (fun _ => 0) f f' /\ pools f' = pools f).
Proof.
  revert f. induction accounts as [| item accounts IH]; intros f Hq;
    cbn [for_each].
  - apply runs_ret. split; [apply grown_nothing | reflexivity].
  - apply runs_bind.
    eapply runs_post;
      [apply (update_runs _ _ _ _ (VInt (snd item)) (fst item));
       [reflexivity | reflexivity | exact Hq] |].
    cbn beta. intros [] f1 (G1 & P1).
    eapply runs_post; [apply IH; eapply quiet_grown; eauto |].
    cbn beta. intros [] f2 (G2 & P2). split.
    + eapply grown_trans; [| exact G1 | exact G2]. reflexivity.
    + now rewrite P2, P1.
Qed.

Lemma _update_members_user_account_runs f accounts :
  user_accounts (pools f) = Some accounts ->
  quiet f ->
  runs _update_members_user_account f
    (fun _ f' => grown (fun _ => 0) f f' /\ pools f' = pools f).
Proof.
  intros Ha Hq. unfold _update_members_user_account.
  apply runs_bind. exists accounts, f. split; [now apply attr_run |].
  now apply account_loop_runs.
Qed.

Lemma keep_pools (f0 : Feeder) :
  ret tt f0 = (inr tt, with_pools ((fun p => p) (pools f0)) f0).
Proof. now destruct f0. Qed.

Lemma _insert_recipes_runs f :
  quiet f ->
  runs _insert_recipes f
    (fun v f' =>
       grown (rows_for T_recipe 23) f f' /\
       pools f' = set_recipes v (pools f) /\
       v = dict_by "name" (rows_of (db f') T_recipe)).
Proof.
  intros Hq. unfold _insert_recipes.
  eapply (insertion_runs _ _ (fun p => p) FakeRecipe Recipe.dict T_recipe _ _
            (fun v => set_recipes v) (dict_by "name") recipes _
            RandomDataGenerator.recipe_names tt (world f));
    [reflexivity | apply keep_pools | | reflexivity | exact Hq].
  intros name w _. destruct (FakeRecipe_run name w) as (d & p & w' & ->).
  do 2 eexists. split; [reflexivity |]. eexists. reflexivity.
Qed.

Lemma _insert_catalog_items_runs f m :
  recipes (pools f) = Some m ->
  quiet f ->
  runs _insert_catalog_items f
    (fun v f' =>
       grown (rows_for T_catalog_item (List.length m)) f f' /\
       pools f' = set_catalog_item_ids v (pools f) /\
       v = ids (rows_of (db f') T_catalog_item)).
Proof.
  intros Hm Hq. unfold _insert_catalog_items.
  apply runs_bind. exists m, f. split; [now apply attr_run |].
  eapply (insertion_runs _ _ (fun p => p)
            (fun item : Value * Z =>
               FakeCatalogItem (fst item) "recipe" (snd item))
            CatalogItem.dict T_catalog_item _ _
            (fun v => set_catalog_item_ids v) ids catalog_item_ids _
            m tt (world f));
    [reflexivity | apply keep_pools | | reflexivity | exact Hq].
  intros item w _.
  destruct (FakeCatalogItem_run (fst item) "recipe" (snd item) w)
    as (d & pf & pr & av & di & w' & ->).
  cbn. do 2 eexists. split; [reflexivity |]. eexists. reflexivity.
Qed.

Lemma _insert_order_status_runs f :
  quiet f ->
  runs _insert_order_status f
    (fun v f' =>
       grown (rows_for T_order_status 4) f f' /\
       pools f' = set_order_status_ids v (pools f) /\
       v = ids (rows_of (db f') T_order_status)).
Proof.
  intros Hq. unfold _insert_order_status.
  eapply (insertion_runs _ _ (fun p => p)
            (fun label => ret (OrderStatus.mk label))
            OrderStatus.dict T_order_status _ _
            (fun v => set_order_status_ids v) ids order_status_ids _
            RandomDataGenerator.order_status_labels tt (world f));
    [reflexivity | apply keep_pools | | reflexivity | exact Hq].
  intros label w _. do 2 eexists. split; [reflexivity |].
  eexists. reflexivity.
Qed.

Lemma _insert_keywords_runs f :
  quiet f ->
  runs _insert_keywords f
    (fun v f' =>
       grown (rows_for T_keyword 35) f f' /\
       pools f' = set_keyword_ids v (pools f) /\
       v = ids (rows_of (db f') T_keyword)).
Proof.
  intros Hq. unfold _insert_keywords.
  eapply (insertion_runs _ _ (fun p => p)
            (fun label => ret (Keyword.mk label))
            Keyword.dict T_keyword _ _
            (fun v => set_keyword_ids v) ids keyword_ids _
            RandomDataGenerator.keyword_labels tt (world f));
    [reflexivity | apply keep_pools | | reflexivity | exact Hq].
  intros label w _. do 2 eexists. split; [reflexivity |].
  eexists. reflexivity.
Qed.

Lemma _insert_permissions_runs f :
  quiet f ->
  runs _insert_permissions f
    (fun v f' =>
       grown (rows_for T_permission 5) f f' /\
       pools f' = set_permission_ids v (pools f) /\
       v = ids (rows_of (db f') T_permission)).
Proof.
  intros Hq. unfold _insert_permissions.
  eapply (insertion_runs _ _ (fun p => p)
            (fun label => ret (Permission.mk label))
            Permission.dict T_permission _ _
            (fun v => set_permission_ids v) ids permission_ids _
            RandomDataGenerator.permission_labels tt (world f));
    [reflexivity | apply keep_pools | | reflexivity | exact Hq].
  intros label w _. do 2 eexists. split; [reflexivity |].
  eexists. reflexivity.
Qed.

Lemma _insert_roles_runs f :
  quiet f ->
  runs _insert_roles f
    (fun v f' =>
       grown (rows_for T_role 5) f f' /\
       pools f' = set_role_ids v (pools f) /\
       v = ids (rows_of (db f') T_role)).
Proof.
  intros Hq. unfold _insert_roles.
  eapply (insertion_runs _ _ (fun p => p)
            (fun name => ret (Role.mk name))
            Role.dict T_role _ _
            (fun v => set_role_ids v) ids role_ids _
            RandomDataGenerator.role_names tt (world f));
    [reflexivity | apply keep_pools | | reflexivity | exact Hq].
  intros label w _. do 2 eexists. split; [reflexivity |].
  eexists. reflexivity.
Qed.

(** The products loop reads the identifiers back after each insertion. *)
Lemma products_loop_runs (names : list string) f :
  quiet f ->
  runs (for_each (map FakeProduct names)
          (fun next =>
             x <- liftW next ;;
             (insert (InsertInto T_product
                        ["name"; "barcode"; "gram_weight"; "unit_price_ati"])
                     (Product.dict x) ;;;
              rows <- query (SelectFrom ["id"] T_product) [] ;;
              assign (set_product_ids (ids rows))))) f
    (fun _ f' =>
       grown (rows_for T_product (List.length names)) f f' /\
       match names with
       | [] => pools f' = pools f
       | _ => exists v,
             pools f' = set_product_ids v (pools f) /\
             List.length v = List.length (rows_of (db f') T_product)
       end).
Proof.
  revert f. induction names as [| name names IH]; intros f Hq;
    cbn [map for_each].
  - apply runs_ret. split; [| reflexivity].
    apply (grown_same (fun _ => 0)); [| apply grown_nothing].
    intros t'. unfold rows_for. now destruct (Entity_eqb T_product t').
  - destruct (FakeProduct_run name (world f)) as (b & wt & pr & w' & Hp).
    apply runs_bind. apply runs_bind.
    exists (Product.mk name b wt pr), (with_world w' f). split.
    { unfold liftW. now rewrite Hp. }
    apply runs_bind.
    eapply runs_post;
      [eapply (insert_runs T_product); [reflexivity | exact Hq] |].
    cbn beta. intros [] f1 (G1 & P1).
    assert (Hq1 : quiet f1) by (eapply quiet_grown; [| exact G1]; exact Hq).
    apply runs_bind.
    eapply runs_post; [apply query_select_runs; exact Hq1 |].
    cbn beta. intros rows f2 (-> & G2 & P2 & D2).
    exists tt, (with_pools (set_product_ids (ids (rows_of (db f1) T_product))
                              (pools f2)) f2).
    split; [reflexivity |].
    assert (Hq2 : quiet f2) by (eapply quiet_grown; [| exact G2]; exact Hq1).
    eapply runs_post; [apply IH; exact Hq2 |].
    cbn beta. intros [] f3 (G3 & P3).
    unfold with_pools in P3. cbn [pools] in P3.
    rewrite P2, P1 in P3. cbn [pools with_world] in P3.
    split.
    + eapply grown_trans; [| exact G1 |].
      2:{ eapply grown_trans; [| exact G2 | exact G3]. reflexivity. }
      intros t'. unfold rows_for. destruct (Entity_eqb T_product t'); cbn; lia.
    + destruct names as [| name' names].
      * exists (ids (rows_of (db f1) T_product)). split; [exact P3 |].
        rewrite ids_length.
        rewrite (grown_length _ _ _ T_product G3).
        change (db (with_pools ?p f2)) with (db f2).
        rewrite (grown_length _ _ _ T_product G2). cbn. lia.
      * destruct P3 as (v & P3 & Hv). exists v. split; [| exact Hv].
        rewrite P3. reflexivity.
Qed.

Lemma _insert_products_runs f :
  quiet f ->
  runs _insert_products f
    (fun v f' =>
       grown (rows_for T_product 35) f f' /\
       pools f' = set_product_ids v (pools f) /\
       List.length v = List.length (rows_of (db f') T_product)).
Proof.
  intros Hq. unfold _insert_products, for_gen.
  apply runs_bind. apply runs_bind.
  exists (tt, map FakeProduct RandomDataGenerator.product_names), f.
  split; [now destruct f |].
  apply runs_bind. exists tt, f. split; [reflexivity |]. cbn [snd].
  eapply runs_post; [apply products_loop_runs; exact Hq |].
  cbn beta. intros [] f' (G & v & P & Hv).
  exists v, f'. split; [apply attr_run; now rewrite P |].
  split; [exact G | split; [exact P | exact Hv]].
Qed.

Lemma taken_orders_started m a p s size w :
  (size <= len m)%Z ->
  (size <= len a)%Z ->
  exists m' a' w1,
    RandomDataGenerator.taken_orders m a p s size w
    = (inr ((m', a'),
            map (fun _ : nat =>
                   member_id <- choice m' ;;
                   address_id <- choice a' ;;
                   pizzeria_id <- choice p ;;
                   FakeTakenOrder member_id address_id pizzeria_id s)
                (range size)), w1) /\
    Permutation m m' /\ Permutation a a'.
Proof.
  intros Hm Ha. unfold RandomDataGenerator.taken_orders.
  destruct (Z.ltb_spec (len m) size) as [Hlt | _]; [lia |].
  destruct (Z.ltb_spec (len a) size) as [Hlt | _]; [lia |].
  destruct (shuffle_perm m w) as (m' & w1 & Em & Hpm & _).
  rewrite (bind_step _ _ _ _ _ Em).
  destruct (shuffle_perm a w1) as (a' & w2 & Ea & Hpa & _).
  rewrite (bind_step _ _ _ _ _ Ea).
  exists m', a', w2. split; [reflexivity |]. split; assumption.
Qed.

Lemma _insert_taken_orders_runs f m a p s :
  member_ids (pools f) = Some m ->
  address_ids (pools f) = Some a ->
  pizzeria_ids (pools f) = Some p ->
  order_status_ids (pools f) = Some s ->
  (size f <= len m)%Z ->
  (size f <= len a)%Z ->
  p <> [] ->
  s <> [] ->
  quiet f ->
  runs _insert_taken_orders f
    (fun v f' =>
       exists m' a',
         grown (rows_for T_taken_order (Z.to_nat (size f))) f f' /\
         pools f'
         = set_taken_order_ids v
             (set_address_ids a' (set_member_ids m' (pools f))) /\
         List.length v = List.length (rows_of (db f') T_taken_order)).
Proof.
  intros Hm Ha Hp Hs Hlm Hla Hpne Hsne Hq. unfold _insert_taken_orders.
  apply runs_bind. exists m, f. split; [now apply attr_run |].
  apply runs_bind. exists a, f. split; [now apply attr_run |].
  apply runs_bind. exists p, f. split; [now apply attr_run |].
  apply runs_bind. exists s, f. split; [now apply attr_run |].
  apply runs_bind. exists (size f), f. split; [reflexivity |].
  destruct (taken_orders_started m a p s (size f) (world f) Hlm Hla)
    as (m' & a' & w1 & Hg & Hpm & Hpa).
  eapply runs_post.
  { eapply (insertion_runs _ _
              (fun pl => set_address_ids a' (set_member_ids m' pl))
              _ TakenOrder.dict
              T_taken_order _ _ (fun v => set_taken_order_ids v) ids
              taken_order_ids _ _ (m', a') w1);
      [exact Hg | reflexivity | | reflexivity | exact Hq].
    intros i w Hin. apply in_range in Hin.
    destruct m' as [| m0 m'].
    { apply Permutation_length in Hpm. unfold len in Hlm. cbn in Hpm. lia. }
    destruct a' as [| a0 a'].
    { apply Permutation_length in Hpa. unfold len in Hla. cbn in Hpa. lia. }
    destruct p as [| p0 p]; [contradiction |].
    destruct s as [| s0 s]; [contradiction |].
    destruct (choice_total m0 m' w) as (mi & E1 & _).
    rewrite (bind_step _ _ _ _ _ E1).
    destruct (choice_total a0 a' (advance w)) as (ai & E2 & _).
    rewrite (bind_step _ _ _ _ _ E2).
    destruct (choice_total p0 p (advance (advance w))) as (pi & E3 & _).
    rewrite (bind_step _ _ _ _ _ E3).
    destruct (FakeTakenOrder_run mi ai pi s0 s
                (advance (advance (advance w))))
      as (st & paid & w3 & -> & _).
    do 2 eexists. split; [reflexivity |]. eexists. reflexivity. }
  cbn beta. intros v f' (G & P & ->). exists m', a'.
  unfold range in G. rewrite length_seq in G.
  split; [exact G | split; [exact P | apply ids_length]].
Qed.

Lemma _insert_bills_runs f o :
  taken_order_ids (pools f) = Some o ->
  (size f <= len o)%Z ->
  quiet f ->
  runs _insert_bills f
    (fun _ f' =>
       grown (rows_for T_bill (Z.to_nat (size f))) f f' /\
       pools f' = pools f).
Proof.
  intros Ho Hsize Hq. unfold _insert_bills.
  apply runs_bind. exists o, f. split; [now apply attr_run |].
  apply runs_bind. exists (size f), f. split; [reflexivity |].
  eapply runs_post.
  { eapply (for_gen_runs _ _ (fun p => p)
              (fun i => order_id <- index o i ;; FakeBill order_id)
              Bill.dict T_bill _ (range (size f)) tt (world f));
      [| apply keep_pools | | exact Hq].
    - unfold RandomDataGenerator.bills.
      destruct (Z.ltb_spec (len o) (size f)) as [Hlt | _]; [lia |].
      reflexivity.
    - intros i w Hin. apply in_range in Hin.
      destruct (nth_error_within o i) as (x & Hx).
      { unfold len in Hsize. lia. }
      rewrite (bind_step _ _ _ _ _ (index_run _ _ _ _ Hx)).
      destruct (FakeBill_run x w) as (d & tot & w' & ->).
      do 2 eexists. split; [reflexivity |]. eexists. reflexivity. }
  cbn beta. intros [] f' (G & P).
  unfold range in G. rewrite length_seq in G. split; [exact G | exact P].
Qed.

Lemma role_loop_runs (targets : list Row) roles f :
  role_ids (pools f) = Some roles ->
  roles <> [] ->
  quiet f ->
  runs (for_each targets
          (fun r =>
             role_ids <- attr role_ids "role_ids" ;;
             role_id <- liftW (choice role_ids) ;;
             insert (UpdateSet T_member "role_id" "role_id" "member_id")
                    [("member_id", VInt (fst r)); ("role_id", VInt role_id)]))
    f (fun _ f' => grown (fun _ => 0) f f' /\ pools f' = pools f).
Proof.
  intros Hr Hne. revert f Hr.
  induction targets as [| r targets IH]; intros f Hr Hq; cbn [for_each].
  - apply runs_ret. split; [apply grown_nothing | reflexivity].
  - apply runs_bind. apply runs_bind.
    exists roles, f. split; [now apply attr_run |].
    destruct roles as [| r0 roles]; [contradiction |].
    destruct (choice_total r0 roles (world f)) as (role & E & _).
    apply runs_bind. exists role, (with_world (advance (world f)) f). split.
    { unfold liftW. now rewrite E. }
    eapply runs_post;
      [apply (update_runs _ _ _ _ (VInt role) (VInt (fst r)));
       [reflexivity | reflexivity | exact Hq] |].
    cbn beta. intros [] f1 (G1 & P1).
    eapply runs_post.
    { apply IH; [now rewrite P1 |]. eapply quiet_grown; [| exact G1].
      exact Hq. }
    cbn beta. intros [] f2 (G2 & P2). split.
    + eapply grown_trans; [| exact G1 | exact G2]. reflexivity.
    + now rewrite P2, P1.
Qed.

Lemma _update_members_role_runs f roles :
  role_ids (pools f) = Some roles ->
  roles <> [] ->
  quiet f ->
  runs _update_members_role f
    (fun _ f' => grown (fun _ => 0) f f' /\ pools f' = pools f).
Proof.
  intros Hr Hne Hq. unfold _update_members_role.
  apply runs_bind.
  exists (filter (fun r => negb (is_null (cell (snd r) "works_at_pizzeria_id")))
            (rows_of (db f) T_member)),
    (with_db (db f)
       (with_journal
          (journal f
           ++ [SelectWhereNotNull ["id"] T_member "works_at_pizzeria_id"])
          f)).
  split.
  { now rewrite (query_quiet _ _ _ Hq). }
  eapply runs_post.
  { apply (role_loop_runs _ roles); [exact Hr | exact Hne |].
    destruct Hq as [Hf Hv].
    split; intros i Hi; cbn in Hi |- *; rewrite length_app in Hi;
      [apply Hf | apply Hv]; lia. }
  cbn beta. intros [] f' (G & P). split; [| exact P].
  eapply (grown_trans (fun _ => 0) (fun _ => 0)); [reflexivity | | exact G].
  repeat split; auto.
  - eexists. reflexivity.
  - intros t. exists []. cbn. rewrite !app_nil_r. auto.
Qed.

#[export] Instance same_gateway_frame :
  Frame same_gateway (fun _ => True).
Proof.
  split; try (intros; split; reflexivity).
  - intros a b c [F1 V1] [F2 V2]. split; congruence.
  - intros s parameters _ f r f' H. split.
    + apply query_inv in H. tauto.
    + exact (query_violation _ _ _ _ _ H).
Qed.

Lemma _insert_relations_many_to_many_runs f :
  ready (pools f) ->
  quiet f ->
  runs _insert_relations_many_to_many f
    (fun _ f' => grown (fun _ => 0) f f' /\ pools f' = pools f).
Proof.
  intros Hready Hq.
  destruct (_insert_relations_many_to_many f) as [r f'] eqn:E.
  pose proof (_insert_relations_many_to_many_tried _ _ _ E)
    as (sent & (Hp & Hf & Hs & Hj & _ & _ & _ & _ & Hdone) & _).
  assert (Hrows : same_rows f f').
  { eapply (_insert_relations_many_to_many_frame (R := same_rows)
              (allowed := associates)); [| exact E]. auto. }
  assert (Hgate : same_gateway f f').
  { eapply (_insert_relations_many_to_many_frame (R := same_gateway)
              (allowed := fun _ => True)); [| exact E]. auto. }
  destruct Hgate as [_ Hv].
  rewrite (Hdone Hready (proj1 Hq)) in E.
  exists tt, f'. split; [exact E |]. split; [| exact Hp].
  repeat split; auto.
  - eauto.
  - intros t. exists []. cbn. rewrite !app_nil_r, Hrows. auto.
Qed.

Lemma filled_length {A} (l : list A) : 1 <= List.length l -> filled (Some l).
Proof. destruct l; cbn; [lia | auto]. Qed.

Lemma nonempty_length {A} (l : list A) : 1 <= List.length l -> l <> [].
Proof. destruct l; cbn; [lia | discriminate]. Qed.

Lemma dict_set_length k v d :
  1 <= List.length (dict_set k v d) /\
  List.length d <= List.length (dict_set k v d).
Proof.
  induction d as [| [k' v'] d IH]; cbn; [lia |].
  destruct (value_eqb k k'); cbn; lia.
Qed.

Lemma dict_fold_length column rows acc :
  List.length acc
  <= List.length
       (fold_left (fun d r => dict_set (cell (snd r) column) (fst r) d)
          rows acc).
Proof.
  revert acc. induction rows as [| r rows IH]; intros acc; cbn; [lia |].
  etransitivity; [| apply IH]. apply dict_set_length.
Qed.

Lemma dict_by_length column rows :
  1 <= List.length rows -> 1 <= List.length (dict_by column rows).
Proof.
  destruct rows as [| r rows]; cbn; [lia |]. intros _. unfold dict_by. cbn.
  etransitivity; [| apply dict_fold_length]. cbn. lia.
Qed.

Ltac said :=
  apply runs_bind; eapply runs_post; [apply say_runs |];
  cbn beta; intros [] ? (? & ->).

(** Moves a fact on an attribute across a stage, given what the stage did
    to the attributes. *)
Ltac carry P H :=
  match type of H with
  | ?get (pools _) = ?x =>
      match type of P with
      | pools ?fn = _ =>
          let N := fresh "K" in
          assert (N : get (pools fn) = x) by (rewrite P; exact H);
          clear H; rename N into H
      end
  end.

Lemma later_stages_run f m a p r :
  member_ids (pools f) = Some m ->
  address_ids (pools f) = Some a ->
  pizzeria_ids (pools f) = Some p ->
  recipes (pools f) = Some r ->
  (size f <= len m)%Z ->
  (size f <= len a)%Z ->
  p <> [] ->
  r <> [] ->
  (1 <= size f)%Z ->
  quiet f ->
  runs later_stages f
    (fun _ f' =>
       grown (fun t => if filled_early t then 0
                       else rows_added (Z.to_nat (size f)) (List.length r) t)
             f f').
Proof.
  intros Hm Ha Hp Hr Lm La Np Nr Hsize Hq.
  unfold later_stages, closing_stages.
  pose proof (grown_nothing f) as G.
  (* products *)
  said. apply runs_bind.
  eapply runs_post; [apply _insert_products_runs; exact Hq |].
  cbn beta. intros v1 f1 (G1 & P1 & L1).
  pose proof (grown_length _ _ _ T_product G1) as N1.
  pose proof (grown_step _ _ _ _ _ _ G G1) as G'. clear G G1.
  rename G' into G.
  assert (Hq1 : quiet f1) by exact (quiet_grown _ _ _ Hq G).
  assert (S1 : size f1 = size f) by apply G.
  assert (Hpr : product_ids (pools f1) = Some v1) by now rewrite P1.
  assert (Npr : 1 <= List.length v1)
    by (rewrite L1, N1; unfold rows_for; cbn; lia).
  carry P1 Hm. carry P1 Ha. carry P1 Hp. carry P1 Hr.
  clear P1 L1 N1.
  (* catalog items *)
  said. apply runs_bind.
  eapply runs_post; [apply (_insert_catalog_items_runs _ r); assumption |].
  cbn beta. intros v2 f2 (G2 & P2 & L2).
  pose proof (grown_length _ _ _ T_catalog_item G2) as N2.
  pose proof (grown_step _ _ _ _ _ _ G G2) as G'. clear G G2.
  rename G' into G.
  assert (Hq2 : quiet f2) by exact (quiet_grown _ _ _ Hq G).
  assert (S2 : size f2 = size f) by apply G.
  assert (Hc : catalog_item_ids (pools f2) = Some v2) by now rewrite P2.
  assert (Nc : 1 <= List.length v2).
  { rewrite L2, ids_length, N2. unfold rows_for. cbn.
    destruct r; [contradiction | cbn; lia]. }
  carry P2 Hm. carry P2 Ha. carry P2 Hp. carry P2 Hr. carry P2 Hpr.
  clear P2 L2 N2.
  (* order status *)
  said. apply runs_bind.
  eapply runs_post; [apply _insert_order_status_runs; assumption |].
  cbn beta. intros v3 f3 (G3 & P3 & L3).
  pose proof (grown_length _ _ _ T_order_status G3) as N3.
  pose proof (grown_step _ _ _ _ _ _ G G3) as G'. clear G G3.
  rename G' into G.
  assert (Hq3 : quiet f3) by exact (quiet_grown _ _ _ Hq G).
  assert (S3 : size f3 = size f) by apply G.
  assert (Ho : order_status_ids (pools f3) = Some v3) by now rewrite P3.
  assert (No : 1 <= List.length v3)
    by (rewrite L3, ids_length, N3; unfold rows_for; cbn; lia).
  carry P3 Hm. carry P3 Ha. carry P3 Hp. carry P3 Hr. carry P3 Hpr.
  carry P3 Hc.
  clear P3 L3 N3.
  (* taken orders *)
  said. apply runs_bind.
  eapply runs_post.
  { apply (_insert_taken_orders_runs _ m a p v3); try assumption.
    - change (size f3 <= len m)%Z. lia.
    - change (size f3 <= len a)%Z. lia.
    - now apply nonempty_length. }
  cbn beta. intros v4 f4 (m' & a' & G4 & P4 & L4).
  pose proof (grown_length _ _ _ T_taken_order G4) as N4.
  change (size (with_world ?w f3)) with (size f3) in G4, N4.
  rewrite S3 in G4, N4.
  pose proof (grown_step _ _ _ _ _ _ G G4) as G'. clear G G4.
  rename G' into G.
  assert (Hq4 : quiet f4) by exact (quiet_grown _ _ _ Hq G).
  assert (S4 : size f4 = size f) by apply G.
  assert (Ht : taken_order_ids (pools f4) = Some v4) by now rewrite P4.
  assert (Nt : (size f <= len v4)%Z).
  { unfold len. rewrite L4, N4. unfold rows_for. cbn. lia. }
  carry P4 Hp. carry P4 Hr. carry P4 Hpr. carry P4 Hc.
  clear P4 L4 N4 Hm Ha Ho.
  (* bills *)
  said. apply runs_bind.
  eapply runs_post.
  { apply (_insert_bills_runs _ v4); try assumption.
    change (size f4 <= len v4)%Z. lia. }
  cbn beta. intros [] f5 (G5 & P5).
  change (size (with_world ?w f4)) with (size f4) in G5.
  rewrite S4 in G5.
  pose proof (grown_step _ _ _ _ _ _ G G5) as G'. clear G G5.
  rename G' into G.
  assert (Hq5 : quiet f5) by exact (quiet_grown _ _ _ Hq G).
  assert (S5 : size f5 = size f) by apply G.
  carry P5 Hp. carry P5 Hr. carry P5 Hpr. carry P5 Hc. carry P5 Ht.
  clear P5.
  (* keywords *)
  said. apply runs_bind.
  eapply runs_post; [apply _insert_keywords_runs; assumption |].
  cbn beta. intros v6 f6 (G6 & P6 & L6).
  pose proof (grown_length _ _ _ T_keyword G6) as N6.
  pose proof (grown_step _ _ _ _ _ _ G G6) as G'. clear G G6.
  rename G' into G.
  assert (Hq6 : quiet f6) by exact (quiet_grown _ _ _ Hq G).
  assert (S6 : size f6 = size f) by apply G.
  assert (Hk : keyword_ids (pools f6) = Some v6) by now rewrite P6.
  assert (Nk : 1 <= List.length v6)
    by (rewrite L6, ids_length, N6; unfold rows_for; cbn; lia).
  carry P6 Hp. carry P6 Hr. carry P6 Hpr. carry P6 Hc. carry P6 Ht.
  clear P6 L6 N6.
  (* permissions *)
  said. apply runs_bind.
  eapply runs_post; [apply _insert_permissions_runs; assumption |].
  cbn beta. intros v7 f7 (G7 & P7 & L7).
  pose proof (grown_length _ _ _ T_permission G7) as N7.
  pose proof (grown_step _ _ _ _ _ _ G G7) as G'. clear G G7.
  rename G' into G.
  assert (Hq7 : quiet f7) by exact (quiet_grown _ _ _ Hq G).
  assert (S7 : size f7 = size f) by apply G.
  assert (Hpe : permission_ids (pools f7) = Some v7) by now rewrite P7.
  assert (Npe : 1 <= List.length v7)
    by (rewrite L7, ids_length, N7; unfold rows_for; cbn; lia).
  carry P7 Hp. carry P7 Hr. carry P7 Hpr. carry P7 Hc. carry P7 Ht.
  carry P7 Hk.
  clear P7 L7 N7.
  (* roles *)
  said. apply runs_bind.
  eapply runs_post; [apply _insert_roles_runs; assumption |].
  cbn beta. intros v8 f8 (G8 & P8 & L8).
  pose proof (grown_length _ _ _ T_role G8) as N8.
  pose proof (grown_step _ _ _ _ _ _ G G8) as G'. clear G G8.
  rename G' into G.
  assert (Hq8 : quiet f8) by exact (quiet_grown _ _ _ Hq G).
  assert (S8 : size f8 = size f) by apply G.
  assert (Hro : role_ids (pools f8) = Some v8) by now rewrite P8.
  assert (Nro : 1 <= List.length v8)
    by (rewrite L8, ids_length, N8; unfold rows_for; cbn; lia).
  carry P8 Hp. carry P8 Hr. carry P8 Hpr. carry P8 Hc. carry P8 Ht.
  carry P8 Hk. carry P8 Hpe.
  clear P8 L8 N8.
  (* the role assignment *)
  said. apply runs_bind.
  eapply runs_post.
  { apply (_update_members_role_runs _ v8); try assumption.
    now apply nonempty_length. }
  cbn beta. intros [] f9 (G9 & P9).
  pose proof (grown_step _ _ _ _ _ _ G G9) as G'. clear G G9.
  rename G' into G.
  assert (Hq9 : quiet f9) by exact (quiet_grown _ _ _ Hq G).
  carry P9 Hp. carry P9 Hr. carry P9 Hpr. carry P9 Hc. carry P9 Ht.
  carry P9 Hk. carry P9 Hpe. carry P9 Hro.
  clear P9.
  (* the association tables *)
  said. apply runs_bind.
  eapply runs_post.
  { apply _insert_relations_many_to_many_runs; [| assumption].
    change (ready (pools f9)). unfold ready.
    rewrite Hro, Hpe, Ht, Hc, Hr, Hpr, Hp, Hk.
    repeat split; apply filled_length; auto.
    - unfold len in Nt. lia.
    - destruct r; [contradiction | cbn; lia].
    - destruct p; [contradiction | cbn; lia]. }
  cbn beta. intros [] f10 (G10 & P10).
  pose proof (grown_step _ _ _ _ _ _ G G10) as G'. clear G G10.
  rename G' into G.
  (* END *)
  eapply runs_post; [apply say_runs |].
  cbn beta. intros [] ? (w' & ->).
  apply (grown_same _ _ _ _ (fun t => eq_refl)) in G.
  eapply grown_same; [| exact G].
  intros t. destruct t; cbn; lia.
Qed.

Lemma populate_runs f :
  (1 <= size f)%Z ->
  quiet f ->
  runs populate f
    (fun _ f' =>
       grown (rows_added (Z.to_nat (size f))
                (List.length (dict_by "name" (rows_of (db f') T_recipe))))
             f f').
Proof.
  intros Hsize Hq. unfold populate.
  pose proof (grown_nothing f) as G.
  said. said.
  change (with_world ?w (with_world _ f)) with (with_world w f).
  (* addresses *)
  apply runs_bind.
  eapply runs_post; [apply _insert_addresses_runs; exact Hq |].
  cbn beta. intros a1 f1 (G1 & P1 & L1).
  pose proof (grown_length _ _ _ T_address G1) as N1.
  change (size (with_world ?w f)) with (size f) in G1, N1.
  pose proof (grown_step _ _ _ _ _ _ G G1) as G'. clear G G1.
  rename G' into G.
  assert (Hq1 : quiet f1) by exact (quiet_grown _ _ _ Hq G).
  assert (S1 : size f1 = size f) by apply G.
  assert (Ha : address_ids (pools f1) = Some a1) by now rewrite P1.
  assert (La : (size f <= len a1)%Z).
  { unfold len. rewrite L1, N1. unfold rows_for. cbn. lia. }
  clear P1 L1 N1.
  (* pizzerias *)
  said. apply runs_bind.
  eapply runs_post; [apply (_insert_pizzerias_runs _ a1); assumption |].
  cbn beta. intros p2 f2 (a2 & G2 & P2 & L2 & La2).
  pose proof (grown_length _ _ _ T_pizzeria G2) as N2.
  pose proof (grown_step _ _ _ _ _ _ G G2) as G'. clear G G2.
  rename G' into G.
  assert (Hq2 : quiet f2) by exact (quiet_grown _ _ _ Hq G).
  assert (S2 : size f2 = size f) by apply G.
  assert (Hp : pizzeria_ids (pools f2) = Some p2) by now rewrite P2.
  assert (Np : p2 <> []).
  { apply nonempty_length. rewrite L2, N2. unfold rows_for. cbn. lia. }
  assert (Ha2 : address_ids (pools f2) = Some a2) by now rewrite P2.
  assert (La' : (size f <= len a2)%Z) by (unfold len in *; lia).
  clear P2 L2 N2 Ha La La2.
  (* members *)
  said. apply runs_bind.
  eapply runs_post.
  { apply (_insert_members_runs _ a2 p2); try assumption.
    change (size f2 <= len a2)%Z. lia. }
  cbn beta. intros m3 f3 (a3 & G3 & P3 & L3 & La3).
  pose proof (grown_length _ _ _ T_member G3) as N3.
  change (size (with_world ?w f2)) with (size f2) in G3, N3.
  rewrite S2 in G3, N3.
  pose proof (grown_step _ _ _ _ _ _ G G3) as G'. clear G G3.
  rename G' into G.
  assert (Hq3 : quiet f3) by exact (quiet_grown _ _ _ Hq G).
  assert (S3 : size f3 = size f) by apply G.
  assert (Hm : member_ids (pools f3) = Some m3) by now rewrite P3.
  assert (Lm : (size f <= len m3)%Z).
  { unfold len. rewrite L3, N3. unfold rows_for. cbn. lia. }
  assert (Ha3 : address_ids (pools f3) = Some a3) by now rewrite P3.
  assert (La : (size f <= len a3)%Z) by (unfold len in *; lia).
  carry P3 Hp.
  clear P3 L3 N3 Ha2 La' La3.
  (* user accounts *)
  said. apply runs_bind.
  eapply runs_post.
  { apply (_insert_user_accounts_runs _ m3); try assumption.
    change (size f3 <= len m3)%Z. lia. }
  cbn beta. intros u4 f4 (m4 & G4 & P4 & Lm4).
  change (size (with_world ?w f3)) with (size f3) in G4.
  rewrite S3 in G4.
  pose proof (grown_step _ _ _ _ _ _ G G4) as G'. clear G G4.
  rename G' into G.
  assert (Hq4 : quiet f4) by exact (quiet_grown _ _ _ Hq G).
  assert (S4 : size f4 = size f) by apply G.
  assert (Hu : user_accounts (pools f4) = Some u4) by now rewrite P4.
  assert (Hm4 : member_ids (pools f4) = Some m4) by now rewrite P4.
  assert (Lm' : (size f <= len m4)%Z) by (unfold len in *; lia).
  carry P4 Hp. carry P4 Ha3.
  clear P4 Hm Lm Lm4.
  (* the account update *)
  said. apply runs_bind.
  eapply runs_post;
    [apply (_update_members_user_account_runs _ u4); assumption |].
  cbn beta. intros [] f5 (G5 & P5).
  pose proof (grown_step _ _ _ _ _ _ G G5) as G'. clear G G5.
  rename G' into G.
  assert (Hq5 : quiet f5) by exact (quiet_grown _ _ _ Hq G).
  assert (S5 : size f5 = size f) by apply G.
  carry P5 Hp. carry P5 Ha3. carry P5 Hm4.
  clear P5 Hu.
  (* recipes *)
  said. apply runs_bind.
  eapply runs_post; [apply _insert_recipes_runs; assumption |].
  cbn beta. intros r6 f6 (G6 & P6 & L6).
  pose proof (grown_length _ _ _ T_recipe G6) as N6.
  pose proof (grown_step _ _ _ _ _ _ G G6) as G'. clear G G6.
  rename G' into G.
  assert (Hq6 : quiet f6) by exact (quiet_grown _ _ _ Hq G).
  assert (S6 : size f6 = size f) by apply G.
  assert (Hr : recipes (pools f6) = Some r6) by now rewrite P6.
  assert (Nr : r6 <> []).
  { apply nonempty_length. rewrite L6. apply dict_by_length.
    rewrite N6. unfold rows_for. cbn. lia. }
  carry P6 Hp. carry P6 Ha3. carry P6 Hm4.
  clear P6 N6.
  (* the later stages *)
  eapply runs_post.
  { apply (later_stages_run f6 m4 a3 p2 r6); try assumption; lia. }
  cbn beta. intros [] f' Gl.
  rewrite S6 in Gl.
  assert (Hrec : rows_of (db f') T_recipe = rows_of (db f6) T_recipe).
  { apply (grown_untouched _ _ _ _ Gl); [reflexivity | discriminate]. }
  rewrite Hrec, <- L6.
  eapply grown_trans; [| exact G | exact Gl].
  intros t. destruct t; cbn; lia.
Qed.

(** X13: for a batch of at least one, a gateway that fails on none of the
    statements to come and a database that rejects none of them,
    [populate] completes, from any database and any random source.  It then leaves each keyed table with the rows it
    had followed by new ones: as many as the batch size for addresses,
    members, user accounts, taken orders and bills, 5 pizzerias, 23
    recipes, 35 products, 35 keywords, 4 order statuses, 5 permissions,
    5 roles, and one catalog item per entry of the mapping of names read
    from the recipe table; the earlier rows are kept as they were, and in
    the member table, which the two updates rewrite, the earlier
    identifiers are kept. *)
Theorem populate_completes (f : Feeder) :
  (1 <= size f)%Z ->
  quiet f ->
  exists f',
    populate f = (inr tt, f') /\
    grown (rows_added (Z.to_nat (size f))
             (List.length (dict_by "name" (rows_of (db f') T_recipe))))
          f f'.
Proof.
  intros Hsize Hq.
  destruct (populate_runs f Hsize Hq) as ([] & f' & E & G).
  exists f'. split; [exact E | exact G].
Qed.

Lemma populate_completes_witness :
  exists f',
    populate (new_feeder empty_database 2) = (inr tt, f') /\
    grown (rows_added 2
             (List.length (dict_by "name" (rows_of (db f') T_recipe))))
          (new_feeder empty_database 2) f'.
Proof.
  apply (populate_completes (new_feeder empty_database 2)).
  - cbn. lia.
  - split; intros i _; reflexivity.
Defined.

(** ** A gateway that fails *)


















(** ** Accounts and the members they name *)

#[export] Instance table_kept_frame t : Frame (table_kept t) (spares t).
Proof.
  split; try (unfold table_kept; intros; reflexivity).
  - unfold table_kept. intros a b c H1 H2. congruence.
  - intros s parameters Hs f r f' H. unfold table_kept. apply query_inv in H.
    destruct H as (_ & _ & _ & _ & _ & [(_ & _ & E) | [(_ & e & _ & _ & E)
                                     | (_ & rows & d & Hx & _ & E)]]);
      rewrite E; try reflexivity.
    destruct s; cbn in Hx, Hs.
    + destruct (bind_parameters columns parameters); inversion Hx; subst.
      rewrite rows_of_set_rows. destruct (Entity_eqb t0 t) eqn:Et; auto.
      apply Entity_eqb_eq in Et. contradiction.
    + destruct (bind_parameters parameters0 parameters); [| discriminate].
      destruct (existsb _ _); inversion Hx; subst. reflexivity.
    + inversion Hx; subst. reflexivity.
    + inversion Hx; subst. reflexivity.
    + destruct (lookup parameters parameter); [| discriminate].
      destruct (lookup parameters id_parameter); inversion Hx; subst.
      rewrite rows_of_set_rows. destruct (Entity_eqb t0 t) eqn:Et; auto.
      apply Entity_eqb_eq in Et. contradiction.
Qed.

Lemma value_eqb_int_r id k : value_eqb k (VInt id) = true -> k = VInt id.
Proof.
  destruct k; cbn; try discriminate.
  intros H. apply Z.eqb_eq in H. now subst.
Qed.

(** An entry of a mapping read from rows comes from one of the rows. *)
Lemma dict_set_In k v d k0 v0 :
  In (k0, v0) (dict_set k v d) ->
  In (k0, v0) d \/ (v0 = v /\ (k0 = k \/ value_eqb k k0 = true)).
Proof.
  induction d as [| [k' v'] d IH]; cbn.
  - intros [[= <- <-] | []]. auto.
  - destruct (value_eqb k k') eqn:E; cbn.
    + intros [[= <- <-] | H]; auto.
    + intros [H | H]; auto. destruct (IH H); auto.
Qed.

Lemma dict_fold_In column rows acc k0 v0 :
  In (k0, v0)
     (fold_left (fun d r => dict_set (cell (snd r) column) (fst r) d)
        rows acc) ->
  In (k0, v0) acc \/
  exists r, In r rows /\ fst r = v0 /\
            (k0 = cell (snd r) column \/
             value_eqb (cell (snd r) column) k0 = true).
Proof.
  revert acc. induction rows as [| r rows IH]; intros acc H; cbn in H.
  - auto.
  - destruct (IH _ H) as [Hin | (r' & Hr' & Hv & Hk)].
    + destruct (dict_set_In _ _ _ _ _ Hin) as [Hacc | (-> & Hk)]; auto.
      right. exists r. cbn. auto.
    + right. exists r'. cbn. auto.
Qed.

Lemma dict_by_int_In column rows id v :
  In (VInt id, v) (dict_by column rows) ->
  exists r, In r rows /\ fst r = v /\ cell (snd r) column = VInt id.
Proof.
  intros H. apply dict_fold_In in H. destruct H as [[] | (r & Hr & Hv & Hk)].
  exists r. split; [exact Hr |]. split; [exact Hv |].
  destruct Hk as [<- | Hk]; [reflexivity | now apply value_eqb_int_r].
Qed.

(** X15: when the user accounts stage and the account update that follows
    it complete, a member row is either as it was or linked to a row of
    the account table whose [member_id] is this member; the update changes
    no other column, and adds or removes no member. *)
Theorem members_are_linked_to_their_own_accounts (f f' : Feeder) :
  account_stages f = (inr tt, f') ->
  Forall2 (account_of_member (rows_of (db f') T_user_account))
          (rows_of (db f) T_member) (rows_of (db f') T_member).
Proof.
  intros H. unfold account_stages in H.
  apply bind_ok in H. destruct H as (accounts & f1 & Hins & H).
  apply bind_ok in H. destruct H as ([] & f2 & Hsay & Hupd).
  apply say_ok in Hsay. destruct Hsay as (Hdb2 & Hpools2).
  destruct (_insert_user_accounts_captures _ _ _ Hins) as (Hpool & _).
  assert (Hmembers : table_kept T_member f f1).
  { eapply (_insert_user_accounts_frame (R := table_kept T_member)
              (allowed := spares T_member)); [| exact Hins].
    intros s Hs. destruct s; cbn in Hs |- *; auto. subst. discriminate. }
  assert (Haccounts : table_kept T_user_account f2 f').
  { eapply (_update_members_user_account_frame
              (R := table_kept T_user_account)
              (allowed := spares T_user_account)); [| exact Hupd].
    intros s ->. cbn. discriminate. }
  unfold table_kept in Hmembers, Haccounts.
  unfold _update_members_user_account in Hupd.
  apply bind_ok in Hupd. destruct Hupd as (ua & f3 & Hattr & Hloop).
  apply attr_ok in Hattr. destruct Hattr as (Hua & ->).
  rewrite Hpools2, Hpool in Hua. injection Hua as <-.
  apply account_loop in Hloop.
  rewrite Hdb2, Hmembers in Hloop. rewrite Haccounts, Hdb2.
  eapply Forall2_impl; [| exact Hloop].
  intros before after (Hid & Hcells & Hin & Hout).
  split; [exact Hid |]. split; [exact Hcells |].
  destruct (existsb (value_eqb (VInt (fst before)))
              (map fst (dict_by "member_id" (rows_of (db f1) T_user_account))))
    eqn:Hex.
  - right. apply existsb_exists in Hex. destruct Hex as (k & Hk & Hv).
    apply value_eqb_int in Hv. subst k.
    destruct (Hin Hk) as (account & Hacc & Hcell).
    apply dict_by_int_In in Hacc. destruct Hacc as (r & Hr & Hv & Hm).
    exists r. subst account. auto.
  - left. apply Hout. intros Hk.
    apply not_true_iff_false in Hex. apply Hex.
    apply existsb_exists. exists (VInt (fst before)). split; auto.
    now apply value_eqb_int.
Qed.

Lemma members_are_linked_to_their_own_accounts_witness :
  Forall2
    (account_of_member
       (rows_of (db (snd (account_stages
                            (with_pools (set_member_ids [1%Z; 2%Z] no_pools)
                                        (new_feeder two_members 2)))))
                T_user_account))
    (rows_of two_members T_member)
    (rows_of (db (snd (account_stages
                         (with_pools (set_member_ids [1%Z; 2%Z] no_pools)
                                     (new_feeder two_members 2)))))
             T_member).
Proof.
  apply (members_are_linked_to_their_own_accounts
           (with_pools (set_member_ids [1%Z; 2%Z] no_pools)
                       (new_feeder two_members 2))).
  vm_compute. reflexivity.
Defined.

(** ** What is printed *)

Lemma np_refl w : nothing_printed w w.
Proof. reflexivity. Qed.

Lemma np_trans a b c :
  nothing_printed a b -> nothing_printed b c -> nothing_printed a c.
Proof. unfold nothing_printed. congruence. Qed.

Lemma np_ret {A} (a : A) : preserves nothing_printed (ret a).
Proof. apply preserves_ret, np_refl. Qed.

Lemma np_raise {A} e : preserves nothing_printed (@raise World A e).
Proof. apply preserves_raise, np_refl. Qed.

Lemma np_bind {A B} (m : G A) (k : A -> G B) :
  preserves nothing_printed m ->
  (forall a, preserves nothing_printed (k a)) ->
  preserves nothing_printed (bind m k).
Proof. apply preserves_bind, np_trans. Qed.

Lemma np_draw : preserves nothing_printed draw.
Proof. intros w r w' [= _ <-]. reflexivity. Qed.

Lemma np_text : preserves nothing_printed text.
Proof. intros w r w' [= _ <-]. reflexivity. Qed.

Lemma np_randbelow n : preserves nothing_printed (randbelow n).
Proof.
  apply np_bind; [apply np_draw | intros; apply np_ret].
Qed.

Lemma np_choice {A} (l : list A) : preserves nothing_printed (choice l).
Proof.
  destruct l; cbn [choice]; [apply np_raise |].
  apply np_bind; [apply np_randbelow | intros; apply np_ret].
Qed.

Lemma np_randint a b : preserves nothing_printed (randint a b).
Proof.
  apply np_bind; [apply np_randbelow | intros; apply np_ret].
Qed.

Lemma np_shuffle {A} (x : list A) : preserves nothing_printed (shuffle x).
Proof.
  intros w r w' H. apply shuffle_inv in H. destruct H as (_ & _ & _ & H).
  exact H.
Qed.

Lemma np_index {A} (l : list A) i :
  preserves nothing_printed (@index World A l i).
Proof.
  unfold index. destruct (nth_error l i); [apply np_ret | apply np_raise].
Qed.

Lemma np_map_m {A B} (f : A -> G B) xs :
  (forall x, preserves nothing_printed (f x)) ->
  preserves nothing_printed (map_m f xs).
Proof.
  intros Hf. induction xs as [| x xs IH]; cbn [map_m].
  - apply np_ret.
  - apply np_bind; [apply Hf |]. intros y.
    apply np_bind; [exact IH | intros; apply np_ret].
Qed.

Ltac np_step :=
  first [ apply np_ret | apply np_raise | apply np_draw | apply np_text
        | apply np_choice | apply np_randint | apply np_shuffle
        | apply np_index | apply np_randbelow
        | apply np_map_m; intros
        | apply np_bind; [| intros]
        | match goal with
          | |- preserves _ (match ?x with _ => _ end) => destruct x
          | |- preserves _ (let _ := _ in _) => cbv zeta
          end ].

Ltac np := repeat np_step.

Lemma np_FakeAddress : preserves nothing_printed FakeAddress.
Proof.
  unfold FakeAddress, address, building_number, postcode. np.
Qed.

Lemma np_FakeMember p a : preserves nothing_printed (FakeMember p a).
Proof. unfold FakeMember, last_name, first_name. np. Qed.

Lemma np_FakeUserAccount m : preserves nothing_printed (FakeUserAccount m).
Proof.
  unfold FakeUserAccount, email, phone_number, hashed_random_password. np.
Qed.

Lemma np_FakeTakenOrder m a p s :
  preserves nothing_printed (FakeTakenOrder m a p s).
Proof. unfold FakeTakenOrder. np. Qed.

Lemma np_FakeBill o : preserves nothing_printed (FakeBill o).
Proof. unfold FakeBill, date_time_this_decade, pyfloat. np. Qed.

Lemma np_FakeProduct name : preserves nothing_printed (FakeProduct name).
Proof. unfold FakeProduct, ean13, pyfloat. np. Qed.

Lemma np_FakePizzeria name a : preserves nothing_printed (FakePizzeria name a).
Proof. unfold FakePizzeria, phone_number. np. Qed.

Lemma np_FakeRecipe name : preserves nothing_printed (FakeRecipe name).
Proof. unfold FakeRecipe, paragraphs. np. Qed.

Lemma np_FakeCatalogItem name parent id :
  preserves nothing_printed (FakeCatalogItem name parent id).
Proof.
  unfold FakeCatalogItem, sentences, paragraphs, file_name, pyfloat. np.
Qed.

Lemma silent_gen_ret {S A B} (s : S) (make : B -> G A) xs :
  (forall b, preserves nothing_printed (make b)) ->
  silent_gen (ret (s, map make xs)).
Proof.
  intros Hmake w s' nexts w' [= <- <- <-]. split; [reflexivity |].
  apply Forall_map. apply Forall_forall. intros b _. apply Hmake.
Qed.

Lemma silent_gen_bind {S A B} (m : G B) (k : B -> Gen S A) :
  preserves nothing_printed m -> (forall b, silent_gen (k b)) ->
  silent_gen (bind m k).
Proof.
  intros Hm Hk w s nexts w' H. apply bind_ok in H.
  destruct H as (b & w1 & Hb & H). apply Hk in H. destruct H as (Hout & HF).
  split; [| exact HF]. eapply np_trans; [eapply Hm; eauto | exact Hout].
Qed.

Lemma silent_gen_raise {S A} e : silent_gen (@raise World (S * list (G A)) e).
Proof. intros w s nexts w' H. discriminate. Qed.

Ltac gen_step :=
  first [ apply silent_gen_raise
        | apply silent_gen_ret; intros; np
        | apply silent_gen_bind; [np | intros]
        | match goal with
          | |- silent_gen (if ?c then _ else _) => destruct c
          end ].

Lemma addresses_silent size : silent_gen (RandomDataGenerator.addresses size).
Proof.
  unfold RandomDataGenerator.addresses. apply silent_gen_ret.
  intros _. apply np_FakeAddress.
Qed.

Lemma members_silent a p size :
  silent_gen (RandomDataGenerator.members a p size).
Proof.
  unfold RandomDataGenerator.members. repeat gen_step.
Qed.

Lemma user_accounts_silent m size :
  silent_gen (RandomDataGenerator.user_accounts m size).
Proof.
  unfold RandomDataGenerator.user_accounts. repeat gen_step.
Qed.

Lemma taken_orders_silent m a p s size :
  silent_gen (RandomDataGenerator.taken_orders m a p s size).
Proof.
  unfold RandomDataGenerator.taken_orders. repeat gen_step.
Qed.

(** When [bills] prints, it raises. *)
Lemma bills_silent o size : silent_gen (RandomDataGenerator.bills o size).
Proof.
  unfold RandomDataGenerator.bills. destruct (len o <? size)%Z.
  - intros w s nexts w' H. discriminate.
  - apply silent_gen_ret. intros i. np.
Qed.

Lemma products_silent : silent_gen RandomDataGenerator.products.
Proof.
  unfold RandomDataGenerator.products. apply silent_gen_ret.
  apply np_FakeProduct.
Qed.

Lemma pizzerias_silent a : silent_gen (RandomDataGenerator.pizzerias a).
Proof.
  unfold RandomDataGenerator.pizzerias. apply silent_gen_bind.
  - destruct (len a <? 5)%Z; np.
  - intros a'. apply silent_gen_ret. intros [i name]. np.
Qed.

Lemma recipes_silent : silent_gen RandomDataGenerator.recipes.
Proof.
  unfold RandomDataGenerator.recipes. apply silent_gen_ret.
  apply np_FakeRecipe.
Qed.

Lemma catalog_items_silent r :
  silent_gen (RandomDataGenerator.catalog_items r).
Proof.
  unfold RandomDataGenerator.catalog_items. apply silent_gen_ret.
  intros item. apply np_FakeCatalogItem.
Qed.

Lemma order_status_silent : silent_gen RandomDataGenerator.order_status.
Proof.
  unfold RandomDataGenerator.order_status. apply silent_gen_ret.
  intros label. np.
Qed.

Lemma keywords_silent : silent_gen RandomDataGenerator.keywords.
Proof.
  unfold RandomDataGenerator.keywords. apply silent_gen_ret.
  intros label. np.
Qed.

Lemma permissions_silent : silent_gen RandomDataGenerator.permissions.
Proof.
  unfold RandomDataGenerator.permissions. apply silent_gen_ret.
  intros label. np.
Qed.

Lemma roles_silent : silent_gen RandomDataGenerator.roles.
Proof.
  unfold RandomDataGenerator.roles. apply silent_gen_ret.
  intros label. np.
Qed.

Lemma np_has_permission_to a b :
  preserves nothing_printed (RandomDataGenerator.has_permission_to a b).
Proof. unfold RandomDataGenerator.has_permission_to. np. Qed.

Lemma np_contains_item a b :
  preserves nothing_printed (RandomDataGenerator.contains_item a b).
Proof. unfold RandomDataGenerator.contains_item, uniform. np. Qed.

Lemma np_has_product_in_stock a b :
  preserves nothing_printed (RandomDataGenerator.has_product_in_stock a b).
Proof. unfold RandomDataGenerator.has_product_in_stock. np. Qed.

Lemma np_requires_product a b :
  preserves nothing_printed (RandomDataGenerator.requires_product a b).
Proof. unfold RandomDataGenerator.requires_product. np. Qed.

Lemma np_has_keyword a b :
  preserves nothing_printed (RandomDataGenerator.has_keyword a b).
Proof. unfold RandomDataGenerator.has_keyword. np. Qed.

(** *** In the feeder *)

Lemma hushed_refl f : hushed f f.
Proof. reflexivity. Qed.

Lemma hushed_trans a b c : hushed a b -> hushed b c -> hushed a c.
Proof. unfold hushed. congruence. Qed.

Lemma hushed_bind {A B} (m : M A) (k : A -> M B) :
  preserves hushed m -> (forall a, preserves hushed (k a)) ->
  preserves hushed (bind m k).
Proof. apply preserves_bind, hushed_trans. Qed.

Lemma hushed_liftW {A} (g : G A) :
  preserves nothing_printed g -> preserves hushed (liftW g).
Proof.
  intros Hg f r f' H. apply liftW_ok in H. destruct H as (w & H & ->).
  exact (Hg _ _ _ H).
Qed.

Lemma hushed_attr {A} (get : Pools -> option A) name :
  preserves hushed (attr get name).
Proof.
  intros f r f' H. unfold attr in H.
  destruct (get (pools f)); inversion H; reflexivity.
Qed.

Lemma hushed_assign set : preserves hushed (assign set).
Proof.
  intros f r f' H. apply assign_ok in H. destruct H as (_ & ->).
  reflexivity.
Qed.

Lemma hushed_self_size : preserves hushed self_size.
Proof.
  intros f r f' H. apply self_size_ok in H. destruct H as (_ & ->).
  reflexivity.
Qed.

Lemma hushed_query s parameters : preserves hushed (query s parameters).
Proof.
  intros f r f' H. apply query_inv in H.
  destruct H as (_ & _ & _ & _ & W & _). unfold hushed. now rewrite W.
Qed.

Lemma hushed_insert s parameters : preserves hushed (insert s parameters).
Proof.
  apply hushed_bind; [apply hushed_query |]. intros _.
  apply preserves_ret, hushed_refl.
Qed.

Lemma hushed_for_each {A} (xs : list A) (body : A -> M unit) :
  (forall x, In x xs -> preserves hushed (body x)) ->
  preserves hushed (for_each xs body).
Proof.
  apply preserves_for_each; [apply hushed_refl | apply hushed_trans].
Qed.

Ltac hushed_step :=
  first [ apply preserves_ret, hushed_refl
        | apply hushed_self_size | apply hushed_attr | apply hushed_assign
        | apply hushed_insert | apply hushed_query
        | apply preserves_try_pass
        | apply hushed_for_each; intros
        | apply hushed_bind; [| intros] ].

Lemma prints_silent {A} (m : M A) : preserves hushed m -> prints [] m.
Proof.
  intros H f a f' E. rewrite app_nil_r. exact (H _ _ _ E).
Qed.

Lemma prints_bind {A B} l1 l2 (m : M A) (k : A -> M B) :
  prints l1 m -> (forall a, prints l2 (k a)) -> prints (l1 ++ l2) (bind m k).
Proof.
  intros Hm Hk f b f' H. apply bind_ok in H.
  destruct H as (a & f1 & H1 & H2).
  rewrite (Hk _ _ _ _ H2), (Hm _ _ _ H1). now rewrite app_assoc.
Qed.

Lemma prints_say s : prints [Line s] (say s).
Proof.
  intros f a f' H. apply liftW_ok in H. destruct H as (w & H & ->).
  unfold print in H. injection H as _ <-. reflexivity.
Qed.

(** A loop over a silent generator, with a silent body. *)
Lemma prints_for_gen {S A} (g : Gen S A) write_back body :
  silent_gen g ->
  (forall s, preserves hushed (write_back s)) ->
  (forall a, preserves hushed (body a)) ->
  prints [] (for_gen g write_back body).
Proof.
  intros Hg Hw Hb f a f' H. rewrite app_nil_r. unfold for_gen in H.
  apply bind_ok in H. destruct H as ([s nexts] & f1 & Hstart & H).
  apply liftW_ok in Hstart. destruct Hstart as (w & Hstart & ->).
  apply Hg in Hstart. destruct Hstart as (Hout & HF).
  apply bind_ok in H. destruct H as ([] & f2 & Hwb & H).
  apply Hw in Hwb. cbn [fst snd] in H.
  assert (Hloop : hushed f2 f').
  { eapply hushed_for_each; [| exact H]. intros next Hin.
    apply hushed_bind; [| apply Hb]. apply hushed_liftW.
    eapply Forall_forall in HF; eauto. }
  unfold hushed in *. cbn in Hwb. unfold nothing_printed in Hout. congruence.
Qed.

Ltac silent_step :=
  first [ apply prints_for_gen;
          [ first [ apply addresses_silent | apply members_silent
                  | apply user_accounts_silent | apply taken_orders_silent
                  | apply bills_silent | apply products_silent
                  | apply pizzerias_silent | apply recipes_silent
                  | apply catalog_items_silent | apply order_status_silent
                  | apply keywords_silent | apply permissions_silent
                  | apply roles_silent ]
          | intros; repeat hushed_step
          | intros; repeat hushed_step ]
        | apply (prints_bind [] []); [| intros]
        | apply prints_silent; repeat hushed_step ].

Lemma stages_are_silent :
  prints [] _insert_addresses /\ prints [] _insert_pizzerias /\
  prints [] _insert_members /\ prints [] _insert_user_accounts /\
  prints [] _update_members_user_account /\ prints [] _insert_recipes /\
  prints [] _insert_products /\ prints [] _insert_catalog_items /\
  prints [] _insert_order_status /\ prints [] _insert_taken_orders /\
  prints [] _insert_bills /\ prints [] _insert_keywords /\
  prints [] _insert_permissions /\ prints [] _insert_roles /\
  prints [] _update_members_role /\
  prints [] _insert_relations_many_to_many.
Proof.
  repeat apply conj.
  - unfold _insert_addresses. repeat silent_step.
  - unfold _insert_pizzerias. repeat silent_step.
  - unfold _insert_members. repeat silent_step.
  - unfold _insert_user_accounts. repeat silent_step.
  - unfold _update_members_user_account. repeat silent_step.
  - unfold _insert_recipes. repeat silent_step.
  - unfold _insert_products. repeat silent_step.
  - unfold _insert_catalog_items. repeat silent_step.
  - unfold _insert_order_status. repeat silent_step.
  - unfold _insert_taken_orders. repeat silent_step.
  - unfold _insert_bills. repeat silent_step.
  - unfold _insert_keywords. repeat silent_step.
  - unfold _insert_permissions. repeat silent_step.
  - unfold _insert_roles. repeat silent_step.
  - unfold _update_members_role. apply prints_silent. repeat hushed_step.
    apply hushed_liftW, np_choice.
  - unfold _insert_relations_many_to_many, callbacks. cbn [for_each].
    unfold _insert_has_permission_to, _insert_contains_item,
      _insert_requires_product, _insert_has_product_in_stock,
      _insert_has_keyword.
    apply prints_silent. repeat hushed_step; apply hushed_liftW.
    + apply np_has_permission_to.
    + apply np_contains_item.
    + apply np_requires_product.
    + apply np_has_product_in_stock.
    + apply np_has_keyword.
Qed.

Lemma prints_say_then {B} s lines (rest : M B) :
  prints lines rest -> prints (Line s :: lines) (say s ;;; rest).
Proof.
  intros H. apply (prints_bind [Line s] lines); [apply prints_say | auto].
Qed.

Lemma prints_then {A B} (m : M A) lines (rest : M B) :
  prints [] m -> prints lines rest -> prints lines (m ;;; rest).
Proof. intros Hm H. apply (prints_bind [] lines); auto. Qed.

Lemma populate_prints : prints progress_lines populate.
Proof.
  destruct stages_are_silent
    as (H1 & H2 & H3 & H4 & H5 & H6 & H7 & H8 & H9 & H10 & H11 & H12 & H13
        & H14 & H15 & H16).
  unfold populate, progress_lines. cbn [map].
  apply prints_say_then.
  repeat (apply prints_say_then; apply prints_then; [assumption |]).
  apply prints_say.
Qed.

(** X16: a run of [populate] that completes has printed its eighteen
    progress lines, in the order of the source, and nothing else: the
    generators, the fake constructors and the insertions print nothing
    (when [bills] prints the identifiers it was given, it raises). *)
Theorem populate_prints_its_progress (f f' : Feeder) :
  populate f = (inr tt, f') ->
  out (world f') = out (world f) ++ progress_lines.
Proof. apply populate_prints. Qed.

Lemma populate_prints_its_progress_witness :
  out (world (snd (populate (new_feeder empty_database 2))))
  = out (world (new_feeder empty_database 2)) ++ progress_lines.
Proof.
  apply (populate_prints_its_progress (new_feeder empty_database 2)
           (snd (populate (new_feeder empty_database 2)))).
  vm_compute. reflexivity.
Defined.

(** ** The statements of the products stage *)

Lemma query_sends s parameters f rows d :
  quiet f ->
  execute s parameters (db f) = inr (rows, d) ->
  query s parameters f
  = (inr rows, with_db d (with_journal (journal f ++ [s]) f)).
Proof.
  intros Hq Hx. now rewrite (query_quiet _ _ _ Hq), Hx.
Qed.

Lemma products_loop_sends (names : list string) f :
  quiet f ->
  runs (for_each (map FakeProduct names)
          (fun next =>
             x <- liftW next ;;
             (insert (InsertInto T_product
                        ["name"; "barcode"; "gram_weight"; "unit_price_ati"])
                     (Product.dict x) ;;;
              rows <- query (SelectFrom ["id"] T_product) [] ;;
              assign (set_product_ids (ids rows))))) f
    (fun _ f' =>
       fault f' = fault f /\
       journal f'
       = journal f ++ flat_map (fun _ => product_statements) names /\
       (names <> [] ->
        product_ids (pools f')
        = Some (ids (rows_of (db f') T_product)))).
Proof.
  revert f. induction names as [| name names IH]; intros f Hq;
    cbn [map for_each flat_map].
  - apply runs_ret. rewrite app_nil_r. repeat split; auto. congruence.
  - destruct (FakeProduct_run name (world f)) as (b & wt & pr & w' & Hp).
    apply runs_bind. apply runs_bind.
    exists (Product.mk name b wt pr), (with_world w' f). split.
    { unfold liftW. now rewrite Hp. }
    apply runs_bind. apply runs_bind.
    do 2 eexists. split.
    { apply query_sends; [exact Hq | reflexivity]. }
    apply runs_ret. apply runs_bind.
    do 2 eexists. split.
    { apply query_sends; [| reflexivity].
      destruct Hq as [Hf Hv].
      split; intros i Hi; cbn in Hi |- *; rewrite length_app in Hi;
        cbn in Hi; [apply Hf | apply Hv]; lia. }
    do 2 eexists. split; [reflexivity |].
    match goal with
    | |- runs _ ?f1 _ => destruct (IH f1) as ([] & f' & E & F & J & P)
    end.
    { destruct Hq as [Hf Hv].
      split; intros i Hi; cbn in Hi |- *; rewrite !length_app in Hi;
        cbn in Hi; [apply Hf | apply Hv]; lia. }
    exists tt, f'. split; [exact E |]. cbn in F, J.
    split; [exact F |]. split.
    { rewrite J. unfold product_statements. now rewrite <- !app_assoc. }
    intros _. destruct names as [| name' names].
    + cbn in E. injection E as <-. reflexivity.
    + apply P. discriminate.
Qed.

(** X17: on a gateway that does not fail and a database that rejects no
    statement, the products stage completes
    and reads the identifiers back after each insertion, not once after
    the loop: for its 35 products it sends 70 statements, an insertion
    and a selection in turn, and returns the identifiers of the whole
    product table. *)
Theorem products_are_read_back_each_time (f : Feeder) :
  quiet f ->
  exists v f',
    _insert_products f = (inr v, f') /\
    journal f'
    = journal f
      ++ flat_map (fun _ => product_statements)
           RandomDataGenerator.product_names /\
    List.length (flat_map (fun _ : string => product_statements)
                   RandomDataGenerator.product_names) = 70 /\
    v = ids (rows_of (db f') T_product).
Proof.
  intros Hq. unfold _insert_products, for_gen.
  destruct (products_loop_sends RandomDataGenerator.product_names f Hq)
    as ([] & f' & E & F & J & P).
  exists (ids (rows_of (db f') T_product)), f'. split.
  - assert (Hstart : liftW RandomDataGenerator.products f
                     = (inr (tt, map FakeProduct
                                   RandomDataGenerator.product_names), f))
      by now destruct f.
    unfold bind at 1 2. rewrite Hstart. cbn [fst snd].
    unfold bind at 1. cbn [ret].
    rewrite E. apply attr_run. apply P. discriminate.
  - repeat split; auto.
Qed.

Lemma products_are_read_back_each_time_witness :
  exists v f',
    _insert_products (new_feeder empty_database 2) = (inr v, f') /\
    List.length (journal f') = 70.
Proof.
  destruct (products_are_read_back_each_time (new_feeder empty_database 2))
    as (v & f' & E & J & L & _).
  - split; intros i _; reflexivity.
  - exists v, f'. split; [exact E |]. rewrite J. cbn [journal new_feeder app].
    exact L.
Defined.
